(** * MacosUseSDK Python wrapper: types.py, core.py and cli.py

    A shallow embedding of the data classes of [macos_use_sdk/types.py], of
    the methods of [MacosSDK] in [macos_use_sdk/core.py] that parse tool
    output, classify failures, validate options, run the coordinated action,
    diff two traversals, list the running applications and search files, and
    of the commands of [macos_use_sdk/cli.py] that print their results,
    followed by the properties proved about them.

    Text is modelled by [string], read as a sequence of code points below
    256 (Latin-1); Python integers by [Z]; Python floats by binary64
    numbers in the form of [spec_float]; exceptions by an explicit error
    result. *)

From Stdlib Require Import ZArith Ascii String List Bool Lia.
From Stdlib Require Import SpecFloat.
From stdpp Require Import base option list gmap strings pretty.

Local Open Scope Z_scope.

(** ** Python runtime fragments used by the wrapper *)

Module Py.

(** Exception classes that occur in the modelled code.  The first six are
    declared in types.py; the others are builtins. *)
Inductive ExcClass : Type :=
| MacosUseSDKError
| AccessibilityError
| AppNotFoundError
| InputSimulationError
| FileSearchError
| OutputControllerError
| AttributeError
| TypeError
| ValueError
| KeyError
| IndexError
| SubprocessError
| OSError.

Global Instance ExcClass_eq_dec : EqDecision ExcClass.
Proof. solve_decision. Defined.

(** An exception instance: its class and what [str(e)] gives. *)
Record Exc : Type := mkExc { exc_class : ExcClass; exc_str : string }.

Global Instance Exc_eq_dec : EqDecision Exc.
Proof. solve_decision. Defined.

(** [isinstance(e, MacosUseSDKError)]: the base class and its five
    subclasses of types.py. *)
Definition is_sdk_error (e : Exc) : bool :=
  match exc_class e with
  | MacosUseSDKError | AccessibilityError | AppNotFoundError
  | InputSimulationError | FileSearchError | OutputControllerError => true
  | _ => false
  end.

(** Outcome of an expression that may raise. *)
Inductive result (A : Type) : Type :=
| Ok (a : A)
| Raise (e : Exc).
Global Arguments Ok {A} a.
Global Arguments Raise {A} e.

Definition bind {A B} (r : result A) (k : A -> result B) : result B :=
  match r with
  | Ok a => k a
  | Raise e => Raise e
  end.

(** A Python float: a binary64 number, sign, mantissa and exponent. *)
Abbreviation float := spec_float.

(** The floats written in this file. *)
Definition float_zero : float := S754_zero false.
Definition float_half : float := S754_finite false 4503599627370496 (-53).
Definition float_quarter : float := S754_finite false 4503599627370496 (-54).

(** *** str methods *)

Definition code (c : ascii) : N := N_of_ascii c.

(** [str.lower] on one code point below 256: A-Z and the Latin-1 capitals
    (U+00C0..U+00DE without the multiplication sign) move up by 32. *)
Definition lower_char (c : ascii) : ascii :=
  let n := code c in
  if ((65 <=? n) && (n <=? 90))%N
     || ((192 <=? n) && (n <=? 222) && negb (n =? 215))%N
  then ascii_of_N (n + 32)
  else c.

Fixpoint lower (s : string) : string :=
  match s with
  | EmptyString => EmptyString
  | String c s' => String (lower_char c) (lower s')
  end.

(** [str.isspace] on one code point below 256. *)
Definition is_space (c : ascii) : bool :=
  let n := code c in
  (((9 <=? n) && (n <=? 13)) || ((28 <=? n) && (n <=? 32))
   || (n =? 133) || (n =? 160))%N.

Fixpoint lstrip (s : string) : string :=
  match s with
  | EmptyString => EmptyString
  | String c s' => if is_space c then lstrip s' else s
  end.

Fixpoint rstrip (s : string) : string :=
  match s with
  | EmptyString => EmptyString
  | String c s' =>
      match rstrip s' with
      | EmptyString => if is_space c then EmptyString else String c EmptyString
      | r => String c r
      end
  end.

(** [s.strip()] *)
Definition strip (s : string) : string := rstrip (lstrip s).

(** [s.startswith(p)] *)
Fixpoint startswith (p s : string) : bool :=
  match p, s with
  | EmptyString, _ => true
  | String a p', String b s' => if Ascii.eqb a b then startswith p' s' else false
  | String _ _, EmptyString => false
  end.

(** [sub in s] *)
Fixpoint contains (sub s : string) : bool :=
  startswith sub s
  || match s with
     | EmptyString => false
     | String _ s' => contains sub s'
     end.

(** [s.split(sep)] for a separator of one character. *)
Fixpoint split_char (sep : ascii) (s : string) : list string :=
  match s with
  | EmptyString => [EmptyString]
  | String c s' =>
      if Ascii.eqb c sep then EmptyString :: split_char sep s'
      else match split_char sep s' with
           | [] => [String c EmptyString]
           | piece :: rest => String c piece :: rest
           end
  end.

(** [l[-1]] *)
Fixpoint last_item {A} (l : list A) : option A :=
  match l with
  | [] => None
  | [x] => Some x
  | _ :: l' => last_item l'
  end.

Fixpoint drop_prefix (p s : string) : option string :=
  match p, s with
  | EmptyString, _ => Some s
  | String a p', String b s' => if Ascii.eqb a b then drop_prefix p' s' else None
  | String _ _, EmptyString => None
  end.

(** [s.split(sep, 1)] for a non-empty separator: the text before and after
    the leftmost occurrence, or the string alone when there is none. *)
Fixpoint split_once (sep s : string) : list string :=
  match drop_prefix sep s with
  | Some rest => [EmptyString; rest]
  | None =>
      match s with
      | EmptyString => [EmptyString]
      | String c s' =>
          match split_once sep s' with
          | [] => [String c EmptyString]
          | piece :: rest => String c piece :: rest
          end
      end
  end.

(** [s.replace(old, new)] for a non-empty [old]: occurrences are replaced
    left to right without overlap; [skip] counts the characters of the
    occurrence just replaced that are still to be passed over. *)
Fixpoint replace_from (old new : string) (skip : nat) (s : string) : string :=
  match s with
  | EmptyString => EmptyString
  | String c s' =>
      match skip with
      | S k => replace_from old new k s'
      | O =>
          if startswith old s
          then (new ++ replace_from old new (Nat.pred (String.length old)) s')%string
          else String c (replace_from old new O s')
      end
  end.

Definition replace (old new s : string) : string := replace_from old new O s.

(** *** int(str) in base 10 *)

Definition digit_value (c : ascii) : option Z :=
  let n := code c in
  if ((48 <=? n) && (n <=? 57))%N then Some (Z.of_N n - 48) else None.

(** White space for [int]: the white space of [str.isspace] below 256
    without the separators U+001C..U+001F, which [int] does not skip. *)
Definition is_int_space (c : ascii) : bool :=
  let n := code c in
  (((9 <=? n) && (n <=? 13)) || (n =? 32) || (n =? 133) || (n =? 160))%N.

Fixpoint skip_int_space (s : string) : string :=
  match s with
  | EmptyString => EmptyString
  | String c s' => if is_int_space c then skip_int_space s' else s
  end.

(** The scan over the digits and underscores of a literal: the value and
    the number of the digits passed, and the text at which the scan
    stopped.  [after_underscore] tells that the previous character was an
    underscore: two underscores in a row, or one at the end of the digits,
    make the scan fail. *)
Fixpoint scan_digits (acc : Z) (digits : N) (after_underscore : bool) (s : string)
    : option (Z * N * string) :=
  match s with
  | EmptyString => if after_underscore then None else Some (acc, digits, s)
  | String c s' =>
      match digit_value c with
      | Some d => scan_digits (10 * acc + d) (digits + 1) false s'
      | None =>
          if Ascii.eqb c "_"
          then if after_underscore then None else scan_digits acc digits true s'
          else if after_underscore then None else Some (acc, digits, s)
      end
  end.

(** *** repr(str) *)

Definition double_quote : ascii := ascii_of_nat 34.

Definition backslash : ascii := ascii_of_nat 92.

(** [0123456789abcdef] *)
Definition hex_digit (n : N) : ascii :=
  ascii_of_N (if (n <? 10)%N then 48 + n else 87 + n).

(** [c.isprintable()] on one code point below 256. *)
Definition is_printable (c : ascii) : bool :=
  let n := code c in
  (((32 <=? n) && (n <? 127)) || ((161 <=? n) && negb (n =? 173)))%N.

(** What [repr] writes for one character inside the quotes. *)
Definition repr_char (quote c : ascii) : string :=
  if Ascii.eqb c quote || Ascii.eqb c backslash
  then String backslash (String c EmptyString)
  else if Ascii.eqb c "009" then String backslash "t"
  else if Ascii.eqb c "010" then String backslash "n"
  else if Ascii.eqb c "013" then String backslash "r"
  else if is_printable c then String c EmptyString
  else String backslash
         (String "x"
            (String (hex_digit (code c / 16))
               (String (hex_digit (code c mod 16)) EmptyString))).

Fixpoint repr_chars (quote : ascii) (s : string) : string :=
  match s with
  | EmptyString => EmptyString
  | String c s' => (repr_char quote c ++ repr_chars quote s')%string
  end.

(** [repr(s)]: double quotes when the text has a single quote and no
    double quote, single quotes otherwise. *)
Definition repr (s : string) : string :=
  let quote :=
    if contains "'" s && negb (contains (String double_quote EmptyString) s)
    then double_quote else "'"%char in
  String quote (repr_chars quote s ++ String quote EmptyString).

(** The ValueError of [int] for a text that is no literal: the message
    ends with ["%.200R"], the first 200 characters of [repr(s)]. *)
Definition invalid_literal (s : string) : Exc :=
  mkExc ValueError
    ("invalid literal for int() with base 10: " ++ substring 0 200 (repr s))%string.

(** [sys.get_int_max_str_digits()], which the wrapper leaves as it is. *)
Definition max_str_digits : N := 4300.

(** The ValueError of [int] for a literal of too many digits. *)
Definition exceeds_limit (digits : N) : Exc :=
  mkExc ValueError
    ("Exceeds the limit (4300 digits) for integer string conversion: value has "
       ++ pretty digits
       ++ " digits; use sys.set_int_max_str_digits() to increase the limit")%string.

(** [int(s)]: white space, an optional sign, decimal digits with single
    underscores between them, white space.  The digits are counted before
    what follows them is looked at, so that too many digits are reported
    even in front of text that is no literal. *)
Definition int_of_str (s : string) : result Z :=
  let t := skip_int_space s in
  let '(negative, body) :=
    match t with
    | String "-" t' => (true, t')
    | String "+" t' => (false, t')
    | _ => (false, t)
    end in
  match body with
  | String "_" _ => Raise (invalid_literal s)
  | _ =>
      match scan_digits 0 0 false body with
      | None => Raise (invalid_literal s)
      | Some (z, digits, rest) =>
          if (max_str_digits <? digits)%N then Raise (exceeds_limit digits)
          else if (digits =? 0)%N then Raise (invalid_literal s)
          else match skip_int_space rest with
               | EmptyString => Ok (if negative then - z else z)
               | _ => Raise (invalid_literal s)
               end
      end
  end.

(** *** Values produced by json.loads

    A dict is the list of its entries, each key once. *)

#[warnings="-register-all"]
Inductive value : Type :=
| VNone
| VBool (b : bool)
| VInt (z : Z)
| VFloat (f : float)
| VStr (s : string)
| VList (items : list value)
| VDict (entries : list (string * value)).

(** Truth value of an object, as tested by [if]. *)
Definition truthy (v : value) : bool :=
  match v with
  | VNone => false
  | VBool b => b
  | VInt z => negb (z =? 0)
  | VFloat f => negb (SFeqb f float_zero)
  | VStr s => negb (String.eqb s EmptyString)
  | VList l => match l with [] => false | _ => true end
  | VDict d => match d with [] => false | _ => true end
  end.

Definition type_name (v : value) : string :=
  match v with
  | VNone => "NoneType"
  | VBool _ => "bool"
  | VInt _ => "int"
  | VFloat _ => "float"
  | VStr _ => "str"
  | VList _ => "list"
  | VDict _ => "dict"
  end.

(** A dict read from its entries: the first entry of a key is its value. *)
Fixpoint entries_get (key : string) (d : list (string * value)) : option value :=
  match d with
  | [] => None
  | (k, v) :: d' => if String.eqb k key then Some v else entries_get key d'
  end.

(** [obj.get(key, default)]: only a dict has a [get] method. *)
Definition get (obj : value) (key : string) (dflt : value) : result value :=
  match obj with
  | VDict d => Ok (default dflt (entries_get key d))
  | _ =>
      Raise (mkExc AttributeError
               ("'" ++ type_name obj ++ "' object has no attribute 'get'")%string)
  end.

(** [for x in obj]: the items a [for] loop visits. *)
Definition iterate (obj : value) : result (list value) :=
  match obj with
  | VList l => Ok l
  | VDict d => Ok (map (fun kv => VStr (fst kv)) d)
  | VStr s => Ok (map (fun c => VStr (String c EmptyString)) (list_ascii_of_string s))
  | _ =>
      Raise (mkExc TypeError
               ("'" ++ type_name obj ++ "' object is not iterable")%string)
  end.

End Py.

(** ** types.py *)

Module Types.
Import Py.

(** [ElementData].  The six declared fields hold whatever the traversal
    JSON held, since the dataclass constructor checks nothing.  The class
    declares no [ax_element] field; instances are open, so the attribute
    can still be set on one after construction.  [ax_element] is that
    instance attribute: [None] when the instance has none, which is how
    the constructor leaves every instance. *)
Record ElementData : Type := mkElementData {
  role : value;
  text : value;
  x : value;
  y : value;
  width : value;
  height : value;
  ax_element : option string
}.

(** [ElementData(role=.., text=.., x=.., y=.., width=.., height=..)] *)
Definition ElementData_init (role text x y width height : value) : ElementData :=
  mkElementData role text x y width height None.

(** [BrowserElementData].  Here and below a field keeps the name it has in
    the class, with a short prefix when an earlier record already uses the
    name. *)
Record BrowserElementData : Type := mkBrowserElementData {
  tag_name : value;
  be_id : value;
  class_name : value;
  be_text : value;
  be_value : value;
  placeholder : value;
  aria_label : value;
  be_role : value;
  href : value;
  src : value;
  be_x : value;
  be_y : value;
  be_width : value;
  be_height : value
}.

Record BrowserPageData : Type := mkBrowserPageData {
  url : value;
  title : value;
  bp_elements : list BrowserElementData
}.

Record Statistics : Type := mkStatistics {
  count : value;
  excluded_count : value;
  excluded_non_interactable : value;
  excluded_no_text : value;
  with_text_count : value;
  without_text_count : value;
  visible_elements_count : value;
  role_counts : value;
  browser_elements_count : value
}.

Record ResponseData : Type := mkResponseData {
  app_name : value;
  elements : list ElementData;
  stats : Statistics;
  processing_time_seconds : value;
  is_browser : value;
  browser_data : option BrowserPageData
}.

Record AppOpenerResult : Type := mkAppOpenerResult {
  pid : Z;
  ao_app_name : string;
  ao_processing_time_seconds : string
}.

Record OutputControllerResult : Type := mkOutputControllerResult {
  oc_value : option float;
  message : string
}.

Record AttributeChangeDetail : Type := mkAttributeChangeDetail {
  attribute_name : string;
  added_text : option string;
  removed_text : option string;
  old_value : option string;
  new_value : option string
}.

Record ElementChange : Type := mkElementChange {
  ec_ax_element : string;
  change_type : string;
  changes : list AttributeChangeDetail
}.

Record TraversalDiff : Type := mkTraversalDiff {
  added_elements : list ElementData;
  removed_elements : list ElementData;
  modified_elements : list ElementChange;
  stats_before : option Statistics;
  stats_after : option Statistics
}.

Record ActionResult : Type := mkActionResult {
  open_result : option AppOpenerResult;
  traversal_pid : option Z;
  traversal_before : option ResponseData;
  traversal_after : option ResponseData;
  traversal_diff : option TraversalDiff;
  primary_action_error : option string;
  traversal_before_error : option string;
  traversal_after_error : option string
}.

(** [ActionResult()] *)
Definition ActionResult_init : ActionResult :=
  mkActionResult None None None None None None None None.

(** Assignments to the attributes of the one [ActionResult] that
    [perform_action] builds and returns. *)
Definition with_open_result (v : AppOpenerResult) (r : ActionResult) : ActionResult :=
  mkActionResult (Some v) (traversal_pid r) (traversal_before r)
    (traversal_after r) (traversal_diff r) (primary_action_error r)
    (traversal_before_error r) (traversal_after_error r).
Definition with_traversal_pid (v : Z) (r : ActionResult) : ActionResult :=
  mkActionResult (open_result r) (Some v) (traversal_before r)
    (traversal_after r) (traversal_diff r) (primary_action_error r)
    (traversal_before_error r) (traversal_after_error r).
Definition with_traversal_before (v : ResponseData) (r : ActionResult) : ActionResult :=
  mkActionResult (open_result r) (traversal_pid r) (Some v)
    (traversal_after r) (traversal_diff r) (primary_action_error r)
    (traversal_before_error r) (traversal_after_error r).
Definition with_traversal_after (v : ResponseData) (r : ActionResult) : ActionResult :=
  mkActionResult (open_result r) (traversal_pid r) (traversal_before r)
    (Some v) (traversal_diff r) (primary_action_error r)
    (traversal_before_error r) (traversal_after_error r).
Definition with_traversal_diff (v : TraversalDiff) (r : ActionResult) : ActionResult :=
  mkActionResult (open_result r) (traversal_pid r) (traversal_before r)
    (traversal_after r) (Some v) (primary_action_error r)
    (traversal_before_error r) (traversal_after_error r).
Definition with_primary_action_error (v : string) (r : ActionResult) : ActionResult :=
  mkActionResult (open_result r) (traversal_pid r) (traversal_before r)
    (traversal_after r) (traversal_diff r) (Some v)
    (traversal_before_error r) (traversal_after_error r).
Definition with_traversal_before_error (v : string) (r : ActionResult) : ActionResult :=
  mkActionResult (open_result r) (traversal_pid r) (traversal_before r)
    (traversal_after r) (traversal_diff r) (primary_action_error r)
    (Some v) (traversal_after_error r).
Definition with_traversal_after_error (v : string) (r : ActionResult) : ActionResult :=
  mkActionResult (open_result r) (traversal_pid r) (traversal_before r)
    (traversal_after r) (traversal_diff r) (primary_action_error r)
    (traversal_before_error r) (Some v).

Inductive OutputControllerAction : Type :=
| SET_VOLUME
| GET_VOLUME
| SET_BRIGHTNESS
| GET_BRIGHTNESS.

(** [action.value] *)
Definition action_value (a : OutputControllerAction) : string :=
  match a with
  | SET_VOLUME => "set-volume"
  | GET_VOLUME => "get-volume"
  | SET_BRIGHTNESS => "set-brightness"
  | GET_BRIGHTNESS => "get-brightness"
  end.

(** A point is a dict from coordinate name to number. *)
Definition Point : Type := list (string * float).

(** [InputAction]: one constructor per nested class; [Type_] stands for
    [Type]. *)
Module InputAction.
Inductive t : Type :=
| Click (point : Point)
| DoubleClick (point : Point)
| RightClick (point : Point)
| Type_ (text : string)
| Press (key_name : string) (flags : Z)
| Move (to : Point)
| Scroll (point : Point) (delta_y delta_x : Z).
End InputAction.

Module PrimaryAction.
Inductive t : Type :=
| Open (identifier : string)
| Input (action : InputAction.t)
| TraverseOnly.
End PrimaryAction.

Record ActionOptions : Type := mkActionOptions {
  traverse_before : bool;
  traverse_after : bool;
  show_diff : bool;
  only_visible_elements : bool;
  show_animation : bool;
  animation_duration : float;
  pid_for_traversal : option Z;
  delay_after_action : float
}.

(** [ActionOptions()]: the declared defaults.  The two floats are the
    binary64 numbers nearest to 0.8 and 0.2, 0x1.999999999999ap-1 and
    0x1.999999999999ap-3. *)
Definition ActionOptions_default : ActionOptions :=
  mkActionOptions false false false false true
    (S754_finite false 7205759403792794 (-53)) None
    (S754_finite false 7205759403792794 (-55)).

(** *** The store of [ActionOptions] instances

    A variable of the program holds a reference; the instance itself lives
    in the store, so that assignments to its attributes are visible through
    every reference to it. *)

Abbreviation ref := positive.
Abbreviation Store := (gmap positive ActionOptions).

Global Instance ActionOptions_inhabited : Inhabited ActionOptions :=
  populate ActionOptions_default.

(** Reading through a reference.  A reference held by a program always
    denotes an instance of the store; the properties below are stated for
    such references only. *)
Definition deref (r : ref) (h : Store) : ActionOptions := h !!! r.

(** [ActionOptions(...)]: a new instance, distinct from all existing ones. *)
Definition ActionOptions_new (o : ActionOptions) (h : Store) : ref * Store :=
  let r := fresh (dom h) in (r, <[r := o]> h).

(** [r.traverse_before = b] *)
Definition set_traverse_before (r : ref) (b : bool) (h : Store) : Store :=
  let o := deref r h in
  <[r := mkActionOptions b (traverse_after o) (show_diff o)
           (only_visible_elements o) (show_animation o) (animation_duration o)
           (pid_for_traversal o) (delay_after_action o)]> h.

(** [r.traverse_after = b] *)
Definition set_traverse_after (r : ref) (b : bool) (h : Store) : Store :=
  let o := deref r h in
  <[r := mkActionOptions (traverse_before o) b (show_diff o)
           (only_visible_elements o) (show_animation o) (animation_duration o)
           (pid_for_traversal o) (delay_after_action o)]> h.

(** [ActionOptions.validated(self)] *)
Definition validated (self : ref) (h : Store) : ref * Store :=
  let s := deref self h in
  let '(options, h) :=
    ActionOptions_new
      {| traverse_before := traverse_before s;
         traverse_after := traverse_after s;
         show_diff := show_diff s;
         only_visible_elements := only_visible_elements s;
         show_animation := show_animation s;
         animation_duration := animation_duration s;
         pid_for_traversal := pid_for_traversal s;
         delay_after_action := delay_after_action s |} h in
  let h :=
    if show_diff (deref options h)
    then set_traverse_after options true (set_traverse_before options true h)
    else h in
  (options, h).

End Types.

(** ** core.py *)

Module Core.
Import Py Types.

(** [subprocess.CompletedProcess] of a run with captured text output. *)
Record CompletedProcess : Type := mkCompletedProcess {
  returncode : Z;
  stdout : string;
  stderr : string
}.

(** One pass of the element loop of [_parse_response_data]. *)
Definition parse_element (elem_data : value) : result ElementData :=
  bind (get elem_data "role" (VStr EmptyString)) (fun role =>
  bind (get elem_data "text" VNone) (fun text =>
  bind (get elem_data "x" VNone) (fun x =>
  bind (get elem_data "y" VNone) (fun y =>
  bind (get elem_data "width" VNone) (fun width =>
  bind (get elem_data "height" VNone) (fun height =>
    Ok (ElementData_init role text x y width height))))))).

(** [for elem_data in ...: elements.append(ElementData(...))] *)
Fixpoint parse_elements (items : list value) : result (list ElementData) :=
  match items with
  | [] => Ok []
  | elem_data :: rest =>
      bind (parse_element elem_data) (fun e =>
      bind (parse_elements rest) (fun es => Ok (e :: es)))
  end.

(** One pass of the browser element loop. *)
Definition parse_browser_element (elem : value) : result BrowserElementData :=
  bind (get elem "tagName" (VStr EmptyString)) (fun tag_name =>
  bind (get elem "id" VNone) (fun id =>
  bind (get elem "className" VNone) (fun class_name =>
  bind (get elem "text" VNone) (fun text =>
  bind (get elem "value" VNone) (fun value =>
  bind (get elem "placeholder" VNone) (fun placeholder =>
  bind (get elem "ariaLabel" VNone) (fun aria_label =>
  bind (get elem "role" VNone) (fun role =>
  bind (get elem "href" VNone) (fun href =>
  bind (get elem "src" VNone) (fun src =>
  bind (get elem "x" VNone) (fun x =>
  bind (get elem "y" VNone) (fun y =>
  bind (get elem "width" VNone) (fun width =>
  bind (get elem "height" VNone) (fun height =>
    Ok (mkBrowserElementData tag_name id class_name text value placeholder
          aria_label role href src x y width height))))))))))))))).

Fixpoint parse_browser_elements (items : list value)
    : result (list BrowserElementData) :=
  match items with
  | [] => Ok []
  | elem :: rest =>
      bind (parse_browser_element elem) (fun e =>
      bind (parse_browser_elements rest) (fun es => Ok (e :: es)))
  end.

(** "Parse statistics": the [Statistics(...)] call on the stats object. *)
Definition parse_statistics (stats_data : value) : result Statistics :=
  bind (get stats_data "count" (VInt 0)) (fun count =>
  bind (get stats_data "excluded_count" (VInt 0)) (fun excluded_count =>
  bind (get stats_data "excluded_non_interactable" (VInt 0)) (fun excluded_non_interactable =>
  bind (get stats_data "excluded_no_text" (VInt 0)) (fun excluded_no_text =>
  bind (get stats_data "with_text_count" (VInt 0)) (fun with_text_count =>
  bind (get stats_data "without_text_count" (VInt 0)) (fun without_text_count =>
  bind (get stats_data "visible_elements_count" (VInt 0)) (fun visible_elements_count =>
  bind (get stats_data "role_counts" (VDict [])) (fun role_counts =>
  bind (get stats_data "browser_elements_count" (VInt 0)) (fun browser_elements_count =>
    Ok (mkStatistics count excluded_count excluded_non_interactable
          excluded_no_text with_text_count without_text_count
          visible_elements_count role_counts browser_elements_count)))))))))).

(** "Parse browser data if present", on [json_data.get("browser_data")]. *)
Definition parse_browser_data (browser_json : value) : result (option BrowserPageData) :=
  if truthy browser_json
  then
    bind (get browser_json "elements" (VList [])) (fun elements_json =>
    bind (iterate elements_json) (fun items =>
    bind (parse_browser_elements items) (fun browser_elements =>
    bind (get browser_json "url" VNone) (fun url =>
    bind (get browser_json "title" VNone) (fun title =>
      Ok (Some (mkBrowserPageData url title browser_elements)))))))
  else Ok None.

(** [MacosSDK._parse_response_data] *)
Definition _parse_response_data (json_data : value) : result ResponseData :=
  bind (get json_data "stats" (VDict [])) (fun stats_data =>
  bind (parse_statistics stats_data) (fun stats =>
  bind (get json_data "elements" (VList [])) (fun elements_json =>
  bind (iterate elements_json) (fun items =>
  bind (parse_elements items) (fun elements =>
  bind (get json_data "browser_data" VNone) (fun browser_json =>
  bind (parse_browser_data browser_json) (fun browser_data =>
  bind (get json_data "app_name" (VStr EmptyString)) (fun app_name =>
  bind (get json_data "processing_time_seconds" (VStr "0.000")) (fun processing_time =>
  bind (get json_data "is_browser" (VBool false)) (fun is_browser =>
    Ok (mkResponseData app_name elements stats processing_time is_browser
          browser_data))))))))))).

(** *** The shape of a traversal document

    The traversal tool writes a JSON object whose "stats" entry is an
    object, whose "elements" entry is an array of objects, and whose
    "browser_data" entry, when it is not null, is an object with an array
    of objects under "elements". *)

Definition is_object (v : value) : bool :=
  match v with VDict _ => true | _ => false end.

Definition is_array_of_objects (v : value) : bool :=
  match v with VList items => forallb is_object items | _ => false end.

(** The entry of [key] is absent, or it satisfies [ok]. *)
Definition absent_or (ok : value -> bool) (key : string)
    (entries : list (string * value)) : bool :=
  match entries_get key entries with
  | Some v => ok v
  | None => true
  end.

Definition is_browser_data (v : value) : bool :=
  match v with
  | VNone => true
  | VDict entries => absent_or is_array_of_objects "elements" entries
  | _ => false
  end.

(** [elem.ax_element] *)
Definition getattr_ax_element (elem : ElementData) : result string :=
  match ax_element elem with
  | Some key => Ok key
  | None =>
      Raise (mkExc AttributeError
               "'ElementData' object has no attribute 'ax_element'")
  end.

(** A dict from identity key to element, in insertion order. *)
Definition ElementDict : Type := list (string * ElementData).

(** [d[key] = elem]: a key already present keeps its place. *)
Fixpoint dict_set (key : string) (elem : ElementData) (d : ElementDict)
    : ElementDict :=
  match d with
  | [] => [(key, elem)]
  | (k, v) :: d' =>
      if String.eqb k key then (k, elem) :: d' else (k, v) :: dict_set key elem d'
  end.

(** [key in d] *)
Definition dict_contains (key : string) (d : ElementDict) : bool :=
  existsb (fun kv => String.eqb (fst kv) key) d.

(** [{elem.ax_element: elem for elem in elems}], started from [d]. *)
Fixpoint index_by_ax_element (elems : list ElementData) (d : ElementDict)
    : result ElementDict :=
  match elems with
  | [] => Ok d
  | elem :: rest =>
      bind (getattr_ax_element elem) (fun key =>
        index_by_ax_element rest (dict_set key elem d))
  end.

(** Every entry of a dict built by the comprehension sits under the key
    read from its own element. *)
Definition own_keys (d : ElementDict) : Prop :=
  Forall (fun kv => ax_element (snd kv) = Some (fst kv)) d.

(** [[elem for ax_el, elem in d.items() if ax_el not in other]] *)
Definition elements_not_in (d other : ElementDict) : list ElementData :=
  map snd (List.filter (fun kv => negb (dict_contains (fst kv) other)) d).

(** [MacosSDK._generate_traversal_diff] *)
Definition _generate_traversal_diff (before after : ResponseData)
    : result TraversalDiff :=
  bind (index_by_ax_element (elements before) []) (fun before_elements =>
  bind (index_by_ax_element (elements after) []) (fun after_elements =>
    let added := elements_not_in after_elements before_elements in
    let removed := elements_not_in before_elements after_elements in
    Ok (mkTraversalDiff added removed []
          (Some (stats before)) (Some (stats after))))).

(** What the wrapper does not implement itself: the file system, the
    spawned tools, the JSON decoder, float conversions, the running
    application list, and the clock. *)
Class Platform : Type := {
  World : Type;
  (** [self.swift_build_path] *)
  swift_build_path : string;
  os_path_join : string -> string -> string;
  os_path_exists : string -> World -> bool;
  (** [subprocess.run(cmd, capture_output=True, text=True, check=False)] *)
  subprocess_run : list string -> World -> result CompletedProcess * World;
  (** [json.loads]: the decoded value, or the text of the JSONDecodeError *)
  json_loads : string -> string + value;
  (** [float(s)]: [None] stands for ValueError *)
  float_of_str : string -> option float;
  (** [str(f)] *)
  str_of_float : float -> string;
  (** [self.find_running_app_pid], which never raises *)
  find_running_app_pid : string -> World -> option Z * World;
  (** [asyncio.sleep] *)
  asyncio_sleep : float -> World -> World
}.

(** What a call did to the outside, in order. *)
Inductive Event : Type :=
| ToolRun (tool_name : string) (args : list string)
| Slept (seconds : float).

Section WithPlatform.
Context {P : Platform}.

Record State : Type := mkState {
  world : World;
  log : list Event;
  store : Store
}.

(** A method body: it may raise, and it changes the state. *)
Definition M (A : Type) : Type := State -> result A * State.

(** [result.stderr.strip() if result.stderr else "Unknown error"] *)
Definition error_msg (result : CompletedProcess) : string :=
  if negb (String.eqb (stderr result) EmptyString)
  then strip (stderr result) else "Unknown error"%string.

(** [MacosSDK._run_tool] *)
Definition _run_tool (tool_name : string) (args : list string)
    (check_returncode : bool) : M CompletedProcess := fun st =>
  let tool_path := os_path_join swift_build_path tool_name in
  if negb (os_path_exists tool_path (world st))
  then (Raise (mkExc MacosUseSDKError
                 ("Tool " ++ tool_name ++ " not found at " ++ tool_path)%string),
        st)
  else
    let cmd := tool_path :: args in
    let '(r, w) := subprocess_run cmd (world st) in
    let st := mkState w (log st ++ [ToolRun tool_name args]) (store st) in
    match r with
    | Ok result =>
        if check_returncode && negb (returncode result =? 0)
        then
          (Raise (mkExc MacosUseSDKError
                    (tool_name ++ " failed: " ++ error_msg result)%string), st)
        else (Ok result, st)
    | Raise e =>
        if decide (exc_class e = SubprocessError)
        then (Raise (mkExc MacosUseSDKError
                       ("Failed to run " ++ tool_name ++ ": " ++ exc_str e)%string),
              st)
        else (Raise e, st)
    end.

(** [MacosSDK._run_tool_async]: the same call, awaited. *)
Definition _run_tool_async := _run_tool.

(** [MacosSDK._parse_json_response] *)
Definition _parse_json_response (json_str response_type : string) : result value :=
  match json_loads json_str with
  | inr v => Ok v
  | inl e =>
      Raise (mkExc MacosUseSDKError
               ("Failed to parse " ++ response_type ++ " JSON response: " ++ e)%string)
  end.

(** [result.stderr.strip().split('\n')] *)
Definition stderr_lines (result : CompletedProcess) : list string :=
  split_char "010" (strip (stderr result)).

(** The loop of [open_application] over the stderr lines. *)
Definition scan_processing_time (stderr_lines : list string) (init : string) : string :=
  fold_left
    (fun processing_time line =>
       if contains "total execution time:" line
       then replace " seconds" EmptyString
              (strip (default EmptyString (last_item (split_char ":" line))))
       else processing_time)
    stderr_lines init.

(** [MacosSDK.open_application] *)
Definition open_application (identifier : string) : M AppOpenerResult := fun st =>
  let '(r, st) := _run_tool_async "AppOpenerTool" [identifier] true st in
  let body :=
    bind r (fun result =>
    bind (int_of_str (strip (stdout result))) (fun pid =>
      let app_name := identifier in
      let processing_time :=
        scan_processing_time (stderr_lines result) "0.000" in
      Ok (mkAppOpenerResult pid app_name processing_time))) in
  match body with
  | Ok a => (Ok a, st)
  | Raise e =>
      if is_sdk_error e && contains "not found" (lower (exc_str e))
      then (Raise (mkExc AppNotFoundError
                     ("Application not found: " ++ identifier)%string), st)
      else (Raise e, st)
  end.

(** The loop of [_run_output_controller_action] over the stderr lines,
    which stops at the first line with the marker. *)
Fixpoint scan_success_message (stderr_lines : list string) (init : string)
    : result string :=
  match stderr_lines with
  | [] => Ok init
  | line :: rest =>
      if contains "Success:" line
      then match split_once "Success:" line with
           | _ :: after :: _ => Ok (strip after)
           | _ => Raise (mkExc IndexError "list index out of range")
           end
      else scan_success_message rest init
  end.

(** [MacosSDK._run_output_controller_action] *)
Definition _run_output_controller_action (action : OutputControllerAction)
    (value : option float) : M OutputControllerResult := fun st =>
  let args :=
    action_value action
      :: match value with Some v => [str_of_float v] | None => [] end in
  let '(r, st) := _run_tool_async "OutputControllerTool" args true st in
  let body :=
    bind r (fun result =>
      let value_output := strip (stdout result) in
      let parsed_value :=
        if negb (String.eqb value_output EmptyString)
        then float_of_str value_output else None in
      bind (scan_success_message (stderr_lines result) EmptyString) (fun message =>
        Ok (mkOutputControllerResult parsed_value message))) in
  match body with
  | Ok a => (Ok a, st)
  | Raise e =>
      if is_sdk_error e
      then (Raise (mkExc OutputControllerError
                     ("Output controller operation failed: " ++ exc_str e)%string),
            st)
      else (Raise e, st)
  end.

(** [str(pid_or_identifier)] *)
Definition str_of_target (pid_or_identifier : Z + string) : string :=
  match pid_or_identifier with
  | inl pid => pretty pid
  | inr identifier => identifier
  end.

(** [MacosSDK.traverse_accessibility_tree] *)
Definition traverse_accessibility_tree (pid_or_identifier : Z + string)
    (only_visible_elements : bool) : M ResponseData := fun st =>
  (* Resolve identifier to PID if needed *)
  let '(resolved, st) :=
    match pid_or_identifier with
    | inr identifier =>
        let '(found, w) := find_running_app_pid identifier (world st) in
        (found, mkState w (log st) (store st))
    | inl pid => (Some pid, st)
    end in
  match resolved with
  | None =>
      (Raise (mkExc AppNotFoundError
                ("No running application found for identifier: "
                   ++ str_of_target pid_or_identifier)%string), st)
  | Some pid =>
      let args :=
        (if only_visible_elements then ["--visible-only"%string] else [])
          ++ [pretty pid] in
      let '(r, st) := _run_tool_async "TraversalTool" args true st in
      let body :=
        bind r (fun result =>
        bind (_parse_json_response (stdout result) "traversal") (fun json_data =>
          _parse_response_data json_data)) in
      match body with
      | Ok a => (Ok a, st)
      | Raise e =>
          if is_sdk_error e
          then
            if contains "accessibility" (lower (exc_str e))
            then (Raise (mkExc AccessibilityError (exc_str e)), st)
            else if contains "not found" (lower (exc_str e))
            then (Raise (mkExc AppNotFoundError
                           ("No application found for identifier "
                              ++ str_of_target pid_or_identifier)%string), st)
            else (Raise e, st)
          else (Raise e, st)
      end
  end.

(** [MacosSDK._run_input_action] *)
Definition _run_input_action (action : string) (args : list string) : M unit :=
  fun st =>
  let '(r, st) := _run_tool_async "InputControllerTool" (action :: args) true st in
  match r with
  | Ok _ => (Ok tt, st)
  | Raise e =>
      if is_sdk_error e
      then (Raise (mkExc InputSimulationError
                     ("Input simulation failed: " ++ exc_str e)%string), st)
      else (Raise e, st)
  end.

(** [MacosSDK._run_visual_input_action] *)
Definition _run_visual_input_action (action : string) (args : list string)
    (duration : float) : M unit := fun st =>
  let full_args := action :: args ++ ["--duration"%string; str_of_float duration] in
  let '(r, st) := _run_tool_async "VisualInputTool" full_args true st in
  match r with
  | Ok _ => (Ok tt, st)
  | Raise e =>
      if is_sdk_error e
      then (Raise (mkExc InputSimulationError
                     ("Visual input simulation failed: " ++ exc_str e)%string), st)
      else (Raise e, st)
  end.

(** [point[key]] *)
Definition getitem (point : Point) (key : string) : result float :=
  match List.find (fun kv => String.eqb (fst kv) key) point with
  | Some kv => Ok (snd kv)
  | None => Raise (mkExc KeyError ("'" ++ key ++ "'")%string)
  end.

(** A body that first reads [point["x"]] and [point["y"]]. *)
Definition with_point (point : Point) (k : float -> float -> M unit) : M unit :=
  fun st =>
  match getitem point "x" with
  | Raise e => (Raise e, st)
  | Ok px =>
      match getitem point "y" with
      | Raise e => (Raise e, st)
      | Ok py => k px py st
      end
  end.

(** [click], [double_click], [right_click], [move_mouse] and their
    [_visual] variants, [type_text], [press_key], [scroll]. *)
Definition pointer_action (name : string) (px py : float) : M unit :=
  _run_input_action name [str_of_float px; str_of_float py].
Definition pointer_action_visual (name : string) (px py duration : float) : M unit :=
  _run_visual_input_action name [str_of_float px; str_of_float py] duration.
Definition type_text (text : string) : M unit :=
  _run_input_action "writetext" [text].
Definition press_key (key : string) : M unit :=
  _run_input_action "keypress" [key].
Definition scroll (px py : float) (delta_y delta_x : Z) : M unit :=
  _run_input_action "scroll"
    [str_of_float px; str_of_float py; pretty delta_y; pretty delta_x].

(** [MacosSDK._execute_input_action] *)
Definition _execute_input_action (action : InputAction.t) (options : ActionOptions)
    : M unit :=
  let pointer name point :=
    with_point point (fun px py =>
      if show_animation options
      then pointer_action_visual name px py (animation_duration options)
      else pointer_action name px py) in
  match action with
  | InputAction.Click point => pointer "click"%string point
  | InputAction.DoubleClick point => pointer "doubleclick"%string point
  | InputAction.RightClick point => pointer "rightclick"%string point
  | InputAction.Type_ text => type_text text
  | InputAction.Press key_name _ => press_key key_name
  | InputAction.Move to => pointer "mousemove"%string to
  | InputAction.Scroll point delta_y delta_x =>
      with_point point (fun px py => scroll px py delta_y delta_x)
  end.

(** *** The stages of [MacosSDK.perform_action]

    Each stage takes the [ActionResult] built so far and returns it
    with its own attributes assigned.  [options] is the reference to
    the validated options. *)

(** [flag and result.traversal_pid]: the pid to traverse when the
    condition holds.  A pid that is [None] or 0 counts as false. *)
Definition guarded (flag : bool) (result : ActionResult) : option Z :=
  match traversal_pid result with
  | Some p => if flag && negb (p =? 0) then Some p else None
  | None => None
  end.

(** "Handle open action".  The flag tells that the method returns at
    once. *)
Definition open_stage (action : PrimaryAction.t) (result : ActionResult)
    : State -> (bool * ActionResult) * State := fun st =>
  match action with
  | PrimaryAction.Open identifier =>
      let '(r, st) := open_application identifier st in
      match r with
      | Ok open_result =>
          ((false,
            with_traversal_pid (pid open_result)
              (with_open_result open_result result)), st)
      | Raise e => ((true, with_primary_action_error (exc_str e) result), st)
      end
  | _ => ((false, result), st)
  end.

(** "Handle traversal before" *)
Definition before_stage (options : ref) (result : ActionResult)
    : State -> ActionResult * State := fun st =>
  match guarded (traverse_before (deref options (store st))) result with
  | Some p =>
      let '(r, st') :=
        traverse_accessibility_tree (inl p)
          (only_visible_elements (deref options (store st))) st in
      match r with
      | Ok data => (with_traversal_before data result, st')
      | Raise e => (with_traversal_before_error (exc_str e) result, st')
      end
  | None => (result, st)
  end.

(** "Handle input action" *)
Definition input_stage (action : PrimaryAction.t) (options : ref)
    (result : ActionResult) : State -> ActionResult * State := fun st =>
  match action with
  | PrimaryAction.Input input_action =>
      let '(r, st') :=
        _execute_input_action input_action (deref options (store st)) st in
      match r with
      | Ok _ => (result, st')
      | Raise e => (with_primary_action_error (exc_str e) result, st')
      end
  | _ => (result, st)
  end.

(** "Delay after action" *)
Definition delay_stage (options : ref) : State -> State := fun st =>
  let seconds := delay_after_action (deref options (store st)) in
  if SFltb float_zero seconds
  then mkState (asyncio_sleep seconds (world st)) (log st ++ [Slept seconds])
         (store st)
  else st.

(** "Handle traversal after" *)
Definition after_stage (options : ref) (result : ActionResult)
    : State -> ActionResult * State := fun st =>
  match guarded (traverse_after (deref options (store st))) result with
  | Some p =>
      let '(r, st') :=
        traverse_accessibility_tree (inl p)
          (only_visible_elements (deref options (store st))) st in
      match r with
      | Ok data => (with_traversal_after data result, st')
      | Raise e => (with_traversal_after_error (exc_str e) result, st')
      end
  | None => (result, st)
  end.

(** "Generate diff if requested".  The call is outside every [try]. *)
Definition diff_stage (options : ref) (result : ActionResult) : M ActionResult :=
  fun st =>
  match traversal_before result, traversal_after result with
  | Some before, Some after =>
      if show_diff (deref options (store st))
      then match _generate_traversal_diff before after with
           | Ok diff => (Ok (with_traversal_diff diff result), st)
           | Raise e => (Raise e, st)
           end
      else (Ok result, st)
  | _, _ => (Ok result, st)
  end.

(** The stages after the open stage, in order. *)
Definition later_stages (action : PrimaryAction.t) (options : ref)
    (result : ActionResult) : M ActionResult := fun st =>
  let '(result, st) := before_stage options result st in
  let '(result, st) := input_stage action options result st in
  let st := delay_stage options st in
  let '(result, st) := after_stage options result st in
  diff_stage options result st.

(** The body of [perform_action] once the options are validated. *)
Definition run_stages (action : PrimaryAction.t) (options : ref)
    : M ActionResult := fun st =>
  let result := ActionResult_init in
  let '((returned, result), st) := open_stage action result st in
  if returned then (Ok result, st)
  else later_stages action options result st.

(** The first statements of [perform_action]: a missing [options] becomes
    [ActionOptions()], and [options] is rebound to [options.validated()]. *)
Definition validate_options (options : option ref) (h : Store) : ref * Store :=
  let '(options, h) :=
    match options with
    | None => ActionOptions_new ActionOptions_default h
    | Some r => (r, h)
    end in
  validated options h.

(** [MacosSDK.perform_action] *)
Definition perform_action (action : PrimaryAction.t) (options : option ref)
    : M ActionResult := fun st =>
  let '(options, h) := validate_options options (store st) in
  run_stages action options (mkState (world st) (log st) h).

End WithPlatform.
End Core.

(** ** A platform for concrete runs

    Every tool exists; each spawned process takes its outcome from a script,
    in order; the decoder knows the documents used below. *)

Module Scripted.
Import Py Types Core.

Definition run_script (cmd : list string) (w : list (result CompletedProcess))
    : result CompletedProcess * list (result CompletedProcess) :=
  match w with
  | [] => (Raise (mkExc OSError "[Errno 8] Exec format error"), [])
  | r :: w' => (r, w')
  end.

(** The text of a JSON string literal. *)
Definition quoted (s : string) : string :=
  let q := String (ascii_of_nat 34) EmptyString in (q ++ s ++ q)%string.

(** A traversal document with a single button. *)
Definition one_button_json : string :=
  ("{" ++ quoted "elements" ++ ": [{" ++ quoted "role" ++ ": "
     ++ quoted "AXButton" ++ "}]}")%string.

Definition one_button : value :=
  VDict [("elements"%string, VList [VDict [("role"%string, VStr "AXButton")]])].

Definition decode (s : string) : string + value :=
  if String.eqb s "{}" then inr (VDict [])
  else if String.eqb s one_button_json then inr one_button
  else inl "Expecting value: line 1 column 1 (char 0)"%string.

Definition platform : Platform := {|
  World := list (result CompletedProcess);
  swift_build_path := ".build/debug";
  os_path_join := fun dir name => (dir ++ "/" ++ name)%string;
  os_path_exists := fun _ _ => true;
  subprocess_run := run_script;
  json_loads := decode;
  float_of_str := fun s => if String.eqb s "0.5" then Some float_half else None;
  str_of_float := fun _ => "0.5"%string;
  find_running_app_pid := fun _ w => (None, w);
  asyncio_sleep := fun _ w => w
|}.

(** A state with nothing logged and one caller-owned options instance. *)
Definition start (script : list (result CompletedProcess)) (o : ActionOptions)
    : @State platform :=
  @mkState platform script [] {[ 1%positive := o ]}.

(** The same platform with Calculator running as process 4321. *)
Definition listed : Platform := {|
  World := list (result CompletedProcess);
  swift_build_path := ".build/debug";
  os_path_join := fun dir name => (dir ++ "/" ++ name)%string;
  os_path_exists := fun _ _ => true;
  subprocess_run := run_script;
  json_loads := decode;
  float_of_str := fun s => if String.eqb s "0.5" then Some float_half else None;
  str_of_float := fun _ => "0.5"%string;
  find_running_app_pid :=
    fun identifier w => (if String.eqb identifier "Calculator" then Some 4321 else None, w);
  asyncio_sleep := fun _ w => w
|}.

Definition start_listed (script : list (result CompletedProcess)) : @State listed :=
  @mkState listed script [] ∅.

End Scripted.

(** ** Further definitions *)

Module Log.
Import Py Types Core.

(** What an input action leaves in the log: at most one run, of one of the
    two input tools. *)
Definition input_events (events : list Event) : Prop :=
  events = []
  \/ exists tool args,
       events = [ToolRun tool args]
       /\ (tool = "InputControllerTool"%string \/ tool = "VisualInputTool"%string).

End Log.

(** ** core.py: the running applications *)

Module Apps.
Import Py Types Core.

(** An entry of the list that [list_running_applications] returns: a dict
    with the keys 'pid', 'bundle_id' and 'name'. *)
Record App : Type := mkApp {
  app_pid : Z;
  bundle_id : string;
  name : string
}.

(** [s.split(sep)] for a separator of any length above zero; [skip] counts
    the characters of the separator just found that are still to be passed
    over. *)
Fixpoint split_from (sep : string) (skip : nat) (s : string) : list string :=
  match s with
  | EmptyString => [EmptyString]
  | String c s' =>
      match skip with
      | S k => split_from sep k s'
      | O =>
          if startswith sep s
          then EmptyString :: split_from sep (Nat.pred (String.length sep)) s'
          else match split_from sep O s' with
               | [] => [String c EmptyString]
               | piece :: rest => String c piece :: rest
               end
      end
  end.

Definition split (sep s : string) : list string := split_from sep O s.

(** [sep.join(parts)] *)
Definition join (sep : string) (parts : list string) : string :=
  match parts with
  | [] => EmptyString
  | first :: rest => fold_left (fun acc part => (acc ++ sep ++ part)%string) rest first
  end.

(** The body of the loop over the entries of the osascript output: the app
    that the entry adds, if any. *)
Definition parse_entry (entry : string) : option App :=
  let parts := split_char "," entry in
  if (3 <=? length parts)%nat
  then
    let name :=
      if (3 <? length parts)%nat
      then join "," (firstn (length parts - 2) parts)
      else nth 0 parts EmptyString in
    let pid_str := nth (length parts - 2) parts EmptyString in
    let bundle_id := nth (length parts - 1) parts EmptyString in
    match int_of_str pid_str with
    | Ok pid => Some (mkApp pid bundle_id name)
    | Raise _ => None
    end
  else None.

(** The apps read from the stripped output of osascript. *)
Definition parse_listing (output : string) : list App :=
  omap parse_entry (split ", " output).

(** [line.strip().split(None, 1)] on a stripped line: the first word and,
    when white space follows it, the rest after that white space. *)
Fixpoint first_word (s : string) : string * string :=
  match s with
  | EmptyString => (EmptyString, EmptyString)
  | String c s' =>
      if is_space c then (EmptyString, lstrip s')
      else let '(word, rest) := first_word s' in (String c word, rest)
  end.

Definition split_words_once (stripped : string) : list string :=
  match stripped with
  | EmptyString => []
  | _ =>
      let '(word, rest) := first_word stripped in
      match rest with
      | EmptyString => [word]
      | _ => [word; rest]
      end
  end.

(** The body of the loop over the lines of the ps output. *)
Definition parse_ps_line (line : string) : option App :=
  match split_words_once (strip line) with
  | pid_str :: comm :: _ =>
      match int_of_str pid_str with
      | Ok pid =>
          if contains ".app/Contents/MacOS/" comm
          then
            let app_name :=
              default EmptyString
                (last_item
                   (split_char "/"
                      (nth 0 (split_once ".app/Contents/MacOS/" comm) EmptyString))) in
            Some (mkApp pid ("unknown." ++ lower app_name)%string app_name)
          else None
      | Raise _ => None
      end
  | _ => None
  end.

(** The apps read from the output of ps, whose first line is the header. *)
Definition parse_ps_listing (stdout : string) : list App :=
  omap parse_ps_line (tail (split_char "010" (strip stdout))).

(** The AppleScript that lists the foreground processes. *)
Definition script : string :=
  let q := String (ascii_of_nat 34) EmptyString in
  ("tell application " ++ q ++ "System Events" ++ q ++ "
    set appInfo to {}
    repeat with proc in (every process whose background only is false)
        try
            set procName to name of proc
            set procPID to unix id of proc
            set bundleID to bundle identifier of proc
            set end of appInfo to (procName & " ++ q ++ "," ++ q ++ " & procPID & "
     ++ q ++ "," ++ q ++ " & bundleID)
        on error
            -- Skip processes without bundle IDs
        end try
    end repeat
    return appInfo
end tell")%string.

(** The identifier is an application's bundle id, or a part of its name
    when letter case is ignored: what the three searches of
    [find_running_app_pid] look for. *)
Definition matches (identifier : string) (app : App) : Prop :=
  bundle_id app = identifier
  \/ contains (lower identifier) (lower (name app)) = true.

(** *** What osascript prints

    The entry that the AppleScript builds for a process: its name, its
    process id and its bundle id, with commas between. *)
Definition entry_of (app : App) : string :=
  (name app ++ "," ++ pretty (app_pid app) ++ "," ++ bundle_id app)%string.

(** The text of the AppleScript list of such entries. *)
Definition listing_of (apps : list App) : string := join ", " (map entry_of apps).

(** An application that the listing can carry: its name is without ", ",
    its bundle id without a comma or a space in front, and its process id
    has no more digits than [int] reads. *)
Definition listable (app : App) : Prop :=
  contains ", " (name app) = false
  /\ contains "," (bundle_id app) = false
  /\ startswith " " (bundle_id app) = false
  /\ Z.abs (app_pid app) < 10 ^ 4300.

Section WithPlatform.
Context {P : Platform}.

(** The first command, and the state after its run. *)
Definition osascript : list string := ["osascript"; "-e"; script]%string.

Definition after_osascript (st : State) (w : World) : State :=
  mkState w (log st ++ [ToolRun "osascript" ["-e"; script]%string]) (store st).


(** [MacosSDK.list_running_applications].  osascript and ps are run
    directly, not through [_run_tool]; ps is the fallback for an osascript
    that could not be run, and whatever fails after that leaves the list as
    it is. *)
Definition list_running_applications : State -> list App * State := fun st =>
  let '(r, w) := subprocess_run ["osascript"; "-e"; script]%string (world st) in
  let st := mkState w (log st ++ [ToolRun "osascript" ["-e"; script]%string]) (store st) in
  match r with
  | Ok result =>
      if (returncode result =? 0)
         && negb (String.eqb (strip (stdout result)) EmptyString)
      then (parse_listing (strip (stdout result)), st)
      else ([], st)
  | Raise _ =>
      let '(r, w) := subprocess_run ["ps"; "-eo"; "pid,comm"]%string (world st) in
      let st :=
        mkState w (log st ++ [ToolRun "ps" ["-eo"; "pid,comm"]%string]) (store st) in
      match r with
      | Ok result =>
          if returncode result =? 0
          then (parse_ps_listing (stdout result), st)
          else ([], st)
      | Raise _ => ([], st)
      end
  end.

(** The three searches of [find_running_app_pid] over the listed apps. *)
Definition find_pid (apps : list App) (identifier : string) : option Z :=
  match List.find (fun app => String.eqb (bundle_id app) identifier) apps with
  | Some app => Some (app_pid app)
  | None =>
      match List.find
              (fun app => String.eqb (lower (name app)) (lower identifier)) apps with
      | Some app => Some (app_pid app)
      | None =>
          match List.find
                  (fun app => contains (lower identifier) (lower (name app))) apps with
          | Some app => Some (app_pid app)
          | None => None
          end
      end
  end.

(** [MacosSDK.find_running_app_pid] *)
Definition find_running_app_pid (identifier : string) : State -> option Z * State :=
  fun st =>
  let '(apps, st) := list_running_applications st in
  (find_pid apps identifier, st).

(** [MacosSDK.get_pid_by_bundle_id] *)
Definition get_pid_by_bundle_id (bundle : string) : State -> option Z * State :=
  fun st =>
  let '(apps, st) := list_running_applications st in
  (app_pid <$> List.find (fun app => String.eqb (bundle_id app) bundle) apps, st).

End WithPlatform.
End Apps.

(** ** cli.py *)

Module Cli.
Import Py Types Core.

(** What a command leaves behind: the lines printed to standard output,
    the lines printed to standard error, and the status that [sys.exit]
    was called with, if it was. *)
Record Console : Type := mkConsole {
  out : list string;
  err : list string;
  exit_status : option Z
}.

(** [print(line)] for each line, and a return. *)
Definition printed (lines : list string) : Console := mkConsole lines [] None.

(** [print(line, file=sys.stderr); sys.exit(1)] *)
Definition failed (line : string) : Console := mkConsole [] [line] (Some 1).

(** [c.isdigit()] on one code point below 256: the ten digits and the
    superscripts one, two and three. *)
Definition is_digit_char (c : ascii) : bool :=
  let n := code c in
  (((48 <=? n) && (n <=? 57)) || (n =? 178) || (n =? 179) || (n =? 185))%N.

(** [s.isdigit()] *)
Definition isdigit (s : string) : bool :=
  match s with
  | EmptyString => false
  | _ => forallb is_digit_char (list_ascii_of_string s)
  end.

(** The dict that [CLIHandler.traverse] builds for an element. *)
Definition element_data (elem : ElementData) : value :=
  VDict [("role", role elem); ("text", text elem); ("x", x elem); ("y", y elem);
         ("width", width elem); ("height", height elem)]%string.

(** The dict that [CLIHandler.traverse] serializes. *)
Definition traverse_data (result : ResponseData) : value :=
  VDict [("app_name", app_name result);
         ("processing_time_seconds", processing_time_seconds result);
         ("is_browser", is_browser result);
         ("stats",
          VDict [("count", count (stats result));
                 ("excluded_count", excluded_count (stats result));
                 ("visible_elements_count", visible_elements_count (stats result));
                 ("role_counts", role_counts (stats result))]);
         ("elements", VList (map element_data (elements result)))]%string.

(** [f"{value:.2f}"] for the value of an output-controller result; [None]
    has no such format. *)
Definition format_value (format_2f : float -> string) (value : option float)
    : result string :=
  match value with
  | Some f => Ok (format_2f f)
  | None =>
      Raise (mkExc TypeError
               "unsupported format string passed to NoneType.__format__")
  end.

Section WithSystem.
Context {P : Platform}.

(** [f"{x:.2f}"] on a float. *)
Variable format_2f : float -> string.

(** [json.dumps(data, indent=2, ensure_ascii=False)] *)
Variable json_dumps : value -> string.

(** [with open(path, 'w') as f: f.write(text)] *)
Variable write_text : string -> string -> World -> result unit * World.

(** [CLIHandler.open_app] *)
Definition open_app (identifier : string) : State -> Console * State := fun st =>
  let '(r, st) := open_application identifier st in
  match r with
  | Ok result =>
      (printed [("Application opened with PID: " ++ pretty (pid result))%string;
                ("App name: " ++ ao_app_name result)%string;
                ("Processing time: " ++ ao_processing_time_seconds result ++ "s")%string],
       st)
  | Raise e => (failed ("Error opening application: " ++ exc_str e)%string, st)
  end.

(** "Convert to int if it's a numeric string (PID), otherwise keep as
    string". *)
Definition convert_identifier (pid_or_identifier : Z + string) : result (Z + string) :=
  match pid_or_identifier with
  | inr s => if isdigit s then bind (int_of_str s) (fun n => Ok (inl n)) else Ok (inr s)
  | inl n => Ok (inl n)
  end.

(** [CLIHandler.traverse] *)
Definition traverse (pid_or_identifier : Z + string) (visible_only : bool)
    (output_file : option string) : State -> Console * State := fun st =>
  match convert_identifier pid_or_identifier with
  | Raise e =>
      (failed ("Error traversing accessibility tree: " ++ exc_str e)%string, st)
  | Ok identifier =>
      let '(r, st) := traverse_accessibility_tree identifier visible_only st in
      match r with
      | Raise e =>
          (failed ("Error traversing accessibility tree: " ++ exc_str e)%string, st)
      | Ok result =>
          let json_output := json_dumps (traverse_data result) in
          match output_file with
          | Some (String c path' as path) =>
              let '(written, w) := write_text path json_output (world st) in
              let st := mkState w (log st) (store st) in
              match written with
              | Ok _ => (printed [("Traversal data saved to " ++ path)%string], st)
              | Raise e =>
                  (failed ("Error traversing accessibility tree: " ++ exc_str e)%string,
                   st)
              end
          | _ => (printed [json_output], st)
          end
      end
  end.

(** The four volume and brightness commands: the action, its argument, the
    text before the value and the text before an error. *)
Definition output_command (action : OutputControllerAction) (value : option float)
    (label error_label : string) : State -> Console * State := fun st =>
  let '(r, st) := _run_output_controller_action action value st in
  match bind r (fun result => format_value format_2f (oc_value result)) with
  | Ok text => (printed [(label ++ text)%string], st)
  | Raise e => (failed (error_label ++ exc_str e)%string, st)
  end.

(** What a volume or brightness command leaves behind once its tool has
    succeeded with [result]: the printed value with two decimals after
    [label], or, when the tool printed no number, the text of the TypeError
    after [error_label] and the exit status 1. *)
Definition reported (label error_label : string) (result : CompletedProcess)
    : Console :=
  match (if negb (String.eqb (strip (stdout result)) EmptyString)
         then float_of_str (strip (stdout result)) else None) with
  | Some v => printed [(label ++ format_2f v)%string]
  | None =>
      failed
        (error_label ++ "unsupported format string passed to NoneType.__format__")%string
  end.

(** [CLIHandler.set_volume] *)
Definition set_volume (volume : float) : State -> Console * State :=
  output_command SET_VOLUME (Some volume) "Volume set to: " "Error setting volume: ".

(** [CLIHandler.get_volume] *)
Definition get_volume : State -> Console * State :=
  output_command GET_VOLUME None "Current volume: " "Error getting volume: ".

(** [CLIHandler.set_brightness] *)
Definition set_brightness (brightness : float) : State -> Console * State :=
  output_command SET_BRIGHTNESS (Some brightness)
    "Brightness set to: " "Error setting brightness: ".

(** [CLIHandler.get_brightness] *)
Definition get_brightness : State -> Console * State :=
  output_command GET_BRIGHTNESS None
    "Current brightness: " "Error getting brightness: ".

End WithSystem.
End Cli.

(** ** core.py: the file search *)

Module Search.
Import Py Types Core.

Section WithCalendar.
Context {P : Platform}.

(** [datetime] objects, which are all truthy. *)
Variable datetime : Type.

(** [d.strftime("%Y-%m-%d")] *)
Variable strftime_ymd : datetime -> string.

(** [datetime.fromisoformat]: the date, or the text of the ValueError. *)
Variable fromisoformat : string -> string + datetime.

(** [os.path.expanduser("~")] *)
Variable home : string.

(** [FileSearchOptions] of types.py *)
Record FileSearchOptions : Type := mkFileSearchOptions {
  file_name : option string;
  file_type : option string;
  start_date : option datetime;
  end_date : option datetime;
  search_locations : list string;
  max_results : Z
}.

(** The constructor, with [__post_init__]: an empty list of locations is
    replaced by the home directory. *)
Definition FileSearchOptions_init (file_name file_type : option string)
    (start_date end_date : option datetime) (search_locations : list string)
    (max_results : Z) : FileSearchOptions :=
  mkFileSearchOptions file_name file_type start_date end_date
    (match search_locations with
     | [] => [home]
     | _ => search_locations
     end)
    max_results.

(** [FileInfo] of types.py; the text fields hold what the JSON held. *)
Record FileInfo : Type := mkFileInfo {
  path : value;
  fi_name : value;
  size : value;
  creation_date : option datetime;
  modification_date : option datetime;
  fi_file_type : value
}.

(** [FileSearchResult] of types.py *)
Record FileSearchResult : Type := mkFileSearchResult {
  files : list FileInfo;
  total_count : value;
  execution_time : value
}.

(** [if text: args.extend([name, text])] *)
Definition text_flag (name : string) (text : option string) : list string :=
  match text with
  | Some (String _ _ as t) => [name; t]
  | _ => []
  end.

(** [if date: args.extend([name, date.strftime("%Y-%m-%d")])] *)
Definition date_flag (name : string) (date : option datetime) : list string :=
  match date with
  | Some d => [name; strftime_ymd d]
  | None => []
  end.

(** The argument list that [search_files] builds. *)
Definition search_args (options : FileSearchOptions) : list string :=
  text_flag "--name" (file_name options)
  ++ text_flag "--type" (file_type options)
  ++ date_flag "--start-date" (start_date options)
  ++ date_flag "--end-date" (end_date options)
  ++ (if max_results options =? 100 then []
      else ["--max"%string; pretty (max_results options)])
  ++ flat_map (fun location => ["--location"%string; location])
       (search_locations options).

(** [if file_data.get(key): date = datetime.fromisoformat(
    file_data[key].replace("Z", "+00:00"))] *)
Definition parse_date (file_data : value) (key : string) : result (option datetime) :=
  bind (get file_data key VNone) (fun v =>
    if truthy v
    then
      match v with
      | VStr s =>
          match fromisoformat (replace "Z" "+00:00" s) with
          | inr d => Ok (Some d)
          | inl message => Raise (mkExc ValueError message)
          end
      | _ =>
          Raise (mkExc AttributeError
                   ("'" ++ type_name v ++ "' object has no attribute 'replace'")%string)
      end
    else Ok None).

(** One pass of the loop over the files. *)
Definition parse_file (file_data : value) : result FileInfo :=
  bind (parse_date file_data "creationDate") (fun creation_date =>
  bind (parse_date file_data "modificationDate") (fun modification_date =>
  bind (get file_data "path" (VStr EmptyString)) (fun path =>
  bind (get file_data "name" (VStr EmptyString)) (fun name =>
  bind (get file_data "size" (VInt 0)) (fun size =>
  bind (get file_data "fileType" (VStr EmptyString)) (fun file_type =>
    Ok (mkFileInfo path name size creation_date modification_date file_type))))))).

Fixpoint parse_files (items : list value) : result (list FileInfo) :=
  match items with
  | [] => Ok []
  | file_data :: rest =>
      bind (parse_file file_data) (fun f =>
      bind (parse_files rest) (fun fs => Ok (f :: fs)))
  end.

(** What the loop reads from a date field that does not make it raise:
    nothing when the key is absent or its value falsy, and otherwise the
    date that [fromisoformat] makes of the text. *)
Definition read_date (entry : list (string * value)) (key : string)
    (date : option datetime) : Prop :=
  match entries_get key entry with
  | None => date = None
  | Some v =>
      if truthy v
      then exists s d,
             v = VStr s
             /\ fromisoformat (replace "Z" "+00:00" s) = inr d
             /\ date = Some d
      else date = None
  end.

(** An entry of the "files" array and the [FileInfo] made of it: the entry
    is an object, each date is read as above, and every other field is the
    value under its key, or its default. *)
Definition read_file (item : value) (f : FileInfo) : Prop :=
  exists entry,
    item = VDict entry
    /\ read_date entry "creationDate" (creation_date f)
    /\ read_date entry "modificationDate" (modification_date f)
    /\ path f = default (VStr EmptyString) (entries_get "path" entry)
    /\ fi_name f = default (VStr EmptyString) (entries_get "name" entry)
    /\ size f = default (VInt 0) (entries_get "size" entry)
    /\ fi_file_type f = default (VStr EmptyString) (entries_get "fileType" entry).

(** [MacosSDK.search_files] *)
Definition search_files (options : FileSearchOptions) : M FileSearchResult := fun st =>
  let '(r, st) := _run_tool_async "FileSearchTool" (search_args options) true st in
  let body :=
    bind r (fun result =>
    bind (_parse_json_response (stdout result) "file search") (fun json_data =>
    bind (get json_data "files" (VList [])) (fun files_json =>
    bind (iterate files_json) (fun items =>
    bind (parse_files items) (fun files =>
    bind (get json_data "totalCount" (VInt (Z.of_nat (length files)))) (fun total_count =>
    bind (get json_data "executionTime" (VStr "0.000")) (fun execution_time =>
      Ok (mkFileSearchResult files total_count execution_time)))))))) in
  match body with
  | Ok a => (Ok a, st)
  | Raise e =>
      if is_sdk_error e
      then (Raise (mkExc FileSearchError
                     ("File search failed: " ++ exc_str e)%string), st)
      else (Raise e, st)
  end.

End WithCalendar.

Arguments mkFileSearchOptions {datetime}.
Arguments file_name {datetime}.
Arguments file_type {datetime}.
Arguments start_date {datetime}.
Arguments end_date {datetime}.
Arguments search_locations {datetime}.
Arguments max_results {datetime}.
Arguments FileSearchOptions_init {datetime}.
Arguments mkFileInfo {datetime}.
Arguments path {datetime}.
Arguments fi_name {datetime}.
Arguments size {datetime}.
Arguments creation_date {datetime}.
Arguments modification_date {datetime}.
Arguments fi_file_type {datetime}.
Arguments mkFileSearchResult {datetime}.
Arguments files {datetime}.
Arguments total_count {datetime}.
Arguments execution_time {datetime}.
Arguments date_flag {datetime}.
Arguments search_args {datetime}.
Arguments parse_date {datetime}.
Arguments parse_file {datetime}.
Arguments parse_files {datetime}.
Arguments read_date {datetime}.
Arguments read_file {datetime}.
Arguments search_files {P datetime}.

End Search.

(** ** Data for concrete runs *)

Module Samples.
Import Py Types Core.

(** An element that carries an identity key. *)
Definition keyed (key role : string) : ElementData :=
  mkElementData (VStr role) VNone VNone VNone VNone VNone (Some key).

Definition no_statistics : Statistics :=
  mkStatistics (VInt 0) (VInt 0) (VInt 0) (VInt 0) (VInt 0) (VInt 0) (VInt 0)
    (VDict []) (VInt 0).

Definition snapshot (elems : list ElementData) : ResponseData :=
  mkResponseData (VStr "Notes") elems no_statistics (VStr "0.010") (VBool false) None.

(** One line of text, with the line feed that ends it. *)
Definition line (s : string) : string := (s ++ String "010" EmptyString)%string.

(** A platform on which no tool has been built, in a directory whose path
    has the word "Accessibility" in it. *)
Definition unbuilt : Platform := {|
  World := unit;
  swift_build_path := "/Users/me/Accessibility/.build/debug";
  os_path_join := fun dir name => (dir ++ "/" ++ name)%string;
  os_path_exists := fun _ _ => false;
  subprocess_run := fun _ w => (Raise (mkExc OSError "[Errno 2] No such file"), w);
  json_loads := fun _ => inl "Expecting value: line 1 column 1 (char 0)"%string;
  float_of_str := fun _ => None;
  str_of_float := fun _ => "0.5"%string;
  find_running_app_pid := fun _ w => (None, w);
  asyncio_sleep := fun _ w => w
|}.

(** Two documents of the file search tool: two files, the first with a
    creation date, and one file whose creation date is no date. *)
Definition two_files_json : string :=
  ("{" ++ Scripted.quoted "files" ++ ": [{" ++ Scripted.quoted "path" ++ ": "
     ++ Scripted.quoted "/tmp/a.pdf" ++ ", " ++ Scripted.quoted "creationDate" ++ ": "
     ++ Scripted.quoted "2024-01-02T03:04:05Z" ++ "}, {" ++ Scripted.quoted "path"
     ++ ": " ++ Scripted.quoted "/tmp/b.pdf" ++ "}]}")%string.

Definition two_files : list (string * value) :=
  [("files"%string,
    VList [VDict [("path"%string, VStr "/tmp/a.pdf");
                  ("creationDate"%string, VStr "2024-01-02T03:04:05Z")];
           VDict [("path"%string, VStr "/tmp/b.pdf")]])].

Definition bad_date_json : string :=
  ("{" ++ Scripted.quoted "files" ++ ": [{" ++ Scripted.quoted "creationDate" ++ ": "
     ++ Scripted.quoted "yesterday" ++ "}]}")%string.

Definition bad_date : value :=
  VDict [("files"%string, VList [VDict [("creationDate"%string, VStr "yesterday")]])].

Definition decode (s : string) : string + value :=
  if String.eqb s two_files_json then inr (VDict two_files)
  else if String.eqb s bad_date_json then inr bad_date
  else Scripted.decode s.

(** The scripted platform, with a decoder that knows these documents
    too. *)
Definition searching : Platform := {|
  World := list (result CompletedProcess);
  swift_build_path := ".build/debug";
  os_path_join := fun dir name => (dir ++ "/" ++ name)%string;
  os_path_exists := fun _ _ => true;
  subprocess_run := Scripted.run_script;
  json_loads := decode;
  float_of_str := fun s => if String.eqb s "0.5" then Some float_half else None;
  str_of_float := fun _ => "0.5"%string;
  find_running_app_pid := fun _ w => (None, w);
  asyncio_sleep := fun _ w => w
|}.

Definition search_start (script : list (result CompletedProcess)) : @State searching :=
  @mkState searching script [] ∅.

(** Dates kept as their ISO text, of 25 characters. *)
Definition fromisoformat (s : string) : string + string :=
  if (String.length s =? 25)%nat then inr s
  else inl ("Invalid isoformat string: '" ++ s ++ "'")%string.

(** The superscript two, a digit that is not a decimal. *)
Definition superscript_two : string := String (ascii_of_N 178) EmptyString.

(** A text of [n] ones. *)
Definition ones (n : nat) : string := string_of_list_ascii (replicate n "1"%char).

End Samples.

(** * Properties *)

Import Py Types Core.

(** ** Option validation *)

Section Validation.
Implicit Types (h : Store) (self r : ref) (o : ActionOptions).

Lemma deref_lookup h r o : h !! r = Some o -> deref r h = o.
Proof. intros H. unfold deref. by rewrite lookup_total_alt, H. Qed.

Lemma fresh_ref_unused h : h !! fresh (dom h) = None.
Proof. apply not_elem_of_dom, is_fresh. Qed.

(** [validated] allocates one instance and touches nothing else; the new
    instance copies the receiver, with both traversals switched on when
    the diff is requested. *)
Lemma validated_unfold h self o :
  h !! self = Some o ->
  validated self h
  = (fresh (dom h),
     <[fresh (dom h) :=
         mkActionOptions
           (if show_diff o then true else traverse_before o)
           (if show_diff o then true else traverse_after o)
           (show_diff o) (only_visible_elements o) (show_animation o)
           (animation_duration o) (pid_for_traversal o)
           (delay_after_action o)]> h).
Proof.
  intros Hself. unfold validated, ActionOptions_new.
  rewrite (deref_lookup _ _ _ Hself).
  set (r := fresh (dom h)).
  unfold set_traverse_after, set_traverse_before, deref.
  rewrite lookup_total_insert_eq. simpl.
  destruct o as [tb ta sd ov sa ad pt da]; simpl.
  destruct sd; simpl; [| done].
  rewrite !lookup_total_insert_eq. simpl.
  by rewrite !insert_insert_eq.
Qed.

(** C10: [validated] does not mutate its receiver.  The reference it
    returns denotes an instance that did not exist before the call, so it
    is not the receiver; after the call the receiver holds exactly the
    fields it held before, whatever [show_diff] is, and so does every
    other instance that existed. *)
Theorem validated_leaves_receiver h self o :
  h !! self = Some o ->
  exists options h',
    validated self h = (options, h')
    /\ h !! options = None
    /\ options <> self
    /\ is_Some (h' !! options)
    /\ h' !! self = Some o
    /\ forall r, r <> options -> h' !! r = h !! r.
Proof.
  intros Hself. eexists _, _. split; [by apply validated_unfold |].
  pose proof (fresh_ref_unused h) as Hfresh.
  assert (fresh (dom h) <> self) as Hne by congruence.
  repeat split.
  - done.
  - done.
  - rewrite lookup_insert_eq. by eexists.
  - by rewrite lookup_insert_ne.
  - intros r Hr. by rewrite lookup_insert_ne.
Qed.

Lemma validated_leaves_receiver_witness :
  let h : Store := {[ 1%positive := mkActionOptions false false true false true
                                      float_half None float_quarter ]} in
  exists options h',
    validated 1%positive h = (options, h')
    /\ h !! options = None
    /\ options <> 1%positive
    /\ is_Some (h' !! options)
    /\ h' !! 1%positive
       = Some (mkActionOptions false false true false true
                 float_half None float_quarter)
    /\ forall r, r <> options -> h' !! r = h !! r.
Proof.
  intros h.
  apply (validated_leaves_receiver h 1%positive). reflexivity.
Defined.

Context {P : Platform}.

(** C5: the options that [perform_action] works with are the validated
    ones, and in them a requested diff switches both traversals on,
    whatever the caller set them to.  Every other field is the caller's;
    without a requested diff the two traversal fields are the caller's
    too. *)
Theorem validated_diff_forces_traversals h self o :
  h !! self = Some o ->
  exists options h' v,
    validated self h = (options, h')
    /\ h' !! options = Some v
    /\ (forall action st, store st = h ->
          perform_action action (Some self) st
          = run_stages action options (mkState (world st) (log st) h'))
    /\ (show_diff o = true ->
          traverse_before v = true /\ traverse_after v = true)
    /\ (show_diff o = false ->
          traverse_before v = traverse_before o
          /\ traverse_after v = traverse_after o)
    /\ show_diff v = show_diff o
    /\ only_visible_elements v = only_visible_elements o
    /\ show_animation v = show_animation o
    /\ animation_duration v = animation_duration o
    /\ pid_for_traversal v = pid_for_traversal o
    /\ delay_after_action v = delay_after_action o.
Proof.
  intros Hself. eexists _, _, _.
  split; [by apply validated_unfold |].
  split; [apply lookup_insert_eq |].
  split.
  { intros action st <-. unfold perform_action, validate_options.
    by rewrite (validated_unfold _ _ _ Hself). }
  simpl. repeat split; try done;
    match goal with H : show_diff o = _ |- _ => by rewrite H end.
Qed.

(** Without options [perform_action] validates a default instance. *)
Lemma perform_action_default_options action st :
  perform_action action None st
  = run_stages action (fresh (dom (<[fresh (dom (store st)) := ActionOptions_default]> (store st))))
      (mkState (world st) (log st)
         (<[fresh (dom (<[fresh (dom (store st)) := ActionOptions_default]> (store st)))
              := ActionOptions_default]>
            (<[fresh (dom (store st)) := ActionOptions_default]> (store st)))).
Proof.
  unfold perform_action, validate_options, ActionOptions_new.
  by rewrite (validated_unfold _ _ ActionOptions_default (lookup_insert_eq _ _ _)).
Qed.

End Validation.

Lemma validated_diff_forces_traversals_witness :
  let o := mkActionOptions false false true false true float_half None float_quarter in
  let h : Store := {[ 1%positive := o ]} in
  exists options h' v,
    validated 1%positive h = (options, h')
    /\ h' !! options = Some v
    /\ (forall action st, store st = h ->
          @perform_action Scripted.platform action (Some 1%positive) st
          = run_stages action options (mkState (world st) (log st) h'))
    /\ (show_diff o = true ->
          traverse_before v = true /\ traverse_after v = true)
    /\ (show_diff o = false ->
          traverse_before v = traverse_before o
          /\ traverse_after v = traverse_after o)
    /\ show_diff v = show_diff o
    /\ only_visible_elements v = only_visible_elements o
    /\ show_animation v = show_animation o
    /\ animation_duration v = animation_duration o
    /\ pid_for_traversal v = pid_for_traversal o
    /\ delay_after_action v = delay_after_action o.
Proof.
  intros o h.
  apply (@validated_diff_forces_traversals Scripted.platform h 1%positive o).
  reflexivity.
Defined.

(** ** The snapshot differ *)

Section Differ.
Implicit Types (d other : ElementDict) (e elem : ElementData) (k key : string).

Lemma own_keys_empty : own_keys [].
Proof. constructor. Qed.

Lemma dict_contains_In key d : dict_contains key d = true <-> In key (map fst d).
Proof.
  unfold dict_contains. rewrite existsb_exists, in_map_iff. split.
  - intros [kv [Hin Heq]]. apply String.eqb_eq in Heq. eauto.
  - intros [kv [Heq Hin]]. exists kv. split; [done |]. by apply String.eqb_eq.
Qed.

Lemma dict_set_keys key elem d k :
  In k (map fst (dict_set key elem d)) <-> k = key \/ In k (map fst d).
Proof.
  induction d as [| [k0 v0] d IH]; simpl.
  - intuition.
  - destruct (String.eqb_spec k0 key) as [-> | Hne]; simpl.
    + intuition.
    + rewrite IH. intuition.
Qed.

Lemma dict_set_own_keys key elem d :
  ax_element elem = Some key -> own_keys d -> own_keys (dict_set key elem d).
Proof.
  intros Hk. unfold own_keys. induction 1 as [| [k0 v0] d Hkv Hd IH]; simpl.
  - by repeat constructor.
  - destruct (String.eqb_spec k0 key) as [-> | Hne]; constructor; auto.
Qed.

(** The comprehension succeeds exactly on elements that all carry the
    attribute. *)
Lemma index_by_ax_element_keyed elems d :
  Forall (fun e => is_Some (ax_element e)) elems ->
  exists d', index_by_ax_element elems d = Ok d'.
Proof.
  intros H. revert d. induction H as [| e elems [k Hk] _ IH]; intros d; simpl.
  - by eexists.
  - unfold getattr_ax_element. rewrite Hk. simpl. apply IH.
Qed.

Lemma index_by_ax_element_unkeyed elems d :
  Exists (fun e => ax_element e = None) elems ->
  index_by_ax_element elems d
  = Raise (mkExc AttributeError
             "'ElementData' object has no attribute 'ax_element'").
Proof.
  intros H. revert d. induction H as [e elems Hk | e elems _ IH]; intros d; simpl.
  - unfold getattr_ax_element. by rewrite Hk.
  - unfold getattr_ax_element. destruct (ax_element e); simpl; [apply IH | done].
Qed.

Lemma index_by_ax_element_keys elems d d' :
  index_by_ax_element elems d = Ok d' ->
  own_keys d ->
  own_keys d'
  /\ forall k, In k (map fst d')
       <-> In k (map fst d) \/ exists e, In e elems /\ ax_element e = Some k.
Proof.
  revert d. induction elems as [| e elems IH]; intros d; simpl.
  - intros [= <-] Hd. split; [done |]. intros k. split; [auto |].
    intros [H | [e [[] _]]]; done.
  - unfold getattr_ax_element. destruct (ax_element e) as [key |] eqn:Hkey; [| done].
    simpl. intros Hidx Hd.
    destruct (IH _ Hidx (dict_set_own_keys _ _ _ Hkey Hd)) as [Hown Hkeys].
    split; [done |]. intros k. rewrite Hkeys, dict_set_keys. split.
    + intros [[-> | H] | [e' [Hin He']]]; eauto 6.
    + intros [H | [e' [[<- | Hin] He']]]; eauto 6.
      left. left. congruence.
Qed.

Lemma elements_not_in_In e d other :
  In e (elements_not_in d other)
  <-> exists k, In (k, e) d /\ ~ In k (map fst other).
Proof.
  unfold elements_not_in. rewrite in_map_iff. split.
  - intros [[k e'] [<- Hin]]. apply filter_In in Hin as [Hin Hnot].
    exists k. split; [done |]. simpl in Hnot.
    rewrite <- dict_contains_In. by destruct (dict_contains k other).
  - intros [k [Hin Hnot]]. exists (k, e). split; [done |].
    apply filter_In. split; [done |]. simpl.
    rewrite <- dict_contains_In in Hnot. by destruct (dict_contains k other).
Qed.

Lemma elements_not_in_covered d other :
  (forall k, In k (map fst d) -> In k (map fst other)) ->
  elements_not_in d other = [].
Proof.
  intros Hsub. destruct (elements_not_in d other) as [| e l] eqn:Heq; [done |].
  assert (In e (elements_not_in d other)) as Hin by (rewrite Heq; by left).
  apply elements_not_in_In in Hin as [k [Hin Hnot]].
  destruct Hnot. apply Hsub. apply in_map_iff. by exists (k, e).
Qed.

(** On snapshots whose elements all carry an identity key the differ
    returns a diff, and no key is both added and removed. *)
Lemma diff_keyed_disjoint (before after : ResponseData) :
  Forall (fun e => is_Some (ax_element e)) (elements before) ->
  Forall (fun e => is_Some (ax_element e)) (elements after) ->
  exists diff,
    _generate_traversal_diff before after = Ok diff
    /\ forall a r, In a (added_elements diff) -> In r (removed_elements diff) ->
         is_Some (ax_element a) /\ ax_element a <> ax_element r.
Proof.
  intros Hb Ha. unfold _generate_traversal_diff.
  destruct (index_by_ax_element_keyed _ [] Hb) as [db Hdb].
  destruct (index_by_ax_element_keyed _ [] Ha) as [da Hda].
  rewrite Hdb, Hda. simpl. eexists. split; [done |]. simpl.
  destruct (index_by_ax_element_keys _ _ _ Hdb own_keys_empty) as [Hownb Hkb].
  destruct (index_by_ax_element_keys _ _ _ Hda own_keys_empty) as [Howna Hka].
  intros a r Hadd Hrem.
  apply elements_not_in_In in Hadd as [ka [Hina Hnota]].
  apply elements_not_in_In in Hrem as [kr [Hinr Hnotr]].
  unfold own_keys in *. rewrite List.Forall_forall in Howna, Hownb.
  pose proof (Howna _ Hina) as Hka'. pose proof (Hownb _ Hinr) as Hkr'.
  simpl in *. rewrite Hka', Hkr'. split; [by eexists |].
  intros [= ->]. apply Hnota. apply in_map_iff. by exists (kr, r).
Qed.

(** Diffing a keyed snapshot against one with the same elements in any
    order finds nothing added and nothing removed. *)
Lemma diff_keyed_same_elements (before after : ResponseData) :
  Forall (fun e => is_Some (ax_element e)) (elements before) ->
  (forall e, In e (elements after) <-> In e (elements before)) ->
  exists diff,
    _generate_traversal_diff before after = Ok diff
    /\ added_elements diff = [] /\ removed_elements diff = [].
Proof.
  intros Hb Hsame.
  assert (Forall (fun e => is_Some (ax_element e)) (elements after)) as Ha.
  { rewrite List.Forall_forall in *. intros e He. apply Hb. by apply Hsame. }
  unfold _generate_traversal_diff.
  destruct (index_by_ax_element_keyed _ [] Hb) as [db Hdb].
  destruct (index_by_ax_element_keyed _ [] Ha) as [da Hda].
  rewrite Hdb, Hda. simpl. eexists. split; [done |]. simpl.
  destruct (index_by_ax_element_keys _ _ _ Hdb own_keys_empty) as [_ Hkb].
  destruct (index_by_ax_element_keys _ _ _ Hda own_keys_empty) as [_ Hka].
  split; apply elements_not_in_covered; intros k; rewrite Hkb, Hka;
    intros [[] | [e [Hin He]]]; right; exists e; split; try done;
    by apply Hsame.
Qed.

(** Every [bind] on the way to an [Ok] had an [Ok] argument. *)
Ltac invert_binds H :=
  repeat match type of H with
         | bind ?r _ = Ok _ => destruct r eqn:?; simpl in H; [| discriminate]
         end.

Lemma index_by_ax_element_raises elems d exc :
  index_by_ax_element elems d = Raise exc ->
  exc = mkExc AttributeError "'ElementData' object has no attribute 'ax_element'".
Proof.
  revert d. induction elems as [| e elems IH]; intros d; simpl; [done |].
  unfold getattr_ax_element. destruct (ax_element e); simpl.
  - apply IH.
  - by intros [= <-].
Qed.

(** The element loop of the parser only calls the constructor, so no parsed
    element carries the attribute that the differ reads. *)
Lemma parse_elements_no_key items es :
  parse_elements items = Ok es -> Forall (fun e => ax_element e = None) es.
Proof.
  revert es. induction items as [| item items IH]; intros es; simpl.
  - intros [= <-]. constructor.
  - destruct (parse_element item) as [e |] eqn:He; simpl; [| done].
    destruct (parse_elements items) as [es' |]; simpl; [| done].
    intros [= <-]. constructor; [| by apply IH].
    unfold parse_element in He. invert_binds He.
    by injection He as <-.
Qed.

Lemma _parse_response_data_no_key json_data data :
  _parse_response_data json_data = Ok data ->
  Forall (fun e => ax_element e = None) (elements data).
Proof.
  unfold _parse_response_data. intros H. invert_binds H.
  injection H as <-. simpl. by eapply parse_elements_no_key.
Qed.

(** C9: two snapshots without elements give a diff with nothing added,
    removed or modified, carrying the statistics of the two snapshots. *)
Theorem diff_of_empty_snapshots (before after : ResponseData) :
  elements before = [] ->
  elements after = [] ->
  _generate_traversal_diff before after
  = Ok (mkTraversalDiff [] [] [] (Some (stats before)) (Some (stats after))).
Proof.
  intros Hb Ha. unfold _generate_traversal_diff. by rewrite Hb, Ha.
Qed.

(** C3: with a before snapshot holding key e1 and an after snapshot holding
    keys e1 and e2, the element of key e2 is added and nothing is removed;
    with keys e1, e2 before and only e2 after, nothing is added and the
    element of key e1 is removed. *)
Theorem diff_added_and_removed_examples (before after : ResponseData)
    (b1 b2 a1 a2 : ElementData) :
  ax_element b1 = Some "e1"%string ->
  ax_element b2 = Some "e2"%string ->
  ax_element a1 = Some "e1"%string ->
  ax_element a2 = Some "e2"%string ->
  (elements before = [b1] -> elements after = [a1; a2] ->
   exists diff,
     _generate_traversal_diff before after = Ok diff
     /\ added_elements diff = [a2] /\ removed_elements diff = [])
  /\ (elements before = [b1; b2] -> elements after = [a2] ->
      exists diff,
        _generate_traversal_diff before after = Ok diff
        /\ added_elements diff = [] /\ removed_elements diff = [b1]).
Proof.
  intros Hb1 Hb2 Ha1 Ha2.
  split; intros Hb Ha; unfold _generate_traversal_diff; rewrite Hb, Ha; simpl;
    unfold getattr_ax_element; rewrite ?Hb1, ?Hb2, ?Ha1, ?Ha2; simpl;
    eexists; (split; [reflexivity |]); by split.
Qed.

(** C1, on the code as it is: a snapshot that the parser returned with at
    least one element cannot be diffed against itself.  Reading the
    identity key of its first element raises, so no diff is produced. *)
Theorem diff_of_parsed_snapshot_with_itself_raises (json_data : value)
    (snapshot : ResponseData) :
  _parse_response_data json_data = Ok snapshot ->
  elements snapshot <> [] ->
  _generate_traversal_diff snapshot snapshot
  = Raise (mkExc AttributeError
             "'ElementData' object has no attribute 'ax_element'").
Proof.
  intros Hparse Hne. apply _parse_response_data_no_key in Hparse.
  unfold _generate_traversal_diff.
  rewrite index_by_ax_element_unkeyed; [done |].
  destruct (elements snapshot) as [| e es]; [done |].
  apply Exists_cons_hd. by inversion Hparse.
Qed.

(** C2, on the code as it is: an element without the identity key, in
    either snapshot, makes the differ raise [AttributeError]. *)
Theorem diff_raises_on_absent_key (before after : ResponseData) :
  Exists (fun e => ax_element e = None) (elements before ++ elements after) ->
  _generate_traversal_diff before after
  = Raise (mkExc AttributeError
             "'ElementData' object has no attribute 'ax_element'").
Proof.
  intros H. apply Exists_app in H. unfold _generate_traversal_diff.
  destruct (index_by_ax_element (elements before) []) as [db | exc] eqn:Hb; simpl.
  - destruct H as [H | H].
    + by rewrite (index_by_ax_element_unkeyed _ [] H) in Hb.
    + by rewrite (index_by_ax_element_unkeyed _ [] H).
  - by rewrite (index_by_ax_element_raises _ _ _ Hb).
Qed.

End Differ.

(** The empty traversal document and the one-button document, parsed. *)
Lemma diff_of_empty_snapshots_witness :
  exists before,
    _parse_response_data (VDict []) = Ok before
    /\ elements before = []
    /\ _generate_traversal_diff before before
       = Ok (mkTraversalDiff [] [] [] (Some (stats before)) (Some (stats before))).
Proof.
  eexists. split; [reflexivity |]. split; [reflexivity |].
  apply diff_of_empty_snapshots; reflexivity.
Defined.

Lemma diff_added_and_removed_examples_witness :
  let elem key := mkElementData (VStr "AXButton") VNone VNone VNone VNone VNone
                    (Some key) in
  let snapshot elems :=
    mkResponseData (VStr "Calculator") elems
      (mkStatistics (VInt 0) (VInt 0) (VInt 0) (VInt 0) (VInt 0) (VInt 0)
         (VInt 0) (VDict []) (VInt 0))
      (VStr "0.000") (VBool false) None in
  (exists diff,
     _generate_traversal_diff (snapshot [elem "e1"]) (snapshot [elem "e1"; elem "e2"])
     = Ok diff
     /\ added_elements diff = [elem "e2"] /\ removed_elements diff = [])%string
  /\ (exists diff,
        _generate_traversal_diff (snapshot [elem "e1"; elem "e2"]) (snapshot [elem "e2"])
        = Ok diff
        /\ added_elements diff = [] /\ removed_elements diff = [elem "e1"])%string.
Proof.
  intros elem snapshot. split.
  - apply (proj1 (diff_added_and_removed_examples
                    (snapshot [elem "e1"]) (snapshot [elem "e1"; elem "e2"])
                    (elem "e1") (elem "e2") (elem "e1") (elem "e2")
                    eq_refl eq_refl eq_refl eq_refl)%string); reflexivity.
  - apply (proj2 (diff_added_and_removed_examples
                    (snapshot [elem "e1"; elem "e2"]) (snapshot [elem "e2"])
                    (elem "e1") (elem "e2") (elem "e1") (elem "e2")
                    eq_refl eq_refl eq_refl eq_refl)%string); reflexivity.
Defined.

Lemma diff_of_parsed_snapshot_with_itself_raises_witness :
  exists snapshot,
    _parse_response_data Scripted.one_button = Ok snapshot
    /\ elements snapshot <> []
    /\ _generate_traversal_diff snapshot snapshot
       = Raise (mkExc AttributeError
                  "'ElementData' object has no attribute 'ax_element'").
Proof.
  eexists. split; [reflexivity |]. split; [discriminate |].
  apply (diff_of_parsed_snapshot_with_itself_raises Scripted.one_button);
    [reflexivity | discriminate].
Defined.

Lemma diff_raises_on_absent_key_witness :
  let button := ElementData_init (VStr "AXButton") VNone VNone VNone VNone VNone in
  let snapshot elems :=
    mkResponseData (VStr "Calculator") elems
      (mkStatistics (VInt 1) (VInt 0) (VInt 0) (VInt 0) (VInt 0) (VInt 1)
         (VInt 1) (VDict []) (VInt 0))
      (VStr "0.012") (VBool false) None in
  _generate_traversal_diff (snapshot []) (snapshot [button])
  = Raise (mkExc AttributeError
             "'ElementData' object has no attribute 'ax_element'").
Proof.
  intros button snapshot.
  apply (diff_raises_on_absent_key (snapshot []) (snapshot [button])).
  apply Exists_cons_hd. reflexivity.
Defined.

(** ** The traversal parser *)

Section Parser.
Implicit Types (entries : list (string * value)) (items : list value).

Lemma parse_statistics_object entries :
  exists statistics, parse_statistics (VDict entries) = Ok statistics.
Proof. by eexists. Qed.

Lemma parse_elements_objects items :
  forallb is_object items = true ->
  exists es, parse_elements items = Ok es /\ length es = length items.
Proof.
  induction items as [| item items IH]; simpl.
  - by eexists.
  - intros [Hitem Hitems]%andb_prop.
    destruct item; try discriminate.
    destruct (IH Hitems) as [es [-> Hlen]]. simpl.
    eexists. split; [reflexivity |]. simpl. by rewrite Hlen.
Qed.

Lemma parse_browser_elements_objects items :
  forallb is_object items = true ->
  exists es, parse_browser_elements items = Ok es.
Proof.
  induction items as [| item items IH]; simpl.
  - by eexists.
  - intros [Hitem Hitems]%andb_prop.
    destruct item; try discriminate.
    destruct (IH Hitems) as [es ->]. simpl. by eexists.
Qed.

Lemma parse_browser_data_shape browser_json :
  is_browser_data browser_json = true ->
  exists browser_data, parse_browser_data browser_json = Ok browser_data.
Proof.
  unfold parse_browser_data.
  destruct browser_json as [| | | | | | entries]; simpl; try discriminate.
  - by eexists.
  - intros Hshape. destruct entries as [| entry entries']; [by eexists |].
    set (all := entry :: entries') in *. unfold absent_or in Hshape.
    unfold get. destruct (entries_get "elements" all) as [v |]; simpl.
    + destruct v as [| | | | | items |]; simpl in Hshape; try discriminate.
      simpl. destruct (parse_browser_elements_objects _ Hshape) as [es ->].
      simpl. by eexists.
    + by eexists.
Qed.

(** C4: a traversal document whose "elements" array is empty parses to a
    snapshot without elements, and a traversal document without "stats"
    parses to a snapshot whose statistics are all zero, with no role
    counts.  Neither parse fails. *)
Theorem parse_empty_elements_and_missing_stats entries :
  absent_or is_browser_data "browser_data" entries = true ->
  (entries_get "elements" entries = Some (VList []) ->
   absent_or is_object "stats" entries = true ->
   exists data,
     _parse_response_data (VDict entries) = Ok data /\ elements data = [])
  /\ (entries_get "stats" entries = None ->
      absent_or is_array_of_objects "elements" entries = true ->
      exists data,
        _parse_response_data (VDict entries) = Ok data
        /\ stats data
           = mkStatistics (VInt 0) (VInt 0) (VInt 0) (VInt 0) (VInt 0) (VInt 0)
               (VInt 0) (VDict []) (VInt 0)).
Proof.
  intros Hbrowser.
  assert (exists browser_data,
             parse_browser_data (default VNone (entries_get "browser_data" entries))
             = Ok browser_data) as [browser_data Hbd].
  { apply parse_browser_data_shape. unfold absent_or in Hbrowser.
    by destruct (entries_get "browser_data" entries). }
  unfold _parse_response_data, get. simpl. split.
  - intros Helems Hstats. unfold absent_or in Hstats. rewrite Helems. simpl.
    destruct (entries_get "stats" entries) as [stats_data |]; simpl.
    + destruct stats_data; try discriminate.
      destruct (parse_statistics_object entries0) as [statistics ->]. simpl.
      rewrite Hbd. simpl. by eexists.
    + rewrite Hbd. simpl. by eexists.
  - intros Hstats Helems. unfold absent_or in Helems. rewrite Hstats. simpl.
    destruct (entries_get "elements" entries) as [elements_json |]; simpl.
    + destruct elements_json as [| | | | | items |]; try discriminate.
      simpl in *. destruct (parse_elements_objects _ Helems) as [es [-> _]].
      simpl. rewrite Hbd. simpl. by eexists.
    + rewrite Hbd. simpl. by eexists.
Qed.

End Parser.

(** Outside that shape the parser raises: a null "stats" has no [get], and
    a number under "elements" cannot be iterated. *)
Example parse_other_shapes_raise :
  _parse_response_data
    (VDict [("elements"%string, VList []); ("stats"%string, VNone)])
  = Raise (mkExc AttributeError "'NoneType' object has no attribute 'get'")
  /\ _parse_response_data (VDict [("elements"%string, VInt 3)])
     = Raise (mkExc TypeError "'int' object is not iterable").
Proof. split; reflexivity. Qed.

Lemma parse_empty_elements_and_missing_stats_witness :
  let entries := [("app_name"%string, VStr "Calculator");
                  ("elements"%string, VList [])] in
  (exists data,
     _parse_response_data (VDict entries) = Ok data /\ elements data = [])
  /\ (exists data,
        _parse_response_data (VDict entries) = Ok data
        /\ stats data
           = mkStatistics (VInt 0) (VInt 0) (VInt 0) (VInt 0) (VInt 0) (VInt 0)
               (VInt 0) (VDict []) (VInt 0)).
Proof.
  intros entries.
  pose proof (parse_empty_elements_and_missing_stats entries eq_refl) as [H1 H2].
  split; [apply H1 | apply H2]; reflexivity.
Defined.

(** ** Text *)

Section Text.
Implicit Types (s t sub pre post : string) (c : ascii).
Local Open Scope string_scope.

Lemma append_nil_l s : EmptyString ++ s = s.
Proof. reflexivity. Qed.

Lemma append_cons c s t : String c s ++ t = String c (s ++ t).
Proof. reflexivity. Qed.

Lemma append_assoc s t u : (s ++ t) ++ u = s ++ (t ++ u).
Proof.
  induction s as [| c s IH]; [done |]. rewrite !append_cons. by f_equal.
Qed.

Lemma startswith_spec sub s :
  startswith sub s = true <-> exists post, s = sub ++ post.
Proof.
  revert s. induction sub as [| a sub IH]; intros s; simpl.
  - split; [by exists s | done].
  - destruct s as [| b s].
    + split; [done | by intros [post H]].
    + destruct (Ascii.eqb_spec a b) as [-> | Hne].
      * rewrite IH. split; intros [post H]; exists post;
          rewrite append_cons in *; congruence.
      * split; [done |]. intros [post H]. rewrite append_cons in H. congruence.
Qed.

(** [sub in s] holds exactly when [s] has [sub] somewhere inside. *)
Lemma contains_spec sub s :
  contains sub s = true <-> exists pre post, s = pre ++ sub ++ post.
Proof.
  induction s as [| c s IH].
  - simpl. rewrite orb_false_r, startswith_spec. split.
    + intros [post H]. by exists EmptyString, post.
    + intros [pre [post H]]. destruct pre; [by exists post | done].
  - simpl contains. rewrite orb_true_iff, IH, startswith_spec. split.
    + intros [[post H] | [pre [post H]]].
      * by exists EmptyString, post.
      * exists (String c pre), post. rewrite append_cons. by rewrite H.
    + intros [pre [post H]]. destruct pre as [| c' pre].
      * left. by exists post.
      * right. exists pre, post. rewrite append_cons in H. congruence.
Qed.

Lemma contains_inside sub s pre post :
  contains sub s = true -> contains sub (pre ++ s ++ post) = true.
Proof.
  rewrite !contains_spec. intros [pre' [post' ->]].
  exists (pre ++ pre'), (post' ++ post). by rewrite !append_assoc.
Qed.

Lemma contains_false_inside sub s pre post :
  contains sub (pre ++ s ++ post) = false -> contains sub s = false.
Proof.
  intros H. destruct (contains sub s) eqn:Hs; [| done].
  by rewrite (contains_inside _ _ pre post Hs) in H.
Qed.

Lemma lower_append s t : lower (s ++ t) = lower s ++ lower t.
Proof.
  induction s as [| c s IH]; [done |].
  rewrite append_cons. simpl. rewrite append_cons. by f_equal.
Qed.

(** A lower-case needle found in a text is found in the lowered text. *)
Lemma contains_lower sub s :
  lower sub = sub -> contains sub s = true -> contains sub (lower s) = true.
Proof.
  intros Hsub. rewrite !contains_spec. intros [pre [post ->]].
  exists (lower pre), (lower post). by rewrite !lower_append, Hsub.
Qed.

(** What [lstrip] and [rstrip] return is a part of their argument. *)
Lemma lstrip_suffix s : exists pre, s = pre ++ lstrip s.
Proof.
  induction s as [| c s [pre IH]]; simpl.
  - by exists EmptyString.
  - destruct (is_space c).
    + exists (String c pre). rewrite append_cons. by rewrite <- IH.
    + by exists EmptyString.
Qed.

Lemma rstrip_prefix s : exists post, s = rstrip s ++ post.
Proof.
  induction s as [| c s [post IH]]; simpl.
  - by exists EmptyString.
  - destruct (rstrip s) as [| c' r] eqn:Hr.
    + destruct (is_space c).
      * by exists (String c s).
      * exists s. done.
    + exists post. rewrite append_cons. by rewrite <- IH.
Qed.

Lemma strip_inside s : exists pre post, s = pre ++ strip s ++ post.
Proof.
  destruct (lstrip_suffix s) as [pre Hpre].
  destruct (rstrip_prefix (lstrip s)) as [post Hpost].
  exists pre, post. unfold strip. by rewrite <- Hpost.
Qed.

(** Stripping keeps everything from the first to the last character that
    is not white space. *)
Lemma lstrip_keeps pre c s :
  is_space c = false -> exists pre', lstrip (pre ++ String c s) = pre' ++ String c s.
Proof.
  intros Hc. induction pre as [| a pre IH].
  - rewrite append_nil_l. simpl. rewrite Hc. by exists EmptyString.
  - rewrite append_cons. simpl. destruct (is_space a); [done |].
    by exists (String a pre).
Qed.

Lemma rstrip_keeps pre c post :
  is_space c = false ->
  exists post', rstrip (pre ++ String c post) = pre ++ String c post'.
Proof.
  intros Hc. induction pre as [| a pre [post' IH]].
  - rewrite append_nil_l. simpl. destruct (rstrip post) as [| c' r].
    + rewrite Hc. by exists EmptyString.
    + by exists (String c' r).
  - rewrite append_cons. simpl. rewrite IH. exists post'.
    rewrite append_cons. by destruct pre.
Qed.

(** A needle that begins and ends with characters other than white space
    survives [strip]. *)
Lemma contains_strip sub first rest init final s :
  sub = String first rest ->
  sub = init ++ String final EmptyString ->
  is_space first = false ->
  is_space final = false ->
  contains sub s = true ->
  contains sub (strip s) = true.
Proof.
  intros Hfirst Hfinal Hsf Hsl. rewrite !contains_spec.
  intros [pre [post ->]]. unfold strip.
  rewrite Hfirst, append_cons.
  destruct (lstrip_keeps pre first (rest ++ post) Hsf) as [pre' ->].
  rewrite <- append_cons, <- Hfirst, Hfinal.
  rewrite append_assoc, append_cons, append_nil_l, <- append_assoc.
  destruct (rstrip_keeps (pre' ++ init) final post Hsl) as [post' ->].
  exists pre', post'.
  by rewrite !append_assoc, !append_cons, !append_nil_l.
Qed.

(** [split] never returns an empty list; its first piece begins the text
    and every piece is a part of the text. *)
Lemma split_char_pieces c s :
  exists first others,
    split_char c s = first :: others
    /\ (exists post, s = first ++ post)
    /\ forall piece, In piece others -> exists pre post, s = pre ++ piece ++ post.
Proof.
  induction s as [| a s (first & others & Hsplit & [post Hfirst] & Hothers)]; simpl.
  - exists EmptyString, []. split; [done |]. split; [by exists EmptyString |].
    by intros piece [].
  - rewrite Hsplit. destruct (Ascii.eqb a c).
    + exists EmptyString, (first :: others). split; [done |].
      split; [by exists (String a s) |].
      intros piece [<- | Hin].
      * exists (String a EmptyString), post.
        rewrite append_cons, append_nil_l. by f_equal.
      * destruct (Hothers _ Hin) as [pre [post' Hs]].
        exists (String a pre), post'. rewrite append_cons. by f_equal.
    + exists (String a first), others. split; [done |].
      split; [exists post; rewrite append_cons; by f_equal |].
      intros piece Hin. destruct (Hothers _ Hin) as [pre [post' Hs]].
      exists (String a pre), post'. rewrite append_cons. by f_equal.
Qed.

Lemma split_char_inside c s piece :
  In piece (split_char c s) -> exists pre post, s = pre ++ piece ++ post.
Proof.
  destruct (split_char_pieces c s) as (first & others & -> & [post Hfirst] & Hothers).
  intros [<- | Hin]; [| by apply Hothers].
  by exists EmptyString, post.
Qed.

(** A marker that the whole stderr text lacks is in none of its lines. *)
Lemma stderr_lines_without marker (result : CompletedProcess) :
  contains marker (stderr result) = false ->
  Forall (fun line => contains marker line = false) (stderr_lines result).
Proof.
  intros Hnone. apply List.Forall_forall. intros line Hin.
  apply split_char_inside in Hin as [pre [post Hline]].
  destruct (strip_inside (stderr result)) as [pre' [post' Hstrip]].
  apply (contains_false_inside _ _ pre post). rewrite <- Hline.
  apply (contains_false_inside _ _ pre' post'). by rewrite <- Hstrip.
Qed.

End Text.

(** ** Tool invocations *)

Section Tools.
Context {P : Platform}.
Implicit Types (st : State) (result : CompletedProcess).

(** A tool that exists and runs to completion. *)
Lemma _run_tool_completed tool_name args check st result w :
  os_path_exists (os_path_join swift_build_path tool_name) (world st) = true ->
  subprocess_run (os_path_join swift_build_path tool_name :: args) (world st)
  = (Ok result, w) ->
  _run_tool tool_name args check st
  = (if check && negb (returncode result =? 0)%Z
     then Raise (mkExc MacosUseSDKError
                   (tool_name +:+ " failed: " +:+ error_msg result))
     else Ok result,
     mkState w (log st ++ [ToolRun tool_name args]) (store st)).
Proof.
  intros Hexists Hrun. unfold _run_tool. rewrite Hexists, Hrun. simpl.
  by destruct (check && negb (returncode result =? 0)%Z).
Qed.

(** A tool run leaves the option instances alone and logs at most
    itself. *)
Lemma _run_tool_effects tool_name args check st r st' :
  _run_tool tool_name args check st = (r, st') ->
  store st' = store st
  /\ (log st' = log st \/ log st' = log st ++ [ToolRun tool_name args]).
Proof.
  unfold _run_tool.
  destruct (os_path_exists _ _); simpl; [| intros [= <- <-]; auto].
  destruct (subprocess_run _ _) as [[result | exc] w].
  - destruct (check && _); intros [= <- <-]; auto.
  - destruct (decide _); intros [= <- <-]; auto.
Qed.

Lemma contains_skip sub c s :
  startswith sub (String c s) = false ->
  contains sub (String c s) = contains sub s.
Proof. intros H. simpl contains. by rewrite H. Qed.

(** The tool name in front of the message never completes a keyword. *)
Lemma traversal_message_contains needle m :
  needle = "accessibility" \/ needle = "not found" ->
  contains needle (lower ("TraversalTool failed: " +:+ m))
  = contains needle (lower m).
Proof.
  intros [-> | ->]; rewrite lower_append;
    change (lower "TraversalTool failed: ") with "traversaltool failed: ";
    rewrite !append_cons, append_nil_l;
    by rewrite !contains_skip by reflexivity.
Qed.

Lemma open_message_contains m :
  contains "not found" (lower ("AppOpenerTool failed: " +:+ m))
  = contains "not found" (lower m).
Proof.
  rewrite lower_append.
  change (lower "AppOpenerTool failed: ") with "appopenertool failed: ".
  rewrite !append_cons, append_nil_l.
  by rewrite !contains_skip by reflexivity.
Qed.

(** A keyword in the captured stderr is still in the lowered message. *)
Lemma keyword_in_error_msg needle result :
  needle = "accessibility" \/ needle = "not found" ->
  contains needle (stderr result) = true ->
  contains needle (lower (error_msg result)) = true.
Proof.
  intros Hneedle Hin. unfold error_msg.
  destruct (String.eqb_spec (stderr result) EmptyString) as [Hempty | _]; simpl.
  - rewrite Hempty in Hin. by destruct Hneedle as [-> | ->].
  - destruct Hneedle as [-> | ->].
    + apply contains_lower; [done |].
      by apply (contains_strip _ "a" "ccessibility" "accessibilit" "y").
    + apply contains_lower; [done |].
      by apply (contains_strip _ "n" "ot found" "not foun" "d").
Qed.

(** *** Scraping stderr *)

Lemma scan_processing_time_no_marker lines init :
  Forall (fun line => contains "total execution time:" line = false) lines ->
  scan_processing_time lines init = init.
Proof.
  unfold scan_processing_time. induction 1 as [| line lines Hline _ IH]; simpl.
  - done.
  - by rewrite Hline.
Qed.

Lemma scan_success_message_no_marker lines init :
  Forall (fun line => contains "Success:" line = false) lines ->
  scan_success_message lines init = Ok init.
Proof.
  induction 1 as [| line lines Hline _ IH]; simpl; [done |]. by rewrite Hline.
Qed.

(** C8: after a successful tool call whose stderr lines all lack the
    marker, opening an application still succeeds with the timing text
    "0.000", and an output-controller action still succeeds with the empty
    message. *)
Theorem metadata_defaults_without_marker :
  (forall identifier st result st' p,
     _run_tool_async "AppOpenerTool" [identifier] true st = (Ok result, st') ->
     int_of_str (strip (stdout result)) = Ok p ->
     Forall (fun line => contains "total execution time:" line = false)
       (stderr_lines result) ->
     open_application identifier st
     = (Ok (mkAppOpenerResult p identifier "0.000"), st'))
  /\ (forall action value st result st',
        _run_tool_async "OutputControllerTool"
          (action_value action
             :: match value with Some v => [str_of_float v] | None => [] end)
          true st
        = (Ok result, st') ->
        Forall (fun line => contains "Success:" line = false)
          (stderr_lines result) ->
        _run_output_controller_action action value st
        = (Ok (mkOutputControllerResult
                 (if negb (String.eqb (strip (stdout result)) EmptyString)
                  then float_of_str (strip (stdout result)) else None)
                 EmptyString),
           st')).
Proof.
  split.
  - intros identifier st result st' p Hrun Hpid Hlines.
    unfold open_application. rewrite Hrun. simpl. rewrite Hpid. simpl.
    by rewrite scan_processing_time_no_marker.
  - intros action value st result st' Hrun Hlines.
    unfold _run_output_controller_action. rewrite Hrun. simpl.
    by rewrite scan_success_message_no_marker.
Qed.

(** *** Failures of a tool that exits with a non-zero code *)

Lemma error_msg_text result :
  error_msg result
  = if String.eqb (stderr result) EmptyString
    then "Unknown error" else strip (stderr result).
Proof. unfold error_msg. by destruct (String.eqb (stderr result) EmptyString). Qed.


(** The input and output-controller tools wrap every failure of that sort
    in their own kind, whatever stderr says. *)
Lemma wrapped_nonzero_exit :
  (forall action args st result w,
     os_path_exists (os_path_join swift_build_path "InputControllerTool") (world st) = true ->
     subprocess_run (os_path_join swift_build_path "InputControllerTool" :: action :: args)
       (world st)
     = (Ok result, w) ->
     returncode result <> 0 ->
     fst (_run_input_action action args st)
     = Raise (mkExc InputSimulationError
                ("Input simulation failed: InputControllerTool failed: "
                   +:+ error_msg result)))
  /\ (forall action st result w,
        os_path_exists (os_path_join swift_build_path "OutputControllerTool") (world st) = true ->
        subprocess_run
          (os_path_join swift_build_path "OutputControllerTool" :: [action_value action])
          (world st)
        = (Ok result, w) ->
        returncode result <> 0 ->
        fst (_run_output_controller_action action None st)
        = Raise (mkExc OutputControllerError
                   ("Output controller operation failed: OutputControllerTool failed: "
                      +:+ error_msg result))).
Proof.
  split.
  - intros action args st result w Hexists Hrun Hcode.
    unfold _run_input_action, _run_tool_async.
    rewrite (_run_tool_completed _ _ true st result w Hexists Hrun).
    apply Z.eqb_neq in Hcode. by rewrite Hcode.
  - intros action st result w Hexists Hrun Hcode.
    unfold _run_output_controller_action, _run_tool_async.
    rewrite (_run_tool_completed _ _ true st result w Hexists Hrun).
    apply Z.eqb_neq in Hcode. by rewrite Hcode.
Qed.

End Tools.

(** With the markers present the texts after them are taken. *)
Example markers_present :
  scan_processing_time
    ["info: activating Calculator"%string;
     "info: total execution time: 1.234 seconds"%string] "0.000"
  = "1.234"%string
  /\ scan_success_message
       ["info: reading volume"%string; "Success: volume is 0.5 "%string;
        "Success: ignored"%string] EmptyString
     = Ok "volume is 0.5"%string.
Proof. split; reflexivity. Qed.

Lemma metadata_defaults_without_marker_witness :
  let opened :=
    Scripted.start
      [Ok (mkCompletedProcess 0 "4321" "info: activating Calculator")]
      ActionOptions_default in
  let measured :=
    Scripted.start
      [Ok (mkCompletedProcess 0 "0.5" "info: volume read")]
      ActionOptions_default in
  fst (open_application "Calculator" opened)
  = Ok (mkAppOpenerResult 4321 "Calculator" "0.000")
  /\ fst (_run_output_controller_action GET_VOLUME None measured)
     = Ok (mkOutputControllerResult (Some float_half) EmptyString).
Proof.
  intros opened measured.
  destruct (@metadata_defaults_without_marker Scripted.platform) as [Hopen Hout].
  split.
  - rewrite (Hopen "Calculator"%string opened
               (mkCompletedProcess 0 "4321" "info: activating Calculator")
               _ 4321 eq_refl eq_refl);
      [reflexivity | repeat constructor].
  - rewrite (Hout GET_VOLUME None measured
               (mkCompletedProcess 0 "0.5" "info: volume read") _ eq_refl);
      [reflexivity | repeat constructor].
Defined.



(** ** The coordinated action *)

Section Stages.
Context {P : Platform}.
Implicit Types (st : State) (o : ref) (h : Store) (exc : Exc).

Lemma open_application_effects identifier st r st' :
  open_application identifier st = (r, st') ->
  store st' = store st
  /\ exists events,
       log st' = log st ++ events
       /\ Forall (fun ev => ev = ToolRun "AppOpenerTool" [identifier]) events.
Proof.
  unfold open_application, _run_tool_async.
  destruct (_run_tool _ _ _ st) as [r0 st0] eqn:Hrun.
  apply _run_tool_effects in Hrun as [Hstore Hlog].
  intros Heq.
  assert (st' = st0) as ->.
  { destruct (bind r0 _) as [a | exc]; [by injection Heq |].
    destruct (is_sdk_error exc && _); by injection Heq. }
  split; [done |]. destruct Hlog as [-> | ->].
  - exists []. by rewrite app_nil_r.
  - eexists. split; [done |]. by repeat constructor.
Qed.

Lemma traverse_accessibility_tree_store target only_visible st r st' :
  traverse_accessibility_tree target only_visible st = (r, st') ->
  store st' = store st.
Proof.
  unfold traverse_accessibility_tree, _run_tool_async.
  destruct target as [p | identifier].
  - destruct (_run_tool _ _ _ st) as [r0 st0] eqn:Hrun.
    apply _run_tool_effects in Hrun as [Hstore _].
    intros Heq. assert (st' = st0) as ->; [| done].
    destruct (bind r0 _) as [a | exc]; [by injection Heq |].
    repeat case_match; by injection Heq.
  - destruct (find_running_app_pid identifier (world st)) as [[p |] w].
    + destruct (_run_tool _ _ _ _) as [r0 st0] eqn:Hrun.
      apply _run_tool_effects in Hrun as [Hstore _].
      intros Heq. assert (st' = st0) as ->; [| done].
      destruct (bind r0 _) as [a | exc]; [by injection Heq |].
      repeat case_match; by injection Heq.
    + by intros [= <- <-].
Qed.

Lemma delay_stage_store o st : store (delay_stage o st) = store st.
Proof. unfold delay_stage. by case_match. Qed.

Lemma _run_input_action_store action args st r st' :
  _run_input_action action args st = (r, st') -> store st' = store st.
Proof.
  unfold _run_input_action, _run_tool_async.
  destruct (_run_tool _ _ _ st) as [r0 st0] eqn:Hrun.
  apply _run_tool_effects in Hrun as [Hstore _].
  destruct r0 as [result | exc]; [by intros [= <- <-] |].
  by destruct (is_sdk_error exc); intros [= <- <-].
Qed.

Lemma _run_visual_input_action_store action args duration st r st' :
  _run_visual_input_action action args duration st = (r, st') ->
  store st' = store st.
Proof.
  unfold _run_visual_input_action, _run_tool_async.
  destruct (_run_tool _ _ _ st) as [r0 st0] eqn:Hrun.
  apply _run_tool_effects in Hrun as [Hstore _].
  destruct r0 as [result | exc]; [by intros [= <- <-] |].
  by destruct (is_sdk_error exc); intros [= <- <-].
Qed.

Lemma with_point_store point k st r st' :
  (forall px py st0 r0 st0', k px py st0 = (r0, st0') -> store st0' = store st0) ->
  with_point point k st = (r, st') -> store st' = store st.
Proof.
  intros Hk. unfold with_point.
  destruct (getitem point "x") as [px |]; [| by intros [= <- <-]].
  destruct (getitem point "y") as [py |]; [| by intros [= <- <-]].
  apply Hk.
Qed.

Lemma _execute_input_action_store action options st r st' :
  _execute_input_action action options st = (r, st') -> store st' = store st.
Proof.
  assert (forall name px py st0 r0 st0',
             (if show_animation options
              then pointer_action_visual name px py (animation_duration options)
              else pointer_action name px py) st0 = (r0, st0') ->
             store st0' = store st0) as Hpointer.
  { intros name px py st0 r0 st0'. destruct (show_animation options).
    - apply _run_visual_input_action_store.
    - apply _run_input_action_store. }
  destruct action; simpl;
    try (apply with_point_store; intros px py st0 r0 st0'; apply Hpointer);
    try apply _run_input_action_store.
  apply with_point_store. intros px py st0 r0 st0'.
  apply _run_input_action_store.
Qed.

(** No stage assigns to an options instance. *)
Lemma run_stages_store action o st r st' :
  run_stages action o st = (r, st') -> store st' = store st.
Proof.
  unfold run_stages, open_stage.
  assert (forall result st1 r1 st1',
             later_stages action o result st1 = (r1, st1') ->
             store st1' = store st1) as Hlater.
  { intros result st1 r1 st1'. unfold later_stages.
    destruct (before_stage o result st1) as [result2 st2] eqn:Hbefore.
    destruct (input_stage action o result2 st2) as [result3 st3] eqn:Hinput.
    destruct (after_stage o result3 (delay_stage o st3)) as [result4 st4] eqn:Hafter.
    intros Hdiff.
    assert (store st2 = store st1) as H2.
    { unfold before_stage in Hbefore. destruct (guarded _ _).
      - destruct (traverse_accessibility_tree _ _ st1) as [rt stt] eqn:Ht.
        apply traverse_accessibility_tree_store in Ht.
        by destruct rt; injection Hbefore as <- <-.
      - by injection Hbefore as <- <-. }
    assert (store st3 = store st2) as H3.
    { unfold input_stage in Hinput. destruct action; try by injection Hinput as <- <-.
      destruct (_execute_input_action _ _ st2) as [ri sti] eqn:Hi.
      apply _execute_input_action_store in Hi.
      by destruct ri; injection Hinput as <- <-. }
    assert (store st4 = store st3) as H4.
    { unfold after_stage in Hafter. destruct (guarded _ _).
      - destruct (traverse_accessibility_tree _ _ _) as [rt stt] eqn:Ht.
        apply traverse_accessibility_tree_store in Ht.
        rewrite delay_stage_store in Ht.
        by destruct rt; injection Hafter as <- <-.
      - injection Hafter as <- <-. apply delay_stage_store. }
    assert (st1' = st4) as ->; [| congruence].
    unfold diff_stage in Hdiff. repeat case_match; by injection Hdiff. }
  destruct action as [identifier | input_action |].
  - destruct (open_application identifier st) as [ro sto] eqn:Hopen.
    apply open_application_effects in Hopen as [Hstore _].
    destruct ro as [opened | exc].
    + intros Hl. apply Hlater in Hl. congruence.
    + by intros [= <- <-].
  - apply Hlater.
  - apply Hlater.
Qed.

(** The instance that the caller passed to [perform_action] holds the same
    fields when the call is over. *)
Lemma perform_action_keeps_caller_options action (self : ref)
    (fields : ActionOptions) st r st' :
  store st !! self = Some fields ->
  perform_action action (Some self) st = (r, st') ->
  store st' !! self = Some fields.
Proof.
  intros Hself. unfold perform_action, validate_options.
  rewrite (validated_unfold _ _ _ Hself).
  intros Hrun. apply run_stages_store in Hrun. rewrite Hrun. simpl.
  rewrite lookup_insert_ne; [done |].
  pose proof (fresh_ref_unused (store st)). congruence.
Qed.

(** Without a traversal pid neither traversal stage does anything. *)
Lemma guarded_without_pid flag result :
  traversal_pid result = None -> guarded flag result = None.
Proof. unfold guarded. by intros ->. Qed.



End Stages.


(** With the diff requested, opening an application whose window has one
    button: both traversals succeed, and the diff of the two parsed
    snapshots raises out of [perform_action]. *)
Example perform_action_diff_of_parsed_snapshots_raises :
  let options :=
    mkActionOptions false false true false true float_half None float_quarter in
  let script :=
    [Ok (mkCompletedProcess 0 "4321" EmptyString);
     Ok (mkCompletedProcess 0 Scripted.one_button_json EmptyString);
     Ok (mkCompletedProcess 0 Scripted.one_button_json EmptyString)] in
  fst (perform_action (PrimaryAction.Open "Calculator") (Some 1%positive)
         (Scripted.start script options))
  = Raise (mkExc AttributeError
             "'ElementData' object has no attribute 'ax_element'").
Proof. reflexivity. Qed.

(** * Further properties *)

Import Log.

(** ** The differ on keyed snapshots *)

Section KeyedDiff.
Implicit Types (d other : ElementDict) (e elem : ElementData) (k key : string).

Lemma dict_set_entries key elem d k e :
  In (k, e) (dict_set key elem d) -> (k, e) = (key, elem) \/ In (k, e) d.
Proof.
  induction d as [| [k0 v0] d IH]; simpl.
  - intros [[= <- <-] | []]. by left.
  - destruct (String.eqb_spec k0 key) as [-> | Hne]; simpl.
    + intros [[= <- <-] | Hin]; auto.
    + intros [[= <- <-] | Hin]; auto. destruct (IH Hin); auto.
Qed.

Lemma dict_set_NoDup key elem d :
  NoDup (map fst d) -> NoDup (map fst (dict_set key elem d)).
Proof.
  induction d as [| [k0 v0] d IH]; simpl; intros Hnd.
  - apply NoDup_singleton.
  - apply NoDup_cons in Hnd as [Hnotin Hnd].
    destruct (String.eqb_spec k0 key) as [-> | Hne]; simpl.
    + by apply NoDup_cons.
    + apply NoDup_cons. split; [| by apply IH].
      rewrite list_elem_of_In, dict_set_keys. rewrite list_elem_of_In in Hnotin.
      intros [-> | Hin]; done.
Qed.

Lemma dict_set_has key elem d : In (key, elem) (dict_set key elem d).
Proof.
  induction d as [| [k0 v0] d IH]; simpl; [by left |].
  destruct (String.eqb_spec k0 key) as [-> | Hne]; simpl; auto.
Qed.

Lemma dict_set_keeps key elem d k e :
  k <> key -> In (k, e) d -> In (k, e) (dict_set key elem d).
Proof.
  intros Hne. induction d as [| [k0 v0] d IH]; simpl; [done |].
  destruct (String.eqb_spec k0 key) as [-> | Hne0]; simpl.
  - intros [[= <- <-] | Hin]; [done | by right].
  - intros [Heq | Hin]; [by left | right; by apply IH].
Qed.

(** The comprehension keeps keys distinct and only stores elements that it
    was given. *)
Lemma index_by_ax_element_entries elems d d' :
  index_by_ax_element elems d = Ok d' ->
  NoDup (map fst d) ->
  NoDup (map fst d')
  /\ forall k e, In (k, e) d' -> In (k, e) d \/ In e elems.
Proof.
  revert d. induction elems as [| x elems IH]; intros d; simpl.
  - intros [= <-] Hnd. auto.
  - unfold getattr_ax_element. destruct (ax_element x) as [key |]; [| done].
    simpl. intros Hidx Hnd.
    destruct (IH _ Hidx (dict_set_NoDup key x d Hnd)) as [Hnd' Hfrom].
    split; [done |]. intros k e Hin.
    destruct (Hfrom k e Hin) as [Hset | Hrest]; [| auto].
    apply dict_set_entries in Hset as [[= -> ->] | Hd]; auto.
Qed.

(** The element stored under a key is the last one that carries it. *)
Lemma index_by_ax_element_last front e back d d' k :
  index_by_ax_element (front ++ e :: back) d = Ok d' ->
  ax_element e = Some k ->
  (forall x, In x back -> ax_element x <> Some k) ->
  In (k, e) d'.
Proof.
  revert d. induction front as [| x front IH]; intros d; simpl.
  - unfold getattr_ax_element at 1. intros Hidx Hk Hback. rewrite Hk in Hidx.
    simpl in Hidx. pose proof (dict_set_has k e d) as Hin.
    revert Hidx Hin. generalize (dict_set k e d). clear d.
    induction back as [| y back IHb]; intros d; simpl.
    + by intros [= <-].
    + unfold getattr_ax_element. destruct (ax_element y) as [ky |] eqn:Hky; [| done].
      simpl. intros Hidx Hin. apply (IHb (fun x Hx => Hback x (or_intror Hx)) _ Hidx).
      apply dict_set_keeps; [| done]. intros ->. by apply (Hback y (or_introl eq_refl)).
  - unfold getattr_ax_element at 1. destruct (ax_element x); [| done]. simpl.
    apply IH.
Qed.

Lemma NoDup_keys_of_entries d (l : list (string * ElementData)) :
  own_keys d -> NoDup (map fst d) ->
  (forall kv, In kv l -> In kv d) -> NoDup l ->
  NoDup (map (fun kv => ax_element (snd kv)) l).
Proof.
  intros Hown Hnd Hsub Hl. unfold own_keys in Hown.
  rewrite List.Forall_forall in Hown.
  induction Hl as [| kv l Hnotin Hl IH]; simpl; [constructor |].
  apply NoDup_cons. split.
  - rewrite list_elem_of_In, in_map_iff. intros [kv' [Heq Hin']].
    assert (kv' = kv) as ->; [| by apply Hnotin, list_elem_of_In].
    pose proof (Hown kv (Hsub kv (or_introl eq_refl))) as Hk.
    pose proof (Hown kv' (Hsub kv' (or_intror Hin'))) as Hk'.
    rewrite Hk, Hk' in Heq. injection Heq as Hfst.
    destruct kv as [k v], kv' as [k' v']. simpl in *. subst k'.
    f_equal.
    assert (In (k, v) d) as H1 by (apply Hsub; by left).
    assert (In (k, v') d) as H2 by (apply Hsub; by right).
    clear -Hnd H1 H2. induction d as [| [k0 v0] d IHd]; [done |].
    simpl in Hnd. apply NoDup_cons in Hnd as [Hnotin Hnd].
    rewrite list_elem_of_In, in_map_iff in Hnotin.
    destruct H1 as [Heq1 | H1], H2 as [Heq2 | H2]; simplify_eq.
    + done.
    + destruct Hnotin. by exists (k, v').
    + destruct Hnotin. by exists (k, v).
    + by apply IHd.
  - apply IH. intros kv' Hin'. apply Hsub. by right.
Qed.

Lemma NoDup_entries d : NoDup (map fst d) -> NoDup d.
Proof.
  induction d as [| kv d IH]; simpl; intros Hnd; [constructor |].
  apply NoDup_cons in Hnd as [Hnotin Hnd]. apply NoDup_cons. split; [| by apply IH].
  rewrite list_elem_of_In. rewrite list_elem_of_In in Hnotin.
  intros Hin. apply Hnotin. apply in_map_iff. by exists kv.
Qed.

Lemma elements_not_in_keys_NoDup d other :
  own_keys d -> NoDup (map fst d) ->
  NoDup (map ax_element (elements_not_in d other)).
Proof.
  intros Hown Hnd. unfold elements_not_in.
  rewrite List.map_map.
  apply (NoDup_keys_of_entries d); [done | done | |].
  - intros kv Hin. by apply filter_In in Hin as [Hin _].
  - apply NoDup_ListNoDup, List.NoDup_filter, NoDup_ListNoDup, NoDup_entries, Hnd.
Qed.

(** One side of the diff: the elements of [mine] whose key no element of
    [theirs] carries. *)
Lemma elements_not_in_exact mine theirs dm dt :
  index_by_ax_element mine [] = Ok dm ->
  index_by_ax_element theirs [] = Ok dt ->
  (forall a, In a (elements_not_in dm dt) ->
     In a mine /\ forall b, In b theirs -> ax_element b <> ax_element a)
  /\ (forall e, In e mine ->
        is_Some (ax_element e) ->
        (forall b, In b theirs -> ax_element b <> ax_element e) ->
        exists a, In a (elements_not_in dm dt) /\ ax_element a = ax_element e)
  /\ NoDup (map ax_element (elements_not_in dm dt)).
Proof.
  intros Hm Ht.
  destruct (index_by_ax_element_keys _ _ _ Hm own_keys_empty) as [Hownm Hkm].
  destruct (index_by_ax_element_keys _ _ _ Ht own_keys_empty) as [Hownt Hkt].
  destruct (index_by_ax_element_entries _ _ _ Hm (NoDup_nil_2)) as [Hndm Hfromm].
  split; [| split].
  - intros a Hin. apply elements_not_in_In in Hin as [k [Hin Hnot]].
    pose proof Hownm as Hown. unfold own_keys in Hown.
    rewrite List.Forall_forall in Hown. pose proof (Hown _ Hin) as Hka. simpl in Hka.
    split.
    + by destruct (Hfromm _ _ Hin) as [[] | H].
    + intros b Hb Heq. apply Hnot. apply Hkt. right. exists b. split; [done |].
      congruence.
  - intros e He [k Hk] Hnone.
    assert (In k (map fst dm)) as Hin by (apply Hkm; right; by exists e).
    apply in_map_iff in Hin as [[k' a] [Hfst Hin]]. simpl in Hfst. subst k'.
    exists a. split.
    + apply elements_not_in_In. exists k. split; [done |].
      intros Hkin. apply Hkt in Hkin as [[] | [b [Hb Hbk]]].
      apply (Hnone b Hb). congruence.
    + unfold own_keys in Hownm. rewrite List.Forall_forall in Hownm.
      pose proof (Hownm _ Hin) as Hka. simpl in Hka. by rewrite Hka, Hk.
  - by apply elements_not_in_keys_NoDup.
Qed.

(** X1: on snapshots whose elements all carry an identity key the differ
    reports exactly the difference of the key sets.  An added element is an
    element of the after snapshot whose key no before element carries, and
    every such key is reported; likewise for removed elements; and no key
    is reported twice on either side. *)
Theorem diff_reports_key_difference (before after : ResponseData) :
  Forall (fun e => is_Some (ax_element e)) (elements before) ->
  Forall (fun e => is_Some (ax_element e)) (elements after) ->
  exists diff,
    _generate_traversal_diff before after = Ok diff
    /\ (forall a, In a (added_elements diff) ->
          In a (elements after)
          /\ forall b, In b (elements before) -> ax_element b <> ax_element a)
    /\ (forall e, In e (elements after) ->
          (forall b, In b (elements before) -> ax_element b <> ax_element e) ->
          exists a, In a (added_elements diff) /\ ax_element a = ax_element e)
    /\ (forall r, In r (removed_elements diff) ->
          In r (elements before)
          /\ forall a, In a (elements after) -> ax_element a <> ax_element r)
    /\ (forall e, In e (elements before) ->
          (forall a, In a (elements after) -> ax_element a <> ax_element e) ->
          exists r, In r (removed_elements diff) /\ ax_element r = ax_element e)
    /\ NoDup (map ax_element (added_elements diff))
    /\ NoDup (map ax_element (removed_elements diff)).
Proof.
  intros Hb Ha. unfold _generate_traversal_diff.
  destruct (index_by_ax_element_keyed _ [] Hb) as [db Hdb].
  destruct (index_by_ax_element_keyed _ [] Ha) as [da Hda].
  rewrite Hdb, Hda. simpl. eexists. split; [done |]. simpl.
  destruct (elements_not_in_exact _ _ _ _ Hda Hdb) as (Ha1 & Ha2 & Ha3).
  destruct (elements_not_in_exact _ _ _ _ Hdb Hda) as (Hb1 & Hb2 & Hb3).
  rewrite List.Forall_forall in Hb, Ha.
  repeat split; try done.
  - by apply Ha1.
  - by apply Ha1.
  - intros e He Hnone. by apply Ha2; [| apply Ha |].
  - by apply Hb1.
  - by apply Hb1.
  - intros e He Hnone. by apply Hb2; [| apply Hb |].
Qed.

(** X2: the differ looks at keys only.  When the two snapshots carry the
    same keys it reports nothing added, removed or modified, however the
    role, text or frame of an element changed. *)
Theorem diff_ignores_changes_under_same_keys (before after : ResponseData) :
  Forall (fun e => is_Some (ax_element e)) (elements before) ->
  Forall (fun e => is_Some (ax_element e)) (elements after) ->
  (forall k,
     (exists e, In e (elements before) /\ ax_element e = Some k)
     <-> (exists e, In e (elements after) /\ ax_element e = Some k)) ->
  _generate_traversal_diff before after
  = Ok (mkTraversalDiff [] [] [] (Some (stats before)) (Some (stats after))).
Proof.
  intros Hb Ha Hsame. unfold _generate_traversal_diff.
  destruct (index_by_ax_element_keyed _ [] Hb) as [db Hdb].
  destruct (index_by_ax_element_keyed _ [] Ha) as [da Hda].
  rewrite Hdb, Hda. simpl.
  destruct (index_by_ax_element_keys _ _ _ Hdb own_keys_empty) as [_ Hkb].
  destruct (index_by_ax_element_keys _ _ _ Hda own_keys_empty) as [_ Hka].
  rewrite !elements_not_in_covered; [done | |];
    intros k; rewrite Hkb, Hka; intros [[] | H]; right; by apply Hsame.
Qed.

(** X3: of several elements of the after snapshot that share a key absent
    from the before snapshot, the last one is the one reported added. *)
Theorem diff_reports_last_element_of_a_key (before after : ResponseData)
    (front back : list ElementData) (e : ElementData) :
  Forall (fun x => is_Some (ax_element x)) (elements before) ->
  Forall (fun x => is_Some (ax_element x)) (elements after) ->
  elements after = front ++ e :: back ->
  (forall x, In x back -> ax_element x <> ax_element e) ->
  (forall b, In b (elements before) -> ax_element b <> ax_element e) ->
  exists diff,
    _generate_traversal_diff before after = Ok diff
    /\ In e (added_elements diff)
    /\ forall a, In a (added_elements diff) -> ax_element a = ax_element e -> a = e.
Proof.
  intros Hb Ha Hsplit Hback Hnone. unfold _generate_traversal_diff.
  destruct (index_by_ax_element_keyed _ [] Hb) as [db Hdb].
  destruct (index_by_ax_element_keyed _ [] Ha) as [da Hda].
  rewrite Hdb, Hda. simpl. eexists. split; [done |]. simpl.
  assert (is_Some (ax_element e)) as [k Hk].
  { rewrite List.Forall_forall in Ha. apply Ha. rewrite Hsplit.
    apply in_or_app. right. by left. }
  destruct (index_by_ax_element_keys _ _ _ Hdb own_keys_empty) as [_ Hkb].
  destruct (index_by_ax_element_keys _ _ _ Hda own_keys_empty) as [Howna _].
  destruct (index_by_ax_element_entries _ _ _ Hda NoDup_nil_2) as [Hnda _].
  assert (In (k, e) da) as Hin.
  { rewrite Hsplit in Hda. apply (index_by_ax_element_last _ _ _ _ _ _ Hda Hk).
    intros x Hx. rewrite <- Hk. by apply Hback. }
  assert (In e (elements_not_in da db)) as Hadded.
  { apply elements_not_in_In. exists k. split; [done |].
    intros Hkin. apply Hkb in Hkin as [[] | [b [Hb' Hbk]]].
    apply (Hnone b Hb'). congruence. }
  split; [done |]. intros a Ha' Heq.
  pose proof (elements_not_in_keys_NoDup da db Howna Hnda) as Hnd.
  clear -Hadded Ha' Heq Hnd.
  induction (elements_not_in da db) as [| x l IH]; [done |].
  simpl in Hnd. apply NoDup_cons in Hnd as [Hnotin Hnd].
  rewrite list_elem_of_In, in_map_iff in Hnotin.
  destruct Hadded as [-> | Hine], Ha' as [<- | Hina]; try done.
  - destruct Hnotin. by exists a.
  - destruct Hnotin. by exists e.
  - by apply IH.
Qed.

End KeyedDiff.

(** ** More on text *)

Section MoreText.
Implicit Types (s t sub sep pre post : string) (c : ascii).
Local Open Scope string_scope.

Lemma startswith_append sub s t :
  startswith sub s = true -> startswith sub (s ++ t) = true.
Proof.
  rewrite !startswith_spec. intros [post ->]. exists (post ++ t).
  by rewrite append_assoc.
Qed.

Lemma drop_prefix_spec sep s rest :
  drop_prefix sep s = Some rest <-> s = sep ++ rest.
Proof.
  revert s. induction sep as [| a sep IH]; intros s; simpl.
  - rewrite append_nil_l. split; congruence.
  - destruct s as [| b s]; [by rewrite append_cons |].
    rewrite append_cons. destruct (Ascii.eqb_spec a b) as [-> | Hne].
    + rewrite IH. split; congruence.
    + split; [done | congruence].
Qed.

Lemma drop_prefix_startswith sep s :
  drop_prefix sep s = None <-> startswith sep s = false.
Proof.
  revert s. induction sep as [| a sep IH]; intros s; simpl; [done |].
  destruct s as [| b s]; [done |]. by destruct (Ascii.eqb a b).
Qed.

(** [split(sep, 1)] on a text that has the separator: the two pieces are
    the text before and after the leftmost separator. *)
Lemma split_once_spec sep s :
  sep <> EmptyString ->
  contains sep s = true ->
  exists a b,
    split_once sep s = [a; b] /\ s = a ++ sep ++ b /\ contains sep a = false.
Proof.
  intros Hsep. induction s as [| c s IH]; simpl.
  - rewrite orb_false_r. destruct sep; [done | discriminate].
  - destruct (drop_prefix sep (String c s)) as [rest |] eqn:Hdrop.
    + intros _. exists EmptyString, rest. split; [done |].
      apply drop_prefix_spec in Hdrop. split; [done |].
      simpl. by destruct sep.
    + apply drop_prefix_startswith in Hdrop. rewrite Hdrop. simpl.
      intros Hin. destruct (IH Hin) as (a & b & Hsplit & Hs & Ha).
      exists (String c a), b. rewrite Hsplit. split; [done |].
      split; [rewrite append_cons; by f_equal |].
      simpl contains. rewrite Ha, orb_false_r.
      destruct (startswith sep (String c a)) eqn:Hstart; [| done].
      apply (startswith_append _ _ (sep ++ b)) in Hstart.
      rewrite append_cons, <- Hs in Hstart. congruence.
Qed.

(** The last piece of a split has no separator in it and ends the text. *)
Lemma split_char_shape c s :
  exists first others t,
    split_char c s = first :: others
    /\ last_item (first :: others) = Some t
    /\ contains (String c EmptyString) t = false
    /\ ((others = [] /\ s = t) \/ (others <> [] /\ exists h, s = h ++ String c t)).
Proof.
  induction s as [| a s (first & others & t & Hsplit & Hlast & Hclean & Hshape)].
  - exists EmptyString, [], EmptyString. repeat split; auto.
  - simpl split_char. rewrite Hsplit.
    destruct (Ascii.eqb_spec a c) as [-> | Hne].
    + exists EmptyString, (first :: others), t.
      split; [done |]. split; [done |]. split; [done |]. right.
      split; [done |]. destruct Hshape as [[_ ->] | [_ [h ->]]].
      * by exists EmptyString.
      * exists (String c h). by rewrite append_cons.
    + destruct Hshape as [[-> ->] | [Hothers [h ->]]].
      * injection Hlast as ->. exists (String a t), [], (String a t).
        split; [done |]. split; [done |]. split; [| by left].
        simpl contains. rewrite Hclean, orb_false_r. simpl.
        destruct (Ascii.eqb_spec c a) as [-> | _]; [done |]. by destruct t.
      * exists (String a first), others, t. split; [done |].
        split; [by destruct others |]. split; [done |]. right.
        split; [done |]. exists (String a h). by rewrite append_cons.
Qed.

Lemma split_char_last c s :
  exists t,
    last_item (split_char c s) = Some t
    /\ contains (String c EmptyString) t = false
    /\ (s = t \/ exists h, s = h ++ String c t).
Proof.
  destruct (split_char_shape c s)
    as (first & others & t & -> & Hlast & Hclean & Hshape).
  exists t. split; [done |]. split; [done |].
  destruct Hshape as [[_ ->] | [_ H]]; auto.
Qed.

End MoreText.

(** ** More on tool invocations *)

Section MoreTools.
Context {P : Platform}.
Implicit Types (st : State) (result : CompletedProcess).

Lemma _run_tool_missing tool_name args check st :
  os_path_exists (os_path_join swift_build_path tool_name) (world st) = false ->
  _run_tool tool_name args check st
  = (Raise (mkExc MacosUseSDKError
              ("Tool " +:+ tool_name +:+ " not found at "
                 +:+ os_path_join swift_build_path tool_name)),
     st).
Proof. intros Hmissing. unfold _run_tool. by rewrite Hmissing. Qed.

Lemma missing_traversal_tool_contains tool_path :
  contains "accessibility" (lower ("Tool TraversalTool not found at " +:+ tool_path))
  = contains "accessibility" (lower tool_path)
  /\ contains "not found" (lower ("Tool TraversalTool not found at " +:+ tool_path))
     = true.
Proof.
  rewrite lower_append.
  change (lower "Tool TraversalTool not found at ")
    with "tool traversaltool not found at ".
  split.
  - rewrite !append_cons, append_nil_l.
    by rewrite !contains_skip by reflexivity.
  - apply contains_spec.
    by exists "tool traversaltool ", (" at " +:+ lower tool_path).
Qed.

Lemma missing_opener_tool_contains tool_path :
  contains "not found" (lower ("Tool AppOpenerTool not found at " +:+ tool_path))
  = true.
Proof.
  rewrite lower_append.
  change (lower "Tool AppOpenerTool not found at ")
    with "tool appopenertool not found at ".
  apply contains_spec.
  by exists "tool appopenertool ", (" at " +:+ lower tool_path).
Qed.


Lemma parse_failure_message_contains needle e :
  needle = "accessibility" \/ needle = "not found" ->
  contains needle (lower ("Failed to parse traversal JSON response: " +:+ e))
  = contains needle (lower e).
Proof.
  intros [-> | ->]; rewrite lower_append;
    change (lower "Failed to parse traversal JSON response: ")
      with "failed to parse traversal json response: ";
    rewrite !append_cons, append_nil_l;
    by rewrite !contains_skip by reflexivity.
Qed.


(** The scan for the success message cannot fail: a line in which the
    marker was found always splits in two. *)
Lemma scan_success_message_total lines init :
  (Forall (fun line => contains "Success:" line = false) lines
   /\ scan_success_message lines init = Ok init)
  \/ exists pre line post a b,
       lines = pre ++ line :: post
       /\ Forall (fun line => contains "Success:" line = false) pre
       /\ line = (a +:+ "Success:" +:+ b)
       /\ contains "Success:" a = false
       /\ scan_success_message lines init = Ok (strip b).
Proof.
  induction lines as [| line lines IH]; simpl.
  - left. by split.
  - destruct (contains "Success:" line) eqn:Hline.
    + right. destruct (split_once_spec "Success:" line) as (a & b & -> & Hs & Ha);
        [done | done |].
      exists [], line, lines, a, b. by repeat split.
    + destruct IH as [[Hnone ->] | (pre & l & post & a & b & -> & Hpre & Hl & Ha & ->)].
      * left. split; [by constructor | done].
      * right. exists (line :: pre), l, post, a, b.
        split; [done |]. split; [by constructor |]. by repeat split.
Qed.

(** X6: once its tool call succeeded, an output-controller action always
    succeeds: the indexing after the split cannot go out of range.  The
    message is empty when no stderr line has the marker; otherwise it is
    the stripped text after the leftmost marker of the first such line. *)
Theorem output_controller_message action value st result st' :
  _run_tool_async "OutputControllerTool"
    (action_value action
       :: match value with Some v => [str_of_float v] | None => [] end)
    true st
  = (Ok result, st') ->
  exists message,
    _run_output_controller_action action value st
    = (Ok (mkOutputControllerResult
             (if negb (String.eqb (strip (stdout result)) EmptyString)
              then float_of_str (strip (stdout result)) else None)
             message),
       st')
    /\ ((Forall (fun line => contains "Success:" line = false) (stderr_lines result)
         /\ message = EmptyString)
        \/ exists pre line post a b,
             stderr_lines result = pre ++ line :: post
             /\ Forall (fun line => contains "Success:" line = false) pre
             /\ line = (a +:+ "Success:" +:+ b)
             /\ contains "Success:" a = false
             /\ message = strip b).
Proof.
  intros Hrun. unfold _run_output_controller_action. rewrite Hrun.
  cbn [bind].
  destruct (scan_success_message_total (stderr_lines result) EmptyString)
    as [[Hnone ->] | (pre & line & post & a & b & Hlines & Hpre & Hline & Ha & ->)].
  - eexists. split; [done |]. by left.
  - eexists. split; [done |]. right. by exists pre, line, post, a, b.
Qed.

Lemma scan_processing_time_last pre line post init :
  contains "total execution time:" line = true ->
  Forall (fun l => contains "total execution time:" l = false) post ->
  scan_processing_time (pre ++ line :: post) init
  = replace " seconds" EmptyString
      (strip (default EmptyString (last_item (split_char ":" line)))).
Proof.
  intros Hline Hpost. unfold scan_processing_time.
  rewrite fold_left_app. simpl. rewrite Hline.
  by apply scan_processing_time_no_marker.
Qed.

(** X7: the timing text of an opened application comes from the last
    stderr line that has the marker, and it is what follows the last colon
    of that line, stripped and without " seconds". *)
Theorem processing_time_after_last_colon identifier st result st' p
    (pre post : list string) (line : string) :
  _run_tool_async "AppOpenerTool" [identifier] true st = (Ok result, st') ->
  int_of_str (strip (stdout result)) = Ok p ->
  stderr_lines result = pre ++ line :: post ->
  contains "total execution time:" line = true ->
  Forall (fun l => contains "total execution time:" l = false) post ->
  exists head tail,
    line = (head +:+ ":" +:+ tail)
    /\ contains ":" tail = false
    /\ open_application identifier st
       = (Ok (mkAppOpenerResult p identifier
                (replace " seconds" EmptyString (strip tail))),
          st').
Proof.
  intros Hrun Hpid Hlines Hline Hpost.
  destruct (split_char_last ":" line) as (tail & Hlast & Hclean & Hshape).
  destruct Hshape as [-> | [head ->]].
  - exfalso. apply contains_spec in Hline as [a [b ->]].
    assert (contains ":" (a +:+ "total execution time:" +:+ b) = true) as Hcolon.
    { apply contains_spec. exists (a +:+ "total execution time"), b.
      by rewrite !append_assoc. }
    congruence.
  - exists head, tail. split; [done |]. split; [done |].
    unfold open_application. rewrite Hrun. cbn [bind]. rewrite Hpid. cbn [bind].
    by rewrite Hlines, (scan_processing_time_last _ _ _ _ Hline Hpost), Hlast.
Qed.

End MoreTools.

(** ** Integers as text *)

Section IntText.
Implicit Types (s : string) (c : ascii) (x : N) (acc : Z) (n : N).

Lemma digit_value_pretty_N_char x :
  (x < 10)%N -> digit_value (pretty_N_char x) = Some (Z.of_N x).
Proof.
  intros Hx.
  assert (x = 0 \/ x = 1 \/ x = 2 \/ x = 3 \/ x = 4 \/ x = 5 \/ x = 6
          \/ x = 7 \/ x = 8 \/ x = 9)%N as H by lia.
  by repeat destruct H as [-> | H]; try subst x.
Qed.

(** Scanning the digits that [pretty] wrote in front of [s] adds the
    number to the accumulator, shifted, and its [k] digits to the count;
    a number of [k] digits is at least [10 ^ (k - 1)]. *)
Lemma scan_digits_pretty_N_go x :
  forall s acc n (after_underscore : bool),
    (0 < x)%N ->
    exists k : N,
      (0 < k)%N
      /\ (10 ^ (k - 1) <= x)%N
      /\ scan_digits acc n after_underscore (pretty_N_go x s)
         = scan_digits (acc * 10 ^ Z.of_N k + Z.of_N x) (n + k) false s.
Proof.
  induction (N.lt_wf_0 x) as [x _ IH]. intros s acc n after_underscore Hx.
  rewrite pretty_N_go_step by done.
  pose proof (N.mod_lt x 10 ltac:(done)) as Hmod.
  pose proof (N.div_mod x 10 ltac:(done)) as Hdiv.
  set (digit := pretty_N_char (x `mod` 10)).
  assert (x `div` 10 = 0 \/ 0 < x `div` 10)%N as [Hzero | Hpos] by lia.
  - rewrite Hzero, pretty_N_go_0. simpl. unfold digit.
    rewrite digit_value_pretty_N_char by done.
    assert (x `mod` 10 = x)%N as -> by lia.
    exists 1%N. split; [done |].
    split; [change (10 ^ (1 - 1))%N with 1%N; lia |].
    change (10 ^ Z.of_N 1) with 10. f_equal. lia.
  - destruct (IH (x `div` 10)%N ltac:(by apply N.div_lt)
                (String digit s) acc n after_underscore Hpos)
      as (k & Hk & Hlow & ->).
    simpl. unfold digit. rewrite digit_value_pretty_N_char by done.
    exists (k + 1)%N. split; [lia |]. split.
    + replace (k + 1 - 1)%N with (N.succ (k - 1)) by lia.
      rewrite N.pow_succ_r'.
      generalize dependent (10 ^ (k - 1))%N. generalize dependent (x `div` 10)%N.
      generalize dependent (x `mod` 10)%N. intros. lia.
    + f_equal; [| lia].
      rewrite N2Z.inj_add, Z.pow_add_r by lia. change (10 ^ Z.of_N 1) with 10.
      apply (f_equal Z.of_N) in Hdiv. rewrite N2Z.inj_add, N2Z.inj_mul in Hdiv.
      change (Z.of_N 10) with 10 in Hdiv.
      generalize dependent (10 ^ Z.of_N k). generalize dependent (Z.of_N x).
      generalize dependent (Z.of_N (x `div` 10)).
      generalize dependent (Z.of_N (x `mod` 10)). intros. lia.
Qed.

(** The first character that [pretty] writes for a positive number is a
    digit. *)
Lemma pretty_N_go_head x :
  forall s,
    (0 < x)%N ->
    exists c t, pretty_N_go x s = String c t /\ is_Some (digit_value c).
Proof.
  induction (N.lt_wf_0 x) as [x _ IH]. intros s Hx.
  rewrite pretty_N_go_step by done.
  pose proof (N.mod_lt x 10 ltac:(done)) as Hmod.
  destruct (N.eq_0_gt_0_cases (x `div` 10)) as [Hzero | Hpos].
  - rewrite Hzero, pretty_N_go_0. eexists _, _. split; [done |].
    by rewrite digit_value_pretty_N_char.
  - apply IH; [by apply N.div_lt | done].
Qed.

Lemma pretty_N_go_chars x :
  forall s,
    Forall (fun c => is_Some (digit_value c)) (list_ascii_of_string s) ->
    Forall (fun c => is_Some (digit_value c))
      (list_ascii_of_string (pretty_N_go x s)).
Proof.
  induction (N.lt_wf_0 x) as [x _ IH]. intros s Hs.
  destruct (N.eq_0_gt_0_cases x) as [-> | Hx]; [by rewrite pretty_N_go_0 |].
  rewrite pretty_N_go_step by done. apply IH; [by apply N.div_lt |].
  simpl. constructor; [| done].
  rewrite digit_value_pretty_N_char; [by eexists |].
  by apply N.mod_lt.
Qed.

Lemma digit_is_not_space c : is_Some (digit_value c) -> is_space c = false.
Proof.
  intros [d Hd]. destruct c as [[] [] [] [] [] [] [] []]; by vm_compute in *.
Qed.

Lemma digit_is_not_int_space c : is_Some (digit_value c) -> is_int_space c = false.
Proof.
  intros [d Hd]. destruct c as [[] [] [] [] [] [] [] []]; by vm_compute in *.
Qed.

(** What [int] does with a text whose first character is neither white
    space for [int], nor a sign, nor an underscore. *)
Lemma int_of_str_plain c s :
  is_int_space c = false ->
  c <> "-"%char -> c <> "+"%char -> c <> "_"%char ->
  int_of_str (String c s)
  = match scan_digits 0 0 false (String c s) with
    | None => Raise (invalid_literal (String c s))
    | Some (z, digits, rest) =>
        if (max_str_digits <? digits)%N then Raise (exceeds_limit digits)
        else if (digits =? 0)%N then Raise (invalid_literal (String c s))
        else match skip_int_space rest with
             | EmptyString => Ok z
             | _ => Raise (invalid_literal (String c s))
             end
    end.
Proof.
  intros Hspace Hminus Hplus Hunderscore. unfold int_of_str.
  cbn [skip_int_space]. rewrite Hspace.
  destruct c as [[] [] [] [] [] [] [] []]; done.
Qed.

Lemma int_of_str_unsigned c s :
  is_Some (digit_value c) ->
  int_of_str (String c s)
  = match scan_digits 0 0 false (String c s) with
    | None => Raise (invalid_literal (String c s))
    | Some (z, digits, rest) =>
        if (max_str_digits <? digits)%N then Raise (exceeds_limit digits)
        else if (digits =? 0)%N then Raise (invalid_literal (String c s))
        else match skip_int_space rest with
             | EmptyString => Ok z
             | _ => Raise (invalid_literal (String c s))
             end
    end.
Proof.
  intros [d Hd].
  apply int_of_str_plain; [by apply digit_is_not_int_space; eexists | ..];
    intros ->; by vm_compute in Hd.
Qed.

(** Likewise behind a minus sign. *)
Lemma int_of_str_negative c s :
  is_Some (digit_value c) ->
  int_of_str (String "-" (String c s))
  = match scan_digits 0 0 false (String c s) with
    | None => Raise (invalid_literal (String "-" (String c s)))
    | Some (z, digits, rest) =>
        if (max_str_digits <? digits)%N then Raise (exceeds_limit digits)
        else if (digits =? 0)%N
        then Raise (invalid_literal (String "-" (String c s)))
        else match skip_int_space rest with
             | EmptyString => Ok (- z)
             | _ => Raise (invalid_literal (String "-" (String c s)))
             end
    end.
Proof.
  intros [d Hd]. unfold int_of_str.
  destruct c as [[] [] [] [] [] [] [] []]; by vm_compute in Hd.
Qed.

(** The decimal text of a positive number below [10 ^ 4300] is scanned
    whole, and its digits are within the limit. *)
Lemma scan_digits_pretty_positive (p : positive) :
  (N.pos p < 10 ^ 4300)%N ->
  exists c t k,
    pretty (N.pos p) = String c t
    /\ is_Some (digit_value c)
    /\ (0 < k <= 4300)%N
    /\ scan_digits 0 0 false (pretty (N.pos p)) = Some (Z.pos p, k, EmptyString).
Proof.
  intros Hbound. unfold pretty, pretty_N. rewrite decide_False by done.
  destruct (pretty_N_go_head (N.pos p) EmptyString) as (c & t & Hshape & Hc); [done |].
  destruct (scan_digits_pretty_N_go (N.pos p) EmptyString 0 0 false)
    as (k & Hk & Hlow & Hscan); [done |].
  exists c, t, k. split; [done |]. split; [done |]. split.
  - split; [done |].
    assert (10 ^ (k - 1) < 10 ^ 4300)%N as Hpow by lia.
    apply N.pow_lt_mono_r_iff in Hpow; lia.
  - rewrite Hscan. simpl. by rewrite N.add_0_l.
Qed.

(** [int(str(z)) == z] for a number of at most 4300 digits. *)
Lemma int_of_str_pretty (z : Z) :
  Z.abs z < 10 ^ 4300 -> int_of_str (pretty z) = Ok z.
Proof.
  intros Hbound.
  assert (forall p : positive, Z.pos p < 10 ^ 4300 -> (N.pos p < 10 ^ 4300)%N)
    as Hpositive.
  { intros p Hp. apply N2Z.inj_lt. by rewrite N2Z.inj_pow. }
  destruct z as [| p | p].
  - done.
  - destruct (scan_digits_pretty_positive p) as (c & t & k & Hshape & Hc & Hk & Hscan);
      [by apply Hpositive |].
    change (pretty (Z.pos p)) with (pretty (N.pos p)).
    rewrite Hshape in Hscan |- *. rewrite (int_of_str_unsigned _ _ Hc), Hscan.
    unfold max_str_digits.
    assert ((4300 <? k)%N = false) as -> by (apply N.ltb_ge; lia).
    by assert ((k =? 0)%N = false) as -> by (apply N.eqb_neq; lia).
  - destruct (scan_digits_pretty_positive p) as (c & t & k & Hshape & Hc & Hk & Hscan);
      [by apply Hpositive |].
    assert (pretty (Z.neg p) = String "-" (pretty (N.pos p))) as -> by done.
    rewrite Hshape in Hscan |- *. rewrite (int_of_str_negative _ _ Hc), Hscan.
    unfold max_str_digits.
    assert ((4300 <? k)%N = false) as -> by (apply N.ltb_ge; lia).
    by assert ((k =? 0)%N = false) as -> by (apply N.eqb_neq; lia).
Qed.

(** Whatever [int] raises is a ValueError, which is none of the wrapper's
    error kinds. *)
Lemma int_of_str_raises s e : int_of_str s = Raise e -> is_sdk_error e = false.
Proof.
  unfold int_of_str. intros Hraise.
  repeat case_match; simplify_eq; done.
Qed.

End IntText.

(** ** More on the coordinated action *)

Section MoreStages.
Context {P : Platform}.
Implicit Types (st : State) (exc : Exc).

Lemma traverse_accessibility_tree_log (target : Z) (only_visible : bool) st r st' :
  os_path_exists (os_path_join swift_build_path "TraversalTool") (world st) = true ->
  traverse_accessibility_tree (inl target) only_visible st = (r, st') ->
  log st'
  = log st
      ++ [ToolRun "TraversalTool"
            ((if only_visible then ["--visible-only"] else []) ++ [pretty target])].
Proof.
  intros Hexists. unfold traverse_accessibility_tree, _run_tool_async, _run_tool.
  rewrite Hexists. cbn [negb].
  destruct (subprocess_run _ _) as [ran w].
  intros Heq.
  repeat case_match; simplify_eq; done.
Qed.

(** X8: the pid goes from the opener to the traversal tool unchanged.  When
    the opener prints the decimal text of [p], of at most 4300 digits and
    possibly with white space around it, [open_application] returns [p],
    and a traversal of the returned pid hands that same text to the
    traversal tool. *)
Theorem opened_pid_is_printed_pid identifier st result st' (p : Z) :
  _run_tool_async "AppOpenerTool" [identifier] true st = (Ok result, st') ->
  strip (stdout result) = pretty p ->
  Z.abs p < 10 ^ 4300 ->
  exists opened,
    open_application identifier st = (Ok opened, st')
    /\ pid opened = p
    /\ forall (only_visible : bool) st1 r st2,
         os_path_exists (os_path_join swift_build_path "TraversalTool") (world st1)
         = true ->
         traverse_accessibility_tree (inl (pid opened)) only_visible st1 = (r, st2) ->
         log st2
         = log st1
             ++ [ToolRun "TraversalTool"
                   ((if only_visible then ["--visible-only"] else [])
                      ++ [strip (stdout result)])].
Proof.
  intros Hrun Hstdout Hbound. eexists. split; [| split].
  - unfold open_application. rewrite Hrun. cbn [bind].
    by rewrite Hstdout, int_of_str_pretty.
  - done.
  - intros only_visible st1 r st2 Hexists Htraverse. simpl in *.
    rewrite Hstdout. by eapply traverse_accessibility_tree_log.
Qed.

Lemma _run_input_action_log action args st r st' :
  _run_input_action action args st = (r, st') ->
  exists events, log st' = log st ++ events /\ input_events events.
Proof.
  unfold _run_input_action, _run_tool_async.
  destruct (_run_tool _ _ _ st) as [r0 st0] eqn:Hrun.
  apply _run_tool_effects in Hrun as [_ Hlog].
  intros Heq. assert (st' = st0) as ->.
  { destruct r0 as [ok | exc]; [by injection Heq |].
    destruct (is_sdk_error exc); by injection Heq. }
  destruct Hlog as [-> | ->].
  - exists []. split; [by rewrite app_nil_r | by left].
  - eexists. split; [done |]. right. eexists _, _. split; [done | by left].
Qed.

Lemma _run_visual_input_action_log action args duration st r st' :
  _run_visual_input_action action args duration st = (r, st') ->
  exists events, log st' = log st ++ events /\ input_events events.
Proof.
  unfold _run_visual_input_action, _run_tool_async.
  destruct (_run_tool _ _ _ st) as [r0 st0] eqn:Hrun.
  apply _run_tool_effects in Hrun as [_ Hlog].
  intros Heq. assert (st' = st0) as ->.
  { destruct r0 as [ok | exc]; [by injection Heq |].
    destruct (is_sdk_error exc); by injection Heq. }
  destruct Hlog as [-> | ->].
  - exists []. split; [by rewrite app_nil_r | by left].
  - eexists. split; [done |]. right. eexists _, _. split; [done | by right].
Qed.

Lemma with_point_log point k st r st' :
  (forall px py st0 r0 st0', k px py st0 = (r0, st0') ->
     exists events, log st0' = log st0 ++ events /\ input_events events) ->
  with_point point k st = (r, st') ->
  exists events, log st' = log st ++ events /\ input_events events.
Proof.
  intros Hk. unfold with_point.
  assert (exists events, log st = log st ++ events /\ input_events events) as Hnone.
  { exists []. split; [by rewrite app_nil_r | by left]. }
  destruct (getitem point "x") as [px |]; [| by intros [= <- <-]].
  destruct (getitem point "y") as [py |]; [| by intros [= <- <-]].
  apply Hk.
Qed.

Lemma _execute_input_action_log action options st r st' :
  _execute_input_action action options st = (r, st') ->
  exists events, log st' = log st ++ events /\ input_events events.
Proof.
  assert (forall name px py st0 r0 st0',
             (if show_animation options
              then pointer_action_visual name px py (animation_duration options)
              else pointer_action name px py) st0 = (r0, st0') ->
             exists events, log st0' = log st0 ++ events /\ input_events events)
    as Hpointer.
  { intros name px py st0 r0 st0'. destruct (show_animation options).
    - apply _run_visual_input_action_log.
    - apply _run_input_action_log. }
  destruct action; simpl;
    try (apply with_point_log; intros px py st0 r0 st0'; apply Hpointer);
    try apply _run_input_action_log.
  apply with_point_log. intros px py st0 r0 st0'. apply _run_input_action_log.
Qed.

(** X9: only an Open action ever traverses.  For an Input or TraverseOnly
    action, whatever the options say (traversals requested, a pid given in
    [pid_for_traversal]), the call returns a result without pid, snapshots,
    diff or traversal errors, and it runs neither the traversal tool nor
    the opener: at most one input tool, then at most one delay. *)
Theorem only_open_actions_traverse action options st r st' :
  (forall identifier, action <> PrimaryAction.Open identifier) ->
  perform_action action options st = (r, st') ->
  exists result,
    r = Ok result
    /\ open_result result = None
    /\ traversal_pid result = None
    /\ traversal_before result = None
    /\ traversal_after result = None
    /\ traversal_diff result = None
    /\ traversal_before_error result = None
    /\ traversal_after_error result = None
    /\ exists events slept,
         log st' = log st ++ events ++ slept
         /\ input_events events
         /\ (slept = [] \/ exists seconds, slept = [Slept seconds]).
Proof.
  intros Hnot. unfold perform_action.
  destruct (validate_options options (store st)) as [o h].
  unfold run_stages, open_stage.
  set (st0 := mkState (world st) (log st) h).
  assert (forall recorded st1,
             traversal_pid recorded = None ->
             traversal_before recorded = None ->
             after_stage o recorded st1 = (recorded, st1)
             /\ diff_stage o recorded st1 = (Ok recorded, st1)) as Hrest.
  { intros recorded st1 Hpid Hbefore. split.
    - unfold after_stage. by rewrite guarded_without_pid.
    - unfold diff_stage. by rewrite Hbefore. }
  assert (forall st1, exists slept,
             log (delay_stage o st1) = log st1 ++ slept
             /\ (slept = [] \/ exists seconds, slept = [Slept seconds])) as Hdelay.
  { intros st1. unfold delay_stage. case_match.
    - eexists. split; [done |]. right. by eexists.
    - exists []. split; [by rewrite app_nil_r | by left]. }
  destruct action as [identifier | input_action |]; [by destruct (Hnot identifier) | |].
  - unfold later_stages, before_stage.
    rewrite guarded_without_pid by done.
    unfold input_stage. cbn [store st0].
    destruct (_execute_input_action input_action (deref o h) st0) as [ri sti] eqn:Hi.
    apply _execute_input_action_log in Hi as (events & Hlog & Hevents).
    destruct (Hdelay sti) as (slept & Hslept & Hshape).
    destruct ri as [[] | exc].
    + destruct (Hrest ActionResult_init (delay_stage o sti)) as [-> ->]; [done.. |].
      intros [= <- <-]. eexists. repeat split.
      exists events, slept. rewrite Hslept, Hlog. by rewrite <- app_assoc.
    + destruct (Hrest (with_primary_action_error (exc_str exc) ActionResult_init)
                  (delay_stage o sti)) as [-> ->]; [done.. |].
      intros [= <- <-]. eexists. repeat split.
      exists events, slept. rewrite Hslept, Hlog. by rewrite <- app_assoc.
  - unfold later_stages, before_stage.
    rewrite guarded_without_pid by done.
    unfold input_stage.
    destruct (Hdelay st0) as (slept & Hslept & Hshape).
    destruct (Hrest ActionResult_init (delay_stage o st0)) as [-> ->]; [done.. |].
    intros [= <- <-]. eexists. repeat split.
    exists [], slept. rewrite Hslept. split; [done |]. split; [by left | done].
Qed.

(** X10: [perform_action] assigns to no options instance that existed
    before the call, whether the caller passed one or not. *)
Theorem perform_action_keeps_existing_options action options st r st' :
  match options with
  | Some self => is_Some (store st !! self)
  | None => True
  end ->
  perform_action action options st = (r, st') ->
  forall (other : ref) (fields : ActionOptions),
    store st !! other = Some fields -> store st' !! other = Some fields.
Proof.
  intros Hself Hrun other fields Hother. unfold perform_action in Hrun.
  destruct (validate_options options (store st)) as [o h] eqn:Hvalid.
  apply run_stages_store in Hrun. rewrite Hrun. cbn [store].
  unfold validate_options in Hvalid.
  destruct options as [self |].
  - destruct Hself as [mine Hmine].
    rewrite (validated_unfold _ _ _ Hmine) in Hvalid. injection Hvalid as <- <-.
    rewrite lookup_insert_ne; [done |].
    pose proof (fresh_ref_unused (store st)). congruence.
  - unfold ActionOptions_new in Hvalid.
    rewrite (validated_unfold _ _ ActionOptions_default (lookup_insert_eq _ _ _))
      in Hvalid.
    injection Hvalid as <- <-.
    pose proof (fresh_ref_unused (store st)) as Hfresh1.
    pose proof (fresh_ref_unused
                  (<[fresh (dom (store st)) := ActionOptions_default]> (store st)))
      as Hfresh2.
    rewrite lookup_insert_ne.
    + rewrite lookup_insert_ne; [done | congruence].
    + intros Heq. rewrite Heq in Hfresh2.
      rewrite lookup_insert_ne in Hfresh2 by congruence. congruence.
Qed.

(** X11: a point that lacks a coordinate stops an input action before any
    tool is run.  The action raises [KeyError] for the first missing
    coordinate and leaves the state as it was; [perform_action] records the
    quoted key as the primary-action error. *)
Theorem missing_coordinate_runs_no_tool (point : Point) (action : InputAction.t)
    (key : string) :
  (action = InputAction.Click point
   \/ action = InputAction.DoubleClick point
   \/ action = InputAction.RightClick point
   \/ action = InputAction.Move point
   \/ exists delta_y delta_x, action = InputAction.Scroll point delta_y delta_x) ->
  ((key = "x"%string /\ List.find (fun kv => String.eqb (fst kv) "x") point = None)
   \/ (key = "y"%string
       /\ is_Some (List.find (fun kv => String.eqb (fst kv) "x") point)
       /\ List.find (fun kv => String.eqb (fst kv) "y") point = None)) ->
  (forall options st,
     _execute_input_action action options st
     = (Raise (mkExc KeyError ("'" +:+ key +:+ "'")), st))
  /\ (forall options st,
        exists st',
          perform_action (PrimaryAction.Input action) options st
          = (Ok (mkActionResult None None None None None
                   (Some ("'" +:+ key +:+ "'")) None None),
             st')
          /\ (log st' = log st \/ exists seconds, log st' = log st ++ [Slept seconds])).
Proof.
  intros Haction Hmissing.
  assert (forall k st, with_point point k st
                       = (Raise (mkExc KeyError ("'" +:+ key +:+ "'")), st))
    as Hpoint.
  { intros k st. unfold with_point, getitem.
    destruct Hmissing as [[-> ->] | (-> & [kv ->] & ->)]; done. }
  assert (forall options st,
             _execute_input_action action options st
             = (Raise (mkExc KeyError ("'" +:+ key +:+ "'")), st)) as Hexec.
  { intros options st.
    destruct Haction as [-> | [-> | [-> | [-> | (dy & dx & ->)]]]]; apply Hpoint. }
  split; [done |]. intros options st.
  unfold perform_action.
  destruct (validate_options options (store st)) as [o h].
  unfold run_stages, open_stage, later_stages, before_stage.
  rewrite guarded_without_pid by done.
  unfold input_stage. rewrite Hexec. cbn [exc_str].
  unfold after_stage. rewrite guarded_without_pid by done.
  unfold diff_stage. cbn [traversal_before with_primary_action_error ActionResult_init].
  eexists. split; [done |].
  unfold delay_stage. case_match; cbn [log]; [right; by eexists | by left].
Qed.

(** X12: asking for the diff alone makes both traversals run after a
    successful open, and the diff is taken outside every handler: when both
    traversals return a snapshot, the call returns the full result with the
    diff when the differ returns one, and raises what the differ raises
    otherwise, the snapshots being lost. *)
Theorem requested_diff_decides_the_outcome identifier (self : ref)
    (fields : ActionOptions) st o h opened st1 before st2 after st3 :
  store st !! self = Some fields ->
  show_diff fields = true ->
  validate_options (Some self) (store st) = (o, h) ->
  open_application identifier (mkState (world st) (log st) h) = (Ok opened, st1) ->
  pid opened <> 0 ->
  traverse_accessibility_tree (inl (pid opened)) (only_visible_elements fields) st1
  = (Ok before, st2) ->
  traverse_accessibility_tree (inl (pid opened)) (only_visible_elements fields)
    (delay_stage o st2)
  = (Ok after, st3) ->
  perform_action (PrimaryAction.Open identifier) (Some self) st
  = (match _generate_traversal_diff before after with
     | Ok diff =>
         Ok (mkActionResult (Some opened) (Some (pid opened)) (Some before)
               (Some after) (Some diff) None None None)
     | Raise e => Raise e
     end,
     st3).
Proof.
  intros Hself Hdiff Hvalid Hopen Hpid Hbefore Hafter.
  pose proof Hvalid as Hvalid'. unfold validate_options in Hvalid'.
  rewrite (validated_unfold _ _ _ Hself) in Hvalid'. injection Hvalid' as Ho Hh.
  assert (h !! o = Some (mkActionOptions true true true
                           (only_visible_elements fields) (show_animation fields)
                           (animation_duration fields) (pid_for_traversal fields)
                           (delay_after_action fields))) as Hfields.
  { rewrite <- Hh, <- Ho, lookup_insert_eq. by rewrite Hdiff. }
  apply deref_lookup in Hfields.
  pose proof (open_application_effects _ _ _ _ Hopen) as [Hstore1 _].
  pose proof (traverse_accessibility_tree_store _ _ _ _ _ Hbefore) as Hstore2.
  pose proof (traverse_accessibility_tree_store _ _ _ _ _ Hafter) as Hstore3.
  rewrite delay_stage_store in Hstore3. simpl in Hstore1.
  unfold perform_action, run_stages, open_stage.
  rewrite Hvalid, Hopen.
  unfold later_stages, before_stage, guarded.
  cbn [traversal_pid with_traversal_pid with_open_result].
  rewrite Hstore1, Hfields. cbn [traverse_before only_visible_elements].
  apply Z.eqb_neq in Hpid. rewrite Hpid. cbn [andb negb]. rewrite Hbefore.
  unfold input_stage, after_stage, guarded.
  cbn [traversal_pid with_traversal_before with_traversal_pid].
  rewrite delay_stage_store, Hstore2, Hstore1, Hfields.
  cbn [traverse_after only_visible_elements]. rewrite Hpid. cbn [andb negb].
  rewrite Hafter.
  unfold diff_stage.
  cbn [traversal_before traversal_after with_traversal_after with_traversal_before].
  rewrite Hstore3, Hstore2, Hstore1, Hfields. cbn [show_diff].
  by destruct (_generate_traversal_diff before after).
Qed.

End MoreStages.

(** ** More on option validation *)

Section MoreValidation.
Implicit Types (h : Store) (self : ref) (o : ActionOptions).

(** X13: validating twice changes nothing more.  The instance returned by
    a second [validated] holds the same fields as the first one, which is
    itself left as it was; and options without a requested diff are copied
    as they are. *)
Theorem validated_is_idempotent h self o :
  h !! self = Some o ->
  exists first h1 second h2 v,
    validated self h = (first, h1)
    /\ validated first h1 = (second, h2)
    /\ h1 !! first = Some v
    /\ h2 !! second = Some v
    /\ h2 !! first = Some v
    /\ second <> first
    /\ (show_diff o = false -> v = o).
Proof.
  intros Hself.
  pose proof (validated_unfold _ _ _ Hself) as Hfirst.
  eexists _, _, _, _, _. split; [exact Hfirst |].
  split; [apply validated_unfold, lookup_insert_eq |].
  split; [apply lookup_insert_eq |].
  pose proof (fresh_ref_unused
                (<[fresh (dom h) :=
                     mkActionOptions
                       (if show_diff o then true else traverse_before o)
                       (if show_diff o then true else traverse_after o)
                       (show_diff o) (only_visible_elements o) (show_animation o)
                       (animation_duration o) (pid_for_traversal o)
                       (delay_after_action o)]> h)) as Hfresh.
  assert (fresh (dom (<[fresh (dom h) :=
                     mkActionOptions
                       (if show_diff o then true else traverse_before o)
                       (if show_diff o then true else traverse_after o)
                       (show_diff o) (only_visible_elements o) (show_animation o)
                       (animation_duration o) (pid_for_traversal o)
                       (delay_after_action o)]> h)) <> fresh (dom h)) as Hne.
  { intros Heq. rewrite Heq, lookup_insert_eq in Hfresh. done. }
  split; [| split; [| split]].
  - rewrite lookup_insert_eq. cbn. f_equal. by destruct o as [? ? [] ? ? ? ? ?].
  - by rewrite lookup_insert_ne, lookup_insert_eq.
  - done.
  - intros Hd. destruct o. simpl in *. by rewrite Hd.
Qed.

End MoreValidation.

(** ** The running applications *)

Section AppsText.
Implicit Types (s t e rest sep nm bundle : string) (c d : ascii).
Implicit Types (parts : list string) (z : Z).

Lemma split_char_nonempty c s : split_char c s <> [].
Proof.
  destruct s as [| d s]; simpl; [done |].
  destruct (Ascii.eqb d c); [done |]. by destruct (split_char c s).
Qed.

(** Splitting at a character splits on both sides of an occurrence. *)
Lemma split_char_append c s t :
  split_char c (s +:+ String c t) = split_char c s ++ split_char c t.
Proof.
  induction s as [| d s IH].
  - rewrite append_nil_l. simpl. by rewrite Ascii.eqb_refl.
  - rewrite append_cons. simpl. rewrite IH.
    destruct (Ascii.eqb d c); [done |].
    pose proof (split_char_nonempty c s). by destruct (split_char c s).
Qed.

Lemma contains_char_cons c d s :
  contains (String c EmptyString) (String d s)
  = Ascii.eqb c d || contains (String c EmptyString) s.
Proof. simpl. destruct (Ascii.eqb c d); [| done]. by destruct s. Qed.

Lemma split_char_whole c s :
  contains (String c EmptyString) s = false -> split_char c s = [s].
Proof.
  induction s as [| d s IH]; [done |].
  rewrite contains_char_cons. intros [Hd Hs]%orb_false_elim.
  simpl. by rewrite Ascii.eqb_sym, Hd, (IH Hs).
Qed.

Lemma contains_char_chars c s :
  Forall (fun d => d <> c) (list_ascii_of_string s) ->
  contains (String c EmptyString) s = false.
Proof.
  induction s as [| d s IH]; [done |].
  simpl list_ascii_of_string. intros [Hd Hs]%Forall_cons.
  rewrite contains_char_cons, (IH Hs), orb_false_r.
  apply Ascii.eqb_neq. congruence.
Qed.

(** A text without the first character of a needle is without the needle. *)
Lemma contains_first_char c sub s :
  contains (String c EmptyString) s = false -> contains (String c sub) s = false.
Proof.
  intros Hc. destruct (contains (String c sub) s) eqn:Hsub; [| done].
  apply contains_spec in Hsub as (pre & post & ->).
  rewrite <- Hc. symmetry.
  apply contains_spec. exists pre, (sub +:+ post).
  by rewrite !append_cons, append_nil_l.
Qed.

Lemma join_fold sep parts s t :
  fold_left (fun acc part => acc +:+ sep +:+ part) parts (s +:+ t)
  = s +:+ fold_left (fun acc part => acc +:+ sep +:+ part) parts t.
Proof.
  revert t. induction parts as [| p parts IH]; intros t; simpl; [done |].
  by rewrite append_assoc, IH.
Qed.

Lemma join_cons sep s t parts :
  Apps.join sep (s :: t :: parts) = s +:+ sep +:+ Apps.join sep (t :: parts).
Proof. unfold Apps.join. simpl. by rewrite !join_fold. Qed.

Lemma join_head sep c s parts :
  Apps.join sep (String c s :: parts) = String c (Apps.join sep (s :: parts)).
Proof.
  unfold Apps.join.
  change (String c s) with (String c EmptyString +:+ s).
  by rewrite join_fold, append_cons, append_nil_l.
Qed.

(** [sep.join(s.split(sep)) == s] for a separator of one character. *)
Lemma join_split_char c s :
  Apps.join (String c EmptyString) (split_char c s) = s.
Proof.
  induction s as [| d s IH]; [done |]. simpl.
  pose proof (split_char_nonempty c s) as Hne.
  destruct (Ascii.eqb_spec d c) as [-> | Hdc];
    destruct (split_char c s) as [| first others]; try done.
  - by rewrite join_cons, IH, append_nil_l, append_cons, append_nil_l.
  - by rewrite join_head, IH.
Qed.

(** An entry written as name, process id and bundle id is read back as
    that application, whatever commas the name has. *)
Lemma parse_entry_fields nm pid_str bundle z :
  contains "," pid_str = false ->
  contains "," bundle = false ->
  int_of_str pid_str = Ok z ->
  Apps.parse_entry (nm +:+ "," +:+ pid_str +:+ "," +:+ bundle)
  = Some (Apps.mkApp z bundle nm).
Proof.
  intros Hpid Hbundle Hint. unfold Apps.parse_entry.
  change ("," +:+ pid_str +:+ "," +:+ bundle)
    with (String "," (pid_str +:+ String "," bundle)).
  rewrite !split_char_append, (split_char_whole _ _ Hpid),
    (split_char_whole _ _ Hbundle).
  pose proof (join_split_char "," nm) as Hjoin.
  pose proof (split_char_nonempty "," nm) as Hne.
  set (ps := split_char "," nm) in *.
  assert (length (ps ++ [pid_str; bundle]) = (length ps + 2)%nat) as Hlen.
  { rewrite length_app. simpl. lia. }
  change (ps ++ [pid_str] ++ [bundle]) with (ps ++ [pid_str; bundle]).
  rewrite Hlen.
  assert ((3 <=? length ps + 2)%nat = true) as ->.
  { apply Nat.leb_le. destruct ps; [done | simpl; lia]. }
  assert (nth (length ps + 2 - 2) (ps ++ [pid_str; bundle]) EmptyString = pid_str)
    as ->.
  { rewrite app_nth2 by lia.
    by replace (length ps + 2 - 2 - length ps)%nat with O by lia. }
  assert (nth (length ps + 2 - 1) (ps ++ [pid_str; bundle]) EmptyString = bundle)
    as ->.
  { rewrite app_nth2 by lia.
    by replace (length ps + 2 - 1 - length ps)%nat with 1%nat by lia. }
  replace (length ps + 2 - 2)%nat with (length ps) by lia.
  rewrite take_app_length, Hint. do 2 f_equal.
  destruct ps as [| first [| second others]]; [done | done |].
  simpl length.
  by assert ((3 <? S (S (length others)) + 2)%nat = true) as ->
    by (apply Nat.ltb_lt; lia).
Qed.

Lemma contains_cons sub c s :
  contains sub (String c s) = startswith sub (String c s) || contains sub s.
Proof. done. Qed.

Lemma startswith_separator c s :
  startswith ", " (String c s) = Ascii.eqb "," c && startswith " " s.
Proof. cbn [startswith]. by destruct (Ascii.eqb "," c). Qed.

Lemma startswith_space_append s t :
  startswith " " s = false ->
  startswith " " t = false ->
  startswith " " (s +:+ t) = false.
Proof.
  destruct s as [| d s]; [by rewrite append_nil_l |].
  rewrite append_cons. cbn [startswith]. by destruct (Ascii.eqb " " d).
Qed.

(** No ", " across the seam of two texts that have none, when the second
    does not start with the space. *)
Lemma no_separator_append s t :
  contains ", " s = false ->
  contains ", " t = false ->
  startswith " " t = false ->
  contains ", " (s +:+ t) = false.
Proof.
  intros Hs Ht Hspace. induction s as [| c s IH]; [by rewrite append_nil_l |].
  rewrite append_cons. rewrite contains_cons in Hs |- *.
  apply orb_false_elim in Hs as [Hstart Hs]. rewrite (IH Hs), orb_false_r.
  rewrite startswith_separator in Hstart |- *.
  destruct (Ascii.eqb "," c); [| done].
  cbn [andb] in Hstart |- *. by apply startswith_space_append.
Qed.

Lemma split_separator_append e rest :
  contains ", " e = false ->
  Apps.split ", " (e +:+ ", " +:+ rest) = e :: Apps.split ", " rest.
Proof.
  unfold Apps.split. induction e as [| c e IH]; intros He.
  - rewrite append_nil_l. by destruct rest.
  - rewrite append_cons. rewrite contains_cons in He.
    apply orb_false_elim in He as [Hstart He].
    cbn [Apps.split_from]. rewrite (IH He).
    assert (startswith ", " (String c (e +:+ ", " +:+ rest)) = false) as ->; [| done].
    rewrite startswith_separator in Hstart |- *.
    destruct (Ascii.eqb "," c); [| done].
    cbn [andb] in Hstart |- *. by apply startswith_space_append.
Qed.

Lemma split_separator_whole e :
  contains ", " e = false -> Apps.split ", " e = [e].
Proof.
  unfold Apps.split. induction e as [| c e IH]; intros He; [done |].
  rewrite contains_cons in He. apply orb_false_elim in He as [Hstart He].
  cbn [Apps.split_from]. by rewrite Hstart, (IH He).
Qed.

(** The digits of a number, with the sign of a negative one. *)
Lemma pretty_Z_chars z :
  exists c s,
    pretty z = String c s
    /\ is_space c = false
    /\ contains "," (pretty z) = false.
Proof.
  assert (forall p : positive,
            exists c s,
              pretty (N.pos p) = String c s
              /\ is_space c = false
              /\ contains "," (pretty (N.pos p)) = false) as Hpos.
  { intros p.
    assert (Forall (fun c => is_Some (digit_value c))
              (list_ascii_of_string (pretty (N.pos p)))) as Hchars.
    { unfold pretty, pretty_N. rewrite decide_False by done.
      by apply pretty_N_go_chars. }
    destruct (pretty_N_go_head (N.pos p) EmptyString) as (c & s & Hshape & _);
      [done |].
    assert (pretty (N.pos p) = String c s) as Hpretty.
    { unfold pretty, pretty_N. by rewrite decide_False by done. }
    rewrite Hpretty in Hchars |- *.
    exists c, s. split; [done |]. simpl in Hchars.
    split.
    - apply Forall_cons in Hchars as [Hc _]. by apply digit_is_not_space.
    - apply contains_char_chars. eapply Forall_impl; [done |].
      intros d [v Hd] ->. by vm_compute in Hd. }
  destruct z as [| p | p].
  - by exists "0"%char, EmptyString.
  - apply Hpos.
  - destruct (Hpos p) as (c & s & Heq & Hc & Hcomma).
    assert (pretty (Z.neg p) = String "-" (pretty (N.pos p))) as -> by done.
    exists "-"%char, (pretty (N.pos p)). split; [done |]. split; [done |].
    by rewrite contains_char_cons, Hcomma.
Qed.

End AppsText.

Section RunningApps.
Context {P : Platform}.
Implicit Types (st : State) (result : CompletedProcess) (app : Apps.App).
Implicit Types (apps : list Apps.App) (identifier : string).

Lemma entry_of_no_separator app :
  Apps.listable app -> contains ", " (Apps.entry_of app) = false.
Proof.
  intros (Hname & Hcomma & Hspace & _). unfold Apps.entry_of.
  destruct (pretty_Z_chars (Apps.app_pid app)) as (c & s & Hpretty & Hc & Hpid).
  assert (startswith " " (pretty (Apps.app_pid app)) = false) as Hdigit.
  { rewrite Hpretty. cbn [startswith].
    destruct (Ascii.eqb_spec " " c) as [<- | _]; [by vm_compute in Hc | done]. }
  apply no_separator_append; [done | | done].
  change ("," +:+ pretty (Apps.app_pid app) +:+ "," +:+ Apps.bundle_id app)
    with (String "," (pretty (Apps.app_pid app) +:+ String "," (Apps.bundle_id app))).
  rewrite contains_cons, startswith_separator.
  rewrite startswith_space_append, andb_false_r by done. cbn [orb].
  apply no_separator_append; [by apply contains_first_char | | done].
  rewrite contains_cons, startswith_separator, Hspace, andb_false_r.
  by apply contains_first_char.
Qed.

Lemma parse_entry_of app :
  Apps.listable app -> Apps.parse_entry (Apps.entry_of app) = Some app.
Proof.
  intros (Hname & Hcomma & Hspace & Hpid). unfold Apps.entry_of.
  destruct (pretty_Z_chars (Apps.app_pid app)) as (c & s & Hpretty & Hc & Hdigits).
  rewrite (parse_entry_fields _ _ _ (Apps.app_pid app));
    [by destruct app | done | done | by apply int_of_str_pretty].
Qed.

Lemma join_next sep s parts :
  parts <> [] -> Apps.join sep (s :: parts) = s +:+ sep +:+ Apps.join sep parts.
Proof. destruct parts as [| t parts]; [done |]. intros _. apply join_cons. Qed.

(** [", ".join(parts).split(", ") == parts] for parts without ", ". *)
Lemma split_join_separator (parts : list string) :
  parts <> [] ->
  Forall (fun part => contains ", " part = false) parts ->
  Apps.split ", " (Apps.join ", " parts) = parts.
Proof.
  induction parts as [| part [| part' parts] IH]; intros Hne Hparts; [done | |].
  - apply Forall_cons in Hparts as [Hpart _].
    unfold Apps.join. simpl fold_left. by apply split_separator_whole.
  - apply Forall_cons in Hparts as [Hpart Hparts].
    rewrite join_cons, split_separator_append by done.
    f_equal. by apply IH.
Qed.

(** A part with the separator in it joins like the two parts on both sides
    of the separator. *)
Lemma join_through_separator sep (before after : list string) s t :
  Apps.join sep (before ++ (s +:+ sep +:+ t) :: after)
  = Apps.join sep (before ++ s :: t :: after).
Proof.
  induction before as [| part before IH].
  - cbn [app]. rewrite (join_cons sep s t after).
    destruct after as [| part after]; [done |].
    by rewrite !join_cons, !append_assoc.
  - cbn [app]. rewrite !join_next by by destruct before. by rewrite IH.
Qed.

Lemma omap_parse_entry_of apps :
  Forall Apps.listable apps -> omap Apps.parse_entry (map Apps.entry_of apps) = apps.
Proof.
  induction apps as [| app apps IH]; intros Happs; [done |].
  apply Forall_cons in Happs as [Happ Happs].
  cbn [map omap list_omap]. by rewrite parse_entry_of, IH.
Qed.

Lemma parse_listing_of apps :
  Forall Apps.listable apps -> Apps.parse_listing (Apps.listing_of apps) = apps.
Proof.
  intros Happs. destruct apps as [| app apps]; [done |].
  unfold Apps.parse_listing, Apps.listing_of.
  rewrite split_join_separator; [by apply omap_parse_entry_of | done |].
  apply Forall_fmap. eapply Forall_impl; [done |].
  intros a Ha. by apply entry_of_no_separator.
Qed.

(** With osascript run to its end without an error status, the apps are
    those read from its stripped output. *)
Lemma list_running_applications_listed st result w :
  subprocess_run Apps.osascript (world st) = (Ok result, w) ->
  returncode result = 0 ->
  Apps.list_running_applications st
  = (Apps.parse_listing (strip (stdout result)), Apps.after_osascript st w).
Proof.
  unfold Apps.list_running_applications, Apps.osascript, Apps.after_osascript.
  intros -> ->. simpl.
  destruct (String.eqb_spec (strip (stdout result)) EmptyString) as [-> | _]; done.
Qed.

(** X14: every application that osascript lists is returned, in order,
    with its name, process id and bundle id, when no name has ", " in it and
    no bundle id has a comma or starts with a space.  Commas alone in a name
    do no harm. *)
Theorem listed_applications_are_read_back st result w apps :
  subprocess_run Apps.osascript (world st) = (Ok result, w) ->
  returncode result = 0 ->
  strip (stdout result) = Apps.listing_of apps ->
  Forall Apps.listable apps ->
  Apps.list_running_applications st = (apps, Apps.after_osascript st w).
Proof.
  intros Hrun Hcode Hout Happs.
  rewrite (list_running_applications_listed _ _ _ Hrun Hcode), Hout.
  by rewrite parse_listing_of.
Qed.

(** X15: an application whose name has ", " in it is not returned under
    its name, wherever it stands in the listing.  With no comma before the
    ", ", it is returned under what follows the ", " in the name; the
    applications listed before and after it are returned as they are. *)
Theorem name_with_separator_is_cut st result w (before after : list Apps.App)
    front back z bundle :
  subprocess_run Apps.osascript (world st) = (Ok result, w) ->
  returncode result = 0 ->
  strip (stdout result)
  = Apps.listing_of
      (before ++ Apps.mkApp z bundle (front +:+ ", " +:+ back) :: after) ->
  contains "," front = false ->
  Apps.listable (Apps.mkApp z bundle back) ->
  Forall Apps.listable before ->
  Forall Apps.listable after ->
  Apps.list_running_applications st
  = (before ++ Apps.mkApp z bundle back :: after, Apps.after_osascript st w).
Proof.
  intros Hrun Hcode Hout Hfront Hback Hbefore Hafter.
  rewrite (list_running_applications_listed _ _ _ Hrun Hcode), Hout.
  f_equal. unfold Apps.listing_of, Apps.parse_listing.
  rewrite map_app. cbn [map].
  assert (Apps.entry_of (Apps.mkApp z bundle (front +:+ ", " +:+ back))
          = front +:+ ", " +:+ Apps.entry_of (Apps.mkApp z bundle back)) as ->.
  { unfold Apps.entry_of. cbn [Apps.name Apps.app_pid Apps.bundle_id].
    by rewrite !append_assoc. }
  rewrite join_through_separator.
  rewrite split_join_separator.
  - rewrite omap_app. cbn [omap list_omap].
    rewrite !omap_parse_entry_of, parse_entry_of by done.
    unfold Apps.parse_entry at 1. by rewrite (split_char_whole _ _ Hfront).
  - by destruct (map Apps.entry_of before).
  - apply Forall_app. split; [| repeat constructor].
    + apply Forall_fmap. eapply Forall_impl; [exact Hbefore |].
      intros a Ha. by apply entry_of_no_separator.
    + by apply contains_first_char.
    + by apply entry_of_no_separator.
    + apply Forall_fmap. eapply Forall_impl; [exact Hafter |].
      intros a Ha. by apply entry_of_no_separator.
Qed.

Lemma find_none_Forall {A} (f : A -> bool) (l : list A) :
  List.find f l = None <-> Forall (fun a => f a = false) l.
Proof.
  induction l as [| a l IH]; simpl.
  - split; [by constructor | done].
  - destruct (f a) eqn:Hfa.
    + split; [done |]. intros [Hfalse _]%Forall_cons. congruence.
    + rewrite IH. split; [by constructor |]. by intros [_ Hl]%Forall_cons.
Qed.

Lemma startswith_refl s : startswith s s = true.
Proof. induction s as [| c s IH]; simpl; [done |]. by rewrite Ascii.eqb_refl. Qed.

Lemma contains_refl s : contains s s = true.
Proof. destruct s; simpl; [done |]. by rewrite Ascii.eqb_refl, startswith_refl. Qed.

Lemma find_pid_none apps identifier :
  Apps.find_pid apps identifier = None
  <-> Forall (fun app => ~ Apps.matches identifier app) apps.
Proof.
  unfold Apps.find_pid, Apps.matches. split.
  - intros Hnone.
    destruct (List.find _ apps) eqn:Hbundle in Hnone; [done |].
    destruct (List.find _ apps) eqn:Hexact in Hnone; [done |].
    destruct (List.find _ apps) eqn:Hpart in Hnone; [done |].
    apply find_none_Forall in Hbundle, Hpart.
    apply List.Forall_forall. intros app Hin.
    rewrite List.Forall_forall in Hbundle, Hpart.
    specialize (Hbundle app Hin). specialize (Hpart app Hin).
    apply String.eqb_neq in Hbundle. intros [Heq | Hin']; congruence.
  - intros Hnone.
    assert (List.find (fun app => String.eqb (Apps.bundle_id app) identifier) apps
            = None) as ->.
    { apply find_none_Forall. eapply Forall_impl; [done |].
      intros app Happ. apply String.eqb_neq. intros Heq. apply Happ. by left. }
    assert (List.find
              (fun app => String.eqb (lower (Apps.name app)) (lower identifier)) apps
            = None) as ->.
    { apply find_none_Forall. eapply Forall_impl; [done |].
      intros app Happ. apply String.eqb_neq. intros Heq. apply Happ. right.
      rewrite Heq. apply contains_refl. }
    assert (List.find
              (fun app => contains (lower identifier) (lower (Apps.name app))) apps
            = None) as ->; [| done].
    apply find_none_Forall. eapply Forall_impl; [done |].
    intros app Happ. simpl in Happ.
    destruct (contains _ _) eqn:Hpart; [| done]. exfalso. apply Happ. by right.
Qed.

Lemma find_pid_some apps identifier z :
  Apps.find_pid apps identifier = Some z ->
  exists app, In app apps /\ Apps.app_pid app = z /\ Apps.matches identifier app.
Proof.
  unfold Apps.find_pid, Apps.matches. intros Hsome.
  destruct (List.find _ apps) as [app |] eqn:Hbundle in Hsome.
  { apply List.find_some in Hbundle as [Hin Heq]. apply String.eqb_eq in Heq.
    exists app. split; [done |]. split; [congruence | by left]. }
  destruct (List.find _ apps) as [app |] eqn:Hexact in Hsome.
  { apply List.find_some in Hexact as [Hin Heq]. apply String.eqb_eq in Heq.
    exists app. split; [done |]. split; [congruence |]. right.
    rewrite Heq. apply contains_refl. }
  destruct (List.find _ apps) as [app |] eqn:Hpart in Hsome; [| done].
  apply List.find_some in Hpart as [Hin Heq].
  exists app. split; [done |]. split; [congruence | by right].
Qed.

(** X16: [find_running_app_pid] finds nothing exactly when no listed
    application has the identifier as its bundle id or, letter case ignored,
    within its name; a process id that it finds is the one of a listed
    application that does. *)
Theorem find_running_app_pid_matches identifier st :
  ((Apps.find_running_app_pid identifier st).1 = None
   <-> Forall (fun app => ~ Apps.matches identifier app)
         (Apps.list_running_applications st).1)
  /\ (forall z,
        (Apps.find_running_app_pid identifier st).1 = Some z ->
        exists app,
          In app (Apps.list_running_applications st).1
          /\ Apps.app_pid app = z
          /\ Apps.matches identifier app)
  /\ (Apps.find_running_app_pid identifier st).2
     = (Apps.list_running_applications st).2.
Proof.
  unfold Apps.find_running_app_pid.
  destruct (Apps.list_running_applications st) as [apps st']. simpl.
  split; [apply find_pid_none |]. split; [| done].
  intros z. apply find_pid_some.
Qed.

(** X17: a bundle id that [get_pid_by_bundle_id] resolves is resolved to
    the same process id by [find_running_app_pid], whatever the names of the
    applications listed before it; both leave the same state. *)
Theorem bundle_id_comes_before_names bundle st z st' :
  Apps.get_pid_by_bundle_id bundle st = (Some z, st') ->
  Apps.find_running_app_pid bundle st = (Some z, st').
Proof.
  unfold Apps.get_pid_by_bundle_id, Apps.find_running_app_pid, Apps.find_pid.
  destruct (Apps.list_running_applications st) as [apps st''].
  destruct (List.find _ apps) as [app |]; simpl; [| done].
  by intros [= -> ->].
Qed.

(** X18: the empty identifier is resolved whenever an application is
    listed, since the empty text is within every name. *)
Theorem empty_identifier_is_resolved st app apps st' :
  Apps.list_running_applications st = (app :: apps, st') ->
  exists z, Apps.find_running_app_pid EmptyString st = (Some z, st').
Proof.
  intros Hlist. unfold Apps.find_running_app_pid. rewrite Hlist.
  destruct (Apps.find_pid (app :: apps) EmptyString) as [z |] eqn:Hfind;
    [by exists z |].
  apply find_pid_none in Hfind. apply Forall_cons in Hfind as [Happ _].
  exfalso. apply Happ. right. simpl. by destruct (lower (Apps.name app)).
Qed.

Lemma parse_ps_line_bundle line app :
  Apps.parse_ps_line line = Some app ->
  exists rest, Apps.bundle_id app = "unknown." +:+ rest.
Proof.
  unfold Apps.parse_ps_line. intros Hline.
  repeat case_match; simplify_eq. by eexists.
Qed.


End RunningApps.

(** ** The command line *)

Section CliText.
Implicit Types (s : string) (c : ascii) (acc : Z) (n : N).

Lemma is_digit_char_not_int_space c :
  Cli.is_digit_char c = true -> is_int_space c = false.
Proof. destruct c as [[] [] [] [] [] [] [] []]; by vm_compute. Qed.

(** A character that [isdigit] accepts is no sign, underscore, quote or
    backslash, and [repr] writes it as it is. *)
Lemma is_digit_char_plain c :
  Cli.is_digit_char c = true ->
  c <> "-"%char /\ c <> "+"%char /\ c <> "_"%char /\ c <> "'"%char
  /\ repr_char "'" c = String c EmptyString.
Proof. destruct c as [[] [] [] [] [] [] [] []]; by vm_compute. Qed.

Lemma digit_is_digit_char c : is_Some (digit_value c) -> Cli.is_digit_char c = true.
Proof.
  intros [d Hd]. destruct c as [[] [] [] [] [] [] [] []]; by vm_compute in *.
Qed.

Lemma isdigit_chars s :
  Cli.isdigit s = true ->
  s <> EmptyString /\ forallb Cli.is_digit_char (list_ascii_of_string s) = true.
Proof. by destruct s. Qed.

(** [repr] puts single quotes around a text that [isdigit] accepts. *)
Lemma repr_isdigit s :
  forallb Cli.is_digit_char (list_ascii_of_string s) = true ->
  repr s = "'" +:+ s +:+ "'".
Proof.
  intros Hall.
  assert (contains "'" s = false /\ repr_chars "'" s = s) as [Hquote Hchars].
  { induction s as [| c s IH]; [done |].
    simpl in Hall. apply andb_prop in Hall as [Hc Hall].
    destruct (IH Hall) as [Hquote Hchars].
    destruct (is_digit_char_plain c Hc) as (_ & _ & _ & Hc' & Hrepr).
    split.
    - cbn [contains startswith]. apply Ascii.eqb_neq in Hc'.
      rewrite Ascii.eqb_sym, Hc', Hquote. done.
    - cbn [repr_chars]. by rewrite Hrepr, Hchars. }
  unfold repr. rewrite Hquote. cbn [andb]. by rewrite Hchars.
Qed.

(** The scan of a text that [isdigit] accepts stops at its first character
    that is not a decimal digit. *)
Lemma scan_digits_superscript s :
  forall acc n,
    forallb Cli.is_digit_char (list_ascii_of_string s) = true ->
    Exists (fun c => digit_value c = None) (list_ascii_of_string s) ->
    exists z k c rest,
      scan_digits acc n false s = Some (z, (n + k)%N, String c rest)
      /\ (k <= N.of_nat (String.length s))%N
      /\ Cli.is_digit_char c = true.
Proof.
  induction s as [| c s IH]; intros acc n Hall Hsome; simpl in Hall, Hsome.
  - by apply Exists_nil in Hsome.
  - apply andb_prop in Hall as [Hc Hall].
    cbn [scan_digits String.length].
    destruct (digit_value c) as [d |] eqn:Hvalue.
    + apply Exists_cons in Hsome as [Hhere | Hlater];
        [simpl in Hhere; congruence |].
      destruct (IH (10 * acc + d) (n + 1)%N Hall Hlater)
        as (z & k & c' & rest & -> & Hk & Hc').
      exists z, (1 + k)%N, c', rest. split; [by rewrite N.add_assoc |].
      split; [lia | done].
    + destruct (is_digit_char_plain c Hc) as (_ & _ & Hunderscore & _).
      apply Ascii.eqb_neq in Hunderscore as ->.
      exists acc, 0%N, c, s. split; [by rewrite N.add_0_r |]. split; [lia | done].
Qed.

(** The scan of decimal digits passes them all. *)
Lemma scan_digits_decimal s :
  forall acc n (after_underscore : bool),
    0 <= acc ->
    Forall (fun c => is_Some (digit_value c)) (list_ascii_of_string s) ->
    s <> EmptyString ->
    exists z,
      0 <= z
      /\ scan_digits acc n after_underscore s
         = Some (z, (n + N.of_nat (String.length s))%N, EmptyString).
Proof.
  induction s as [| c s IH]; intros acc n after_underscore Hacc Hall Hne; [done |].
  simpl in Hall. apply Forall_cons in Hall as [[d Hd] Hall].
  cbn [scan_digits String.length]. rewrite Hd.
  assert (0 <= d) as Hdigit.
  { unfold digit_value in Hd. cbv zeta in Hd.
    destruct (_ && _) eqn:Hrange in Hd; simplify_eq.
    apply andb_prop in Hrange as [Hlow%N.leb_le _]. lia. }
  destruct s as [| c' s].
  - exists (10 * acc + d). split; [lia |]. cbn [scan_digits String.length].
    by replace (n + 1)%N with (n + N.of_nat 1)%N by lia.
  - destruct (IH (10 * acc + d) (n + 1)%N false ltac:(lia) Hall ltac:(done))
      as (z & Hz & ->).
    exists z. split; [done |].
    by replace (n + 1 + N.of_nat (String.length (String c' s)))%N
      with (n + N.of_nat (S (String.length (String c' s))))%N by lia.
Qed.

(** [int] on a text that [isdigit] accepts, of at most 4300 characters,
    with a digit in it that is not decimal. *)
Lemma int_of_str_superscript s :
  Cli.isdigit s = true ->
  Exists (fun c => digit_value c = None) (list_ascii_of_string s) ->
  (N.of_nat (String.length s) <= 4300)%N ->
  int_of_str s = Raise (invalid_literal s).
Proof.
  intros [Hne Hall]%isdigit_chars Hsome Hlength.
  destruct (scan_digits_superscript s 0 0%N Hall Hsome)
    as (z & k & c' & rest & Hscan & Hk & Hc').
  destruct s as [| c s]; [done |].
  simpl in Hall. apply andb_prop in Hall as [Hc _].
  destruct (is_digit_char_plain c Hc) as (Hminus & Hplus & Hunderscore & _).
  rewrite int_of_str_plain, Hscan
    by (done || by apply is_digit_char_not_int_space).
  unfold max_str_digits. rewrite N.add_0_l.
  assert ((4300 <? k)%N = false) as -> by (apply N.ltb_ge; lia).
  destruct (k =? 0)%N; [done |].
  cbn [skip_int_space]. by rewrite (is_digit_char_not_int_space _ Hc').
Qed.

(** [int] on a text of decimal digits. *)
Lemma int_of_str_decimal s :
  s <> EmptyString ->
  Forall (fun c => is_Some (digit_value c)) (list_ascii_of_string s) ->
  exists z,
    0 <= z
    /\ int_of_str s
       = if (N.of_nat (String.length s) <=? 4300)%N
         then Ok z
         else Raise (exceeds_limit (N.of_nat (String.length s))).
Proof.
  intros Hne Hall.
  destruct (scan_digits_decimal s 0 0%N false ltac:(done) Hall Hne) as (z & Hz & Hscan).
  exists z. split; [done |].
  destruct s as [| c s]; [done |].
  pose proof Hall as Hfirst. simpl in Hfirst. apply Forall_cons in Hfirst as [Hc _].
  rewrite (int_of_str_unsigned _ _ Hc), Hscan, N.add_0_l.
  unfold max_str_digits. rewrite N.ltb_antisym.
  destruct (N.of_nat (String.length (String c s)) <=? 4300)%N eqn:Hlength; [| done].
  cbn [negb]. by destruct (N.of_nat (String.length (String c s)) =? 0)%N eqn:Hzero.
Qed.

End CliText.

Section CliProps.
Context {P : Platform}.
Variable format_2f : float -> string.
Variable json_dumps : value -> string.
Variable write_text : string -> string -> World -> result unit * World.
Implicit Types (st : State) (s : string).

(** X20: an identifier of digits that are not all decimal, such as a
    superscript two, passes [isdigit] and fails in [int]: [traverse] prints
    the text of that ValueError, which quotes the first 199 characters of
    the identifier, to standard error and exits with status 1, without
    looking for an application and without running a tool.  The identifier
    has at most 4300 characters. *)
Theorem superscript_identifier_is_rejected s (visible_only : bool)
    (output_file : option string) st :
  Cli.isdigit s = true ->
  Exists (fun c => digit_value c = None) (list_ascii_of_string s) ->
  (N.of_nat (String.length s) <= 4300)%N ->
  Cli.traverse json_dumps write_text (inr s) visible_only output_file st
  = (Cli.failed
       ("Error traversing accessibility tree: "
          +:+ "invalid literal for int() with base 10: "
          +:+ substring 0 200 ("'" +:+ s +:+ "'")),
     st).
Proof.
  intros Hdigit Hsuper Hlength. unfold Cli.traverse, Cli.convert_identifier.
  rewrite Hdigit, (int_of_str_superscript _ Hdigit Hsuper Hlength).
  cbn [bind]. unfold invalid_literal. cbn [exc_str].
  apply isdigit_chars in Hdigit as [_ Hall]. by rewrite (repr_isdigit _ Hall).
Qed.

(** X21: an identifier of decimal digits is never taken for the name of an
    application.  With at most 4300 digits [traverse] does with it what it
    does with the number it denotes, which is not negative; with more,
    [int] refuses it, and [traverse] prints the text of that ValueError to
    standard error and exits with status 1 without running a tool. *)
Theorem decimal_identifier_is_a_process_id s (visible_only : bool)
    (output_file : option string) st :
  s <> EmptyString ->
  Forall (fun c => is_Some (digit_value c)) (list_ascii_of_string s) ->
  if (N.of_nat (String.length s) <=? 4300)%N
  then
    exists n,
      int_of_str s = Ok n
      /\ 0 <= n
      /\ Cli.traverse json_dumps write_text (inr s) visible_only output_file st
         = Cli.traverse json_dumps write_text (inl n) visible_only output_file st
  else
    Cli.traverse json_dumps write_text (inr s) visible_only output_file st
    = (Cli.failed
         ("Error traversing accessibility tree: "
            +:+ "Exceeds the limit (4300 digits) for integer string conversion: "
            +:+ "value has " +:+ pretty (N.of_nat (String.length s))
            +:+ " digits; use sys.set_int_max_str_digits() to increase the limit"),
       st).
Proof.
  intros Hne Hall.
  destruct (int_of_str_decimal s Hne Hall) as (n & Hn & Hint).
  assert (Cli.isdigit s = true) as Hdigit.
  { destruct s as [| c s]; [done |]. unfold Cli.isdigit.
    apply (proj2 (forallb_forall _ _)). intros d Hin. apply digit_is_digit_char.
    rewrite List.Forall_forall in Hall. by apply Hall. }
  unfold Cli.traverse, Cli.convert_identifier. rewrite Hdigit, Hint.
  destruct (N.of_nat (String.length s) <=? 4300)%N.
  - by exists n.
  - done.
Qed.

Lemma parse_elements_element_data (elems : list ElementData) :
  parse_elements (map Cli.element_data elems)
  = Ok (map (fun e => ElementData_init (role e) (text e) (x e) (y e)
                        (width e) (height e)) elems).
Proof.
  induction elems as [| e elems IH]; [done |].
  simpl map. cbn [parse_elements]. rewrite IH. done.
Qed.

(** X22: the document that [traverse] prints is one that
    [_parse_response_data] accepts.  Read back, it gives the application
    name, the time, the browser flag, three of the counters, the role counts
    and every element in order; the five other counters come back as 0 and
    the browser data is gone. *)
Theorem printed_traversal_is_read_back (r : ResponseData) :
  _parse_response_data (Cli.traverse_data r)
  = Ok (mkResponseData (app_name r)
          (map (fun e => ElementData_init (role e) (text e) (x e) (y e)
                           (width e) (height e)) (elements r))
          (mkStatistics (count (stats r)) (excluded_count (stats r))
             (VInt 0) (VInt 0) (VInt 0) (VInt 0)
             (visible_elements_count (stats r)) (role_counts (stats r)) (VInt 0))
          (processing_time_seconds r) (is_browser r) None).
Proof.
  unfold _parse_response_data, Cli.traverse_data.
  cbn [get entries_get String.eqb Ascii.eqb Bool.eqb default from_option id bind
       iterate].
  unfold parse_statistics.
  cbn [get entries_get String.eqb Ascii.eqb Bool.eqb default from_option id bind].
  by rewrite parse_elements_element_data.
Qed.

Lemma _run_output_controller_action_completed action value st result st' :
  _run_tool_async "OutputControllerTool"
    (action_value action
       :: match value with Some v => [str_of_float v] | None => [] end)
    true st
  = (Ok result, st') ->
  exists message,
    _run_output_controller_action action value st
    = (Ok (mkOutputControllerResult
             (if negb (String.eqb (strip (stdout result)) EmptyString)
              then float_of_str (strip (stdout result)) else None)
             message),
       st').
Proof.
  intros Hrun. unfold _run_output_controller_action. rewrite Hrun. cbn [bind].
  destruct (scan_success_message_total (stderr_lines result) EmptyString)
    as [[_ ->] | (pre & line & post & a & b & _ & _ & _ & _ & ->)]; by eexists.
Qed.

Lemma output_command_completed action value label error_label st result st' :
  _run_tool_async "OutputControllerTool"
    (action_value action
       :: match value with Some v => [str_of_float v] | None => [] end)
    true st
  = (Ok result, st') ->
  Cli.output_command format_2f action value label error_label st
  = (match (if negb (String.eqb (strip (stdout result)) EmptyString)
            then float_of_str (strip (stdout result)) else None) with
     | Some v => Cli.printed [label +:+ format_2f v]
     | None =>
         Cli.failed
           (error_label
              +:+ "unsupported format string passed to NoneType.__format__")
     end,
     st').
Proof.
  intros Hrun. unfold Cli.output_command.
  destruct (_run_output_controller_action_completed action value
              st result st' Hrun) as [message ->].
  unfold bind. cbn [oc_value].
  by destruct (if negb _ then _ else _).
Qed.

(** X23: a volume or brightness command prints the value that the tool
    printed, with two decimals.  When the tool succeeded and printed no
    number, as it may after setting a value, the command still fails: it
    prints the text of the TypeError that formatting [None] raises to
    standard error and exits with status 1. *)
Theorem output_commands_need_a_printed_value (level : float) st result st' :
  (_run_tool_async "OutputControllerTool" ["set-volume"; str_of_float level] true st
   = (Ok result, st') ->
   Cli.set_volume format_2f level st
   = (Cli.reported format_2f "Volume set to: " "Error setting volume: " result, st'))
  /\ (_run_tool_async "OutputControllerTool" ["get-volume"] true st
      = (Ok result, st') ->
      Cli.get_volume format_2f st
      = (Cli.reported format_2f "Current volume: " "Error getting volume: " result, st'))
  /\ (_run_tool_async "OutputControllerTool" ["set-brightness"; str_of_float level]
        true st
      = (Ok result, st') ->
      Cli.set_brightness format_2f level st
      = (Cli.reported format_2f "Brightness set to: " "Error setting brightness: " result, st'))
  /\ (_run_tool_async "OutputControllerTool" ["get-brightness"] true st
      = (Ok result, st') ->
      Cli.get_brightness format_2f st
      = (Cli.reported format_2f "Current brightness: " "Error getting brightness: " result, st')).
Proof.
  repeat split; intros Hrun.
  - by apply (output_command_completed SET_VOLUME (Some level)).
  - by apply (output_command_completed GET_VOLUME None).
  - by apply (output_command_completed SET_BRIGHTNESS (Some level)).
  - by apply (output_command_completed GET_BRIGHTNESS None).
Qed.

(** X24: after the opener succeeded, [open_app] prints the process id that
    the opener printed, the identifier it was given as the name, and the
    time; when the opener printed no number, the ValueError of [int] passes
    through [open_application] as it is, and [open_app] prints its text to
    standard error and exits with status 1. *)
Theorem open_app_reports_what_the_opener_printed identifier st result st' :
  _run_tool_async "AppOpenerTool" [identifier] true st = (Ok result, st') ->
  Cli.open_app identifier st
  = (match int_of_str (strip (stdout result)) with
     | Ok p =>
         Cli.printed
           ["Application opened with PID: " +:+ pretty p;
            "App name: " +:+ identifier;
            "Processing time: "
              +:+ scan_processing_time (stderr_lines result) "0.000" +:+ "s"]
     | Raise e => Cli.failed ("Error opening application: " +:+ exc_str e)
     end,
     st').
Proof.
  intros Hrun. unfold Cli.open_app, open_application. rewrite Hrun. cbn [bind].
  destruct (int_of_str (strip (stdout result))) as [p | e] eqn:Hint; cbn [bind].
  - done.
  - by rewrite (int_of_str_raises _ _ Hint).
Qed.

End CliProps.

(** ** The file search *)

Section SearchProps.
Context {P : Platform}.
Variable datetime : Type.
Variable strftime_ymd : datetime -> string.
Variable fromisoformat : string -> string + datetime.
Variable home : string.
Implicit Types (st : State) (result : CompletedProcess).
Implicit Types (options : Search.FileSearchOptions datetime) (items : list value).

Lemma parse_date_read entry key date :
  Search.read_date fromisoformat entry key date ->
  Search.parse_date fromisoformat (VDict entry) key = Ok date.
Proof.
  unfold Search.read_date, Search.parse_date. cbn [get bind].
  destruct (entries_get key entry) as [v |]; cbn [default from_option id].
  - destruct (truthy v); [| by intros ->].
    intros (s & d & -> & Hiso & ->). by rewrite Hiso.
  - by intros ->.
Qed.

Lemma parse_files_read items files :
  Forall2 (Search.read_file fromisoformat) items files ->
  Search.parse_files fromisoformat items = Ok files.
Proof.
  induction 1 as [| item f items files Hfile _ IH]; [done |].
  destruct Hfile as (entry & -> & Hcreated & Hmodified & Hpath & Hname & Hsize & Htype).
  cbn [Search.parse_files]. rewrite IH. unfold Search.parse_file.
  rewrite (parse_date_read _ _ _ Hcreated), (parse_date_read _ _ _ Hmodified).
  cbn [get bind]. rewrite <- Hpath, <- Hname, <- Hsize, <- Htype. by destruct f.
Qed.


Lemma parse_files_bad_date front entry back text message parsed :
  Search.parse_files fromisoformat front = Ok parsed ->
  entries_get "creationDate" entry = Some (VStr text) ->
  text <> EmptyString ->
  fromisoformat (replace "Z" "+00:00" text) = inl message ->
  Search.parse_files fromisoformat (front ++ VDict entry :: back)
  = Raise (mkExc ValueError message).
Proof.
  revert parsed. induction front as [| item front IH]; intros parsed Hfront Hdate Htext Hiso.
  - cbn [app Search.parse_files]. unfold Search.parse_file, Search.parse_date.
    cbn [get bind]. rewrite Hdate. cbn [default from_option id truthy].
    apply String.eqb_neq in Htext as ->. cbn [negb]. by rewrite Hiso.
  - cbn [app Search.parse_files] in Hfront |- *.
    destruct (Search.parse_file fromisoformat item) as [f | e]; [| done].
    cbn [bind] in Hfront |- *.
    destruct (Search.parse_files fromisoformat front) as [fs | e] eqn:Hfs; [| done].
    by rewrite (IH fs).
Qed.



End SearchProps.

(** ** Concrete runs *)

Lemma diff_reports_key_difference_witness :
  let before :=
    Samples.snapshot [Samples.keyed "a" "AXButton"; Samples.keyed "b" "AXButton"] in
  let after :=
    Samples.snapshot [Samples.keyed "b" "AXButton"; Samples.keyed "c" "AXLink"] in
  exists diff,
    _generate_traversal_diff before after = Ok diff
    /\ NoDup (map ax_element (added_elements diff))
    /\ NoDup (map ax_element (removed_elements diff)).
Proof.
  intros before after.
  destruct (diff_reports_key_difference before after)
    as (diff & Heq & _ & _ & _ & _ & Hadded & Hremoved).
  - repeat (constructor; [by eexists |]). constructor.
  - repeat (constructor; [by eexists |]). constructor.
  - by exists diff.
Defined.

Lemma diff_ignores_changes_under_same_keys_witness :
  let before := Samples.snapshot [Samples.keyed "a" "AXButton"] in
  let after := Samples.snapshot [Samples.keyed "a" "AXLink"] in
  _generate_traversal_diff before after
  = Ok (mkTraversalDiff [] [] [] (Some Samples.no_statistics)
          (Some Samples.no_statistics)).
Proof.
  intros before after.
  apply (diff_ignores_changes_under_same_keys before after).
  - repeat (constructor; [by eexists |]). constructor.
  - repeat (constructor; [by eexists |]). constructor.
  - intros k. split; intros (e & [<- | []] & He); simpl in He;
      eexists; (split; [by left | exact He]).
Defined.

Lemma diff_reports_last_element_of_a_key_witness :
  let before := Samples.snapshot [Samples.keyed "a" "AXButton"] in
  let first := Samples.keyed "k" "AXButton" in
  let last := Samples.keyed "k" "AXLink" in
  let other := Samples.keyed "z" "AXButton" in
  let after := Samples.snapshot [first; last; other] in
  exists diff,
    _generate_traversal_diff before after = Ok diff
    /\ In last (added_elements diff)
    /\ forall a, In a (added_elements diff) -> ax_element a = ax_element last -> a = last.
Proof.
  intros before first last other after.
  apply (diff_reports_last_element_of_a_key before after [first] [other] last).
  - repeat (constructor; [by eexists |]). constructor.
  - repeat (constructor; [by eexists |]). constructor.
  - reflexivity.
  - intros x [<- | []]. discriminate.
  - intros b [<- | []]. discriminate.
Defined.



Lemma output_controller_message_witness :
  let st :=
    Scripted.start
      [Ok (mkCompletedProcess 0 "0.5"
             (Samples.line "info: reading" ++ "note: Success: volume is 0.5 ")%string)]
      ActionOptions_default in
  exists message,
    fst (_run_output_controller_action GET_VOLUME None st)
    = Ok (mkOutputControllerResult (Some float_half) message).
Proof.
  intros st.
  destruct (@output_controller_message Scripted.platform GET_VOLUME None st
              (mkCompletedProcess 0 "0.5"
                 (Samples.line "info: reading" ++ "note: Success: volume is 0.5 ")%string)
              (@mkState Scripted.platform []
                 [ToolRun "OutputControllerTool" ["get-volume"%string]]
                 (store st))
              eq_refl) as (message & Heq & _).
  exists message. by rewrite Heq.
Defined.

Lemma processing_time_after_last_colon_witness :
  let result :=
    mkCompletedProcess 0 "4321"
      (Samples.line "info: opening"
         ++ Samples.line "total execution time: 0.123 seconds" ++ "done")%string in
  let st := Scripted.start [Ok result] ActionOptions_default in
  exists head tail,
    "total execution time: 0.123 seconds"%string = (head +:+ ":" +:+ tail)
    /\ contains ":" tail = false
    /\ fst (open_application "Calculator" st)
       = Ok (mkAppOpenerResult 4321 "Calculator"
               (replace " seconds" EmptyString (strip tail))).
Proof.
  intros result st.
  destruct (@processing_time_after_last_colon Scripted.platform "Calculator" st result
              (@mkState Scripted.platform []
                 [ToolRun "AppOpenerTool" ["Calculator"%string]] (store st))
              4321 ["info: opening"%string] ["done"%string]
              "total execution time: 0.123 seconds"
              eq_refl eq_refl eq_refl eq_refl)
    as (head & tail & Hline & Htail & Hopen).
  - repeat constructor.
  - exists head, tail. split; [exact Hline |]. split; [exact Htail |].
    by rewrite Hopen.
Defined.

Lemma opened_pid_is_printed_pid_witness :
  let result := mkCompletedProcess 0 (Samples.line " 4321") EmptyString in
  let st := Scripted.start [Ok result] ActionOptions_default in
  exists opened,
    fst (open_application "Calculator" st) = Ok opened /\ pid opened = 4321.
Proof.
  intros result st.
  destruct (@opened_pid_is_printed_pid Scripted.platform "Calculator" st result
              (@mkState Scripted.platform []
                 [ToolRun "AppOpenerTool" ["Calculator"%string]] (store st))
              4321 eq_refl eq_refl eq_refl)
    as (opened & Hopen & Hpid & _).
  exists opened. by rewrite Hopen.
Defined.

Lemma only_open_actions_traverse_witness :
  let options :=
    mkActionOptions true true true true true float_half (Some 77) float_quarter in
  let st := Scripted.start [] options in
  exists result,
    fst (perform_action PrimaryAction.TraverseOnly (Some 1%positive) st) = Ok result
    /\ traversal_pid result = None
    /\ traversal_before result = None
    /\ traversal_after result = None
    /\ traversal_diff result = None.
Proof.
  intros options st.
  destruct (@only_open_actions_traverse Scripted.platform PrimaryAction.TraverseOnly
              (Some 1%positive) st
              (fst (perform_action PrimaryAction.TraverseOnly (Some 1%positive) st))
              (snd (perform_action PrimaryAction.TraverseOnly (Some 1%positive) st)))
    as (result & Heq & _ & Hpid & Hbefore & Hafter & Hdiff & _).
  - discriminate.
  - apply surjective_pairing.
  - exists result. by rewrite Heq.
Defined.

Lemma perform_action_keeps_existing_options_witness :
  let options :=
    mkActionOptions false false true false true float_half None float_quarter in
  let st := Scripted.start [] options in
  store (snd (perform_action (PrimaryAction.Input (InputAction.Type_ "hello"))
                (Some 1%positive) st)) !! 1%positive
  = Some options.
Proof.
  intros options st.
  apply (@perform_action_keeps_existing_options Scripted.platform
           (PrimaryAction.Input (InputAction.Type_ "hello")) (Some 1%positive) st
           (fst (perform_action (PrimaryAction.Input (InputAction.Type_ "hello"))
                   (Some 1%positive) st))).
  - by eexists.
  - apply surjective_pairing.
  - reflexivity.
Defined.

Lemma missing_coordinate_runs_no_tool_witness :
  let point : Point := [("y"%string, float_half)] in
  let st := Scripted.start [] ActionOptions_default in
  _execute_input_action (InputAction.Click point) ActionOptions_default st
  = (Raise (mkExc KeyError "'x'"), st).
Proof.
  intros point st.
  destruct (@missing_coordinate_runs_no_tool Scripted.platform point
              (InputAction.Click point) "x") as [Hexecute _].
  - by left.
  - left. by split.
  - exact (Hexecute ActionOptions_default st).
Defined.

Lemma requested_diff_decides_the_outcome_witness :
  let options :=
    mkActionOptions false false true false true float_half None float_quarter in
  let st :=
    Scripted.start
      [Ok (mkCompletedProcess 0 "4321" EmptyString);
       Ok (mkCompletedProcess 0 "{}" EmptyString);
       Ok (mkCompletedProcess 0 "{}" EmptyString)]
      options in
  exists result,
    fst (perform_action (PrimaryAction.Open "Calculator") (Some 1%positive) st)
    = Ok result
    /\ is_Some (traversal_before result)
    /\ is_Some (traversal_after result)
    /\ is_Some (traversal_diff result).
Proof.
  intros options st. eexists.
  erewrite (@requested_diff_decides_the_outcome Scripted.platform "Calculator"
              1%positive);
    [| reflexivity | reflexivity | reflexivity | reflexivity | discriminate
     | reflexivity | reflexivity].
  split; [reflexivity |]. repeat split; by eexists.
Defined.

Lemma validated_is_idempotent_witness :
  let o := mkActionOptions false false true false true float_half None float_quarter in
  let h : Store := {[ 1%positive := o ]} in
  exists first h1 second h2 v,
    validated 1%positive h = (first, h1)
    /\ validated first h1 = (second, h2)
    /\ h1 !! first = Some v
    /\ h2 !! second = Some v
    /\ h2 !! first = Some v
    /\ second <> first
    /\ (show_diff o = false -> v = o).
Proof.
  intros o h. apply (validated_is_idempotent h 1%positive o). reflexivity.
Defined.

Lemma listed_applications_are_read_back_witness :
  let apps :=
    [Apps.mkApp 123 "com.apple.Safari" "Safari"; Apps.mkApp 45 "com.acme" "Acme,Inc"] in
  let st :=
    Scripted.start
      [Ok (mkCompletedProcess 0
             (Samples.line "Safari,123,com.apple.Safari, Acme,Inc,45,com.acme")
             EmptyString)]
      ActionOptions_default in
  fst (Apps.list_running_applications st) = apps.
Proof.
  intros apps st.
  erewrite (@listed_applications_are_read_back Scripted.platform st _ _ apps);
    [reflexivity | reflexivity | reflexivity | reflexivity |].
  repeat (constructor; [by repeat split |]). constructor.
Defined.

Lemma name_with_separator_is_cut_witness :
  let st :=
    Scripted.start
      [Ok (mkCompletedProcess 0
             (Samples.line "Safari,123,com.apple.Safari, Acme, Inc,45,com.acme, Notes,7,com.apple.Notes")
             EmptyString)]
      ActionOptions_default in
  fst (Apps.list_running_applications st)
  = [Apps.mkApp 123 "com.apple.Safari" "Safari"; Apps.mkApp 45 "com.acme" "Inc";
     Apps.mkApp 7 "com.apple.Notes" "Notes"].
Proof.
  intros st.
  erewrite (@name_with_separator_is_cut Scripted.platform st _ _
              [Apps.mkApp 123 "com.apple.Safari" "Safari"]
              [Apps.mkApp 7 "com.apple.Notes" "Notes"] "Acme" "Inc" 45 "com.acme");
    [reflexivity | reflexivity | reflexivity | reflexivity | reflexivity
     | by repeat split | |];
    (constructor; [by repeat split | constructor]).
Defined.

Lemma bundle_id_comes_before_names_witness :
  let st :=
    Scripted.start
      [Ok (mkCompletedProcess 0
             (Samples.line "Safari Helper,10,com.apple.helper, Browser,20,safari")
             EmptyString)]
      ActionOptions_default in
  fst (Apps.find_running_app_pid "safari" st) = Some 20.
Proof.
  intros st.
  erewrite (@bundle_id_comes_before_names Scripted.platform "safari" st 20);
    [reflexivity |].
  reflexivity.
Defined.

Lemma empty_identifier_is_resolved_witness :
  let st :=
    Scripted.start
      [Ok (mkCompletedProcess 0 (Samples.line "Safari,123,com.apple.Safari")
             EmptyString)]
      ActionOptions_default in
  exists z, fst (Apps.find_running_app_pid EmptyString st) = Some z.
Proof.
  intros st.
  destruct (@empty_identifier_is_resolved Scripted.platform st
              (Apps.mkApp 123 "com.apple.Safari" "Safari") []
              (snd (Apps.list_running_applications st)) eq_refl) as [z Hz].
  exists z. by rewrite Hz.
Defined.


Lemma superscript_identifier_is_rejected_witness :
  let st := Scripted.start [] ActionOptions_default in
  let traverse :=
    Cli.traverse (fun _ => "{}"%string) (fun _ _ w => (Ok tt, w)) in
  traverse (inr Samples.superscript_two) false None st
  = (Cli.failed
       ("Error traversing accessibility tree: invalid literal for int() with base 10: '"
          +:+ Samples.superscript_two +:+ "'"),
     st)
  /\ traverse (inr (Samples.ones 250 +:+ Samples.superscript_two)) false None st
     = (Cli.failed
          ("Error traversing accessibility tree: invalid literal for int() with base 10: '"
             +:+ Samples.ones 199),
        st).
Proof.
  intros st traverse. split.
  - apply (@superscript_identifier_is_rejected Scripted.platform);
      [reflexivity | by left | by vm_compute].
  - apply (@superscript_identifier_is_rejected Scripted.platform);
      [reflexivity | | by vm_compute].
    apply (bool_decide_unpack _). by vm_compute.
Defined.

Lemma decimal_identifier_is_a_process_id_witness :
  let st :=
    Scripted.start [Ok (mkCompletedProcess 0 "{}" EmptyString)] ActionOptions_default in
  let traverse :=
    Cli.traverse (fun _ => "{}"%string) (fun _ _ w => (Ok tt, w)) in
  (exists n,
     int_of_str "0123" = Ok n
     /\ 0 <= n
     /\ traverse (inr "0123"%string) false None st = traverse (inl n) false None st)
  /\ traverse (inr (Samples.ones 4301)) false None st
     = (Cli.failed
          ("Error traversing accessibility tree: "
             +:+ "Exceeds the limit (4300 digits) for integer string conversion: "
             +:+ "value has 4301 digits; "
             +:+ "use sys.set_int_max_str_digits() to increase the limit"),
        st).
Proof.
  intros st traverse. split.
  - apply (@decimal_identifier_is_a_process_id Scripted.platform
             (fun _ => "{}"%string) (fun _ _ w => (Ok tt, w)) "0123" false None st);
      [done |].
    repeat (constructor; [by eexists |]). constructor.
  - apply (@decimal_identifier_is_a_process_id Scripted.platform
             (fun _ => "{}"%string) (fun _ _ w => (Ok tt, w)) (Samples.ones 4301)
             false None st); [done |].
    apply (bool_decide_unpack _). by vm_compute.
Defined.

Lemma output_commands_need_a_printed_value_witness :
  let st :=
    Scripted.start
      [Ok (mkCompletedProcess 0 EmptyString "Success: volume set to 0.5")]
      ActionOptions_default in
  fst (Cli.set_volume (fun _ => "0.50"%string) float_half st)
  = Cli.failed
      "Error setting volume: unsupported format string passed to NoneType.__format__".
Proof.
  intros st.
  destruct (@output_commands_need_a_printed_value Scripted.platform
              (fun _ => "0.50"%string) float_half st
              (mkCompletedProcess 0 EmptyString "Success: volume set to 0.5")
              (@mkState Scripted.platform []
                 [ToolRun "OutputControllerTool" ["set-volume"; "0.5"]%string]
                 (store st)))
    as (Hset & _).
  by rewrite (Hset eq_refl).
Defined.

Lemma open_app_reports_what_the_opener_printed_witness :
  let st :=
    Scripted.start [Ok (mkCompletedProcess 0 (Samples.line "can't open") EmptyString)]
      ActionOptions_default in
  fst (Cli.open_app "Calculator" st)
  = Cli.failed
      ("Error opening application: invalid literal for int() with base 10: "
         +:+ String double_quote "can't open" +:+ String double_quote EmptyString).
Proof.
  intros st.
  erewrite (@open_app_reports_what_the_opener_printed Scripted.platform);
    [| reflexivity].
  reflexivity.
Defined.


